(** * ExecStateFuzzer: mutation engine, state projector, harness coercion and
      corpus statistics, embedded from the Python sources.

    Part I gives the definitions, one module per source component.
    Part II states and proves the properties. *)

From Stdlib Require Import ZArith NArith QArith Lia Bool List.
From Stdlib Require Import Strings.String Strings.Ascii Strings.Byte DecimalString.
From Stdlib Require Import Floats.SpecFloat Sorting.Sorted.
From stdpp Require Import base option list gmap strings fin_maps.

Set Warnings "-register-all".
Open Scope Z_scope.

(* ===================================================================== *)
(** * Part I: definitions                                                 *)
(* ===================================================================== *)

(** ** Python basics: exceptions and results *)

Module Py.

(** The exception classes the modelled code can raise or let through.
    [ValueError] carries the message tag of the raise site. *)
Inductive exn :=
| ValueError (msg : string)
| TypeError
| AttributeError
| KeyError
| IndexError
| ZeroDivisionError
| UnicodeEncodeError
| FileNotFoundError
| UnboundLocalError
| ImportError
| OverflowError
| RuntimeError (cause : exn).

(** A call either returns or raises. *)
Inductive result (A : Type) :=
| Ok (a : A)
| Raise (e : exn).
Arguments Ok {A} a.
Arguments Raise {A} e.

Definition bind {A B} (r : result A) (k : A -> result B) : result B :=
  match r with
  | Ok a => k a
  | Raise e => Raise e
  end.

Definition is_ok {A} (r : result A) : bool :=
  match r with Ok _ => true | Raise _ => false end.

End Py.

Import Py.

(** [bytes]: octet strings.  [str]: sequences of Unicode code points. *)
Abbreviation bytes := (list byte).
Abbreviation str := (list N).

#[global] Instance byte_eq_dec : EqDecision byte := Byte.byte_eq_dec.

#[global] Instance result_ret : MRet result := @Ok.
#[global] Instance result_bind : MBind result := fun A B k r => Py.bind r k.
#[global] Instance result_fmap : FMap result :=
  fun A B f r => match r with Ok a => Ok (f a) | Raise e => Raise e end.

(** ** The latin-1 codec ([bytes.decode('latin-1')], [str.encode('latin-1')]) *)

Module Latin1.

(** Every octet decodes to the code point of the same number. *)
Definition decode (b : bytes) : str := List.map Byte.to_N b.

(** A code point above 255 has no latin-1 encoding: [UnicodeEncodeError]. *)
Fixpoint encode (s : str) : result bytes :=
  match s with
  | [] => Ok []
  | c :: s' =>
      match Byte.of_N c with
      | None => Raise UnicodeEncodeError
      | Some b => bs ← encode s'; Ok (b :: bs)
      end
  end.

End Latin1.

(** ** [hashlib.md5(...).digest()]: RFC 1321 *)

Module Md5.

Definition mask32 : Z := 4294967295.
Definition wrap32 (z : Z) : Z := Z.land z mask32.
Definition add32 (x y : Z) : Z := wrap32 (x + y).
Definition not32 (x : Z) : Z := Z.lxor x mask32.
Definition rotl32 (x : Z) (c : Z) : Z :=
  wrap32 (Z.lor (Z.shiftl x c) (Z.shiftr x (32 - c))).

Definition shifts : list Z :=
  [7; 12; 17; 22; 7; 12; 17; 22; 7; 12; 17; 22; 7; 12; 17; 22;
   5; 9; 14; 20; 5; 9; 14; 20; 5; 9; 14; 20; 5; 9; 14; 20;
   4; 11; 16; 23; 4; 11; 16; 23; 4; 11; 16; 23; 4; 11; 16; 23;
   6; 10; 15; 21; 6; 10; 15; 21; 6; 10; 15; 21; 6; 10; 15; 21].

Definition sines : list Z :=
  [3614090360; 3905402710; 606105819; 3250441966;
   4118548399; 1200080426; 2821735955; 4249261313;
   1770035416; 2336552879; 4294925233; 2304563134;
   1804603682; 4254626195; 2792965006; 1236535329;
   4129170786; 3225465664; 643717713; 3921069994;
   3593408605; 38016083; 3634488961; 3889429448;
   568446438; 3275163606; 4107603335; 1163531501;
   2850285829; 4243563512; 1735328473; 2368359562;
   4294588738; 2272392833; 1839030562; 4259657740;
   2763975236; 1272893353; 4139469664; 3200236656;
   681279174; 3936430074; 3572445317; 76029189;
   3654602809; 3873151461; 530742520; 3299628645;
   4096336452; 1126891415; 2878612391; 4237533241;
   1700485571; 2399980690; 4293915773; 2240044497;
   1873313359; 4264355552; 2734768916; 1309151649;
   4149444226; 3174756917; 718787259; 3951481745].

Definition byte_of_Z (z : Z) : byte :=
  match Byte.of_N (Z.to_N (Z.land z 255)) with
  | Some b => b
  | None => x00
  end.

Definition Z_of_byte (b : byte) : Z := Z.of_N (Byte.to_N b).

(** Little-endian serialisation of a word on [n] octets. *)
Fixpoint le_bytes (n : nat) (z : Z) : bytes :=
  match n with
  | O => []
  | S n' => byte_of_Z z :: le_bytes n' (Z.shiftr z 8)
  end.

Fixpoint le_word (b : bytes) : Z :=
  match b with
  | [] => 0
  | x :: b' => Z.lor (Z_of_byte x) (Z.shiftl (le_word b') 8)
  end.

(** Padding: a one bit, zeros up to 56 mod 64, the bit length on 64 bits. *)
Definition pad (m : bytes) : bytes :=
  let len := Z.of_nat (List.length m) in
  let zeros := Z.to_nat ((55 - len) mod 64) in
  m ++ x80 :: List.repeat x00 zeros ++ le_bytes 8 (8 * len).

Fixpoint blocks (fuel : nat) (n : nat) (l : bytes) : list bytes :=
  match fuel with
  | O => []
  | S fuel' =>
      match l with
      | [] => []
      | _ => List.firstn n l :: blocks fuel' n (List.skipn n l)
      end
  end.

Definition words (block : bytes) : list Z :=
  List.map le_word (blocks 16 4 block).

Record regs := Regs { rA : Z; rB : Z; rC : Z; rD : Z }.

Definition step (M : list Z) (r : regs) (i : nat) : regs :=
  let '(Regs A B C D) := r in
  let zi := Z.of_nat i in
  let '(F, g) :=
    if zi <? 16 then (Z.lor (Z.land B C) (Z.land (not32 B) D), zi)
    else if zi <? 32 then (Z.lor (Z.land D B) (Z.land (not32 D) C), (5 * zi + 1) mod 16)
    else if zi <? 48 then (Z.lxor (Z.lxor B C) D, (3 * zi + 5) mod 16)
    else (Z.lxor C (Z.lor B (not32 D)), (7 * zi) mod 16) in
  let F' := add32 (add32 (add32 F A) (List.nth i sines 0)) (List.nth (Z.to_nat g) M 0) in
  Regs D (add32 B (rotl32 F' (List.nth i shifts 0))) B C.

Definition compress (h : regs) (block : bytes) : regs :=
  let r := List.fold_left (step (words block)) (List.seq 0 64) h in
  Regs (add32 (rA h) (rA r)) (add32 (rB h) (rB r))
       (add32 (rC h) (rC r)) (add32 (rD h) (rD r)).

Definition init : regs := Regs 1732584193 4023233417 2562383102 271733878.

Definition digest (m : bytes) : bytes :=
  let p := pad m in
  let h := List.fold_left compress (blocks (List.length p) 64 p) init in
  le_bytes 4 (rA h) ++ le_bytes 4 (rB h) ++ le_bytes 4 (rC h) ++ le_bytes 4 (rD h).

End Md5.


(** ** Values *)

Module Value.

(** Observation and state values: what the harness parses out of stdout and
    what the projector computes from it. *)
Inductive pyval :=
| VInt (z : Z)
| VFloat (f : spec_float)
| VStr (s : string)
| VBytes (b : bytes)
| VByteArray (b : bytes)
| VTuple (l : list pyval).

(** Documents read by [json.load]. An object is the list of its members in
    document order, one per key. *)
Inductive json :=
| JNull
| JBool (b : bool)
| JInt (z : Z)
| JFloat (f : spec_float)
| JStr (s : string)
| JList (l : list json)
| JObj (kv : list (string * json)).

Fixpoint assoc {A} (k : string) (kv : list (string * A)) : option A :=
  match kv with
  | [] => None
  | (k', v) :: kv' => if String.eqb k k' then Some v else assoc k kv'
  end.

Fixpoint chars (s : string) : list string :=
  match s with
  | EmptyString => []
  | String c s' => String c EmptyString :: chars s'
  end.

(** [x in s] for two strings: [x] occurs in [s]. *)
Fixpoint contains (x s : string) : bool :=
  String.prefix x s ||
  match s with
  | EmptyString => false
  | String _ s' => contains x s'
  end.

(** [for x in v]. *)
Definition py_iter (v : json) : result (list json) :=
  match v with
  | JList l => Ok l
  | JObj kv => Ok (List.map (fun p => JStr (fst p)) kv)
  | JStr s => Ok (List.map JStr (chars s))
  | JNull | JBool _ | JInt _ | JFloat _ => Raise TypeError
  end.

Definition is_str (k : string) (v : json) : bool :=
  match v with
  | JStr s => String.eqb k s
  | _ => false
  end.

(** [k in v] for a string [k]. *)
Definition py_in (k : string) (v : json) : result bool :=
  match v with
  | JObj kv => Ok (bool_decide (is_Some (assoc k kv)))
  | JList l => Ok (List.existsb (is_str k) l)
  | JStr s => Ok (contains k s)
  | JNull | JBool _ | JInt _ | JFloat _ => Raise TypeError
  end.

(** [v.get(k)]: only a dict has the method. *)
Definition py_get (k : string) (v : json) : result (option json) :=
  match v with
  | JObj kv => Ok (assoc k kv)
  | _ => Raise AttributeError
  end.

(** [v[k]] for a string [k]. *)
Definition py_getitem (k : string) (v : json) : result json :=
  match v with
  | JObj kv =>
      match assoc k kv with
      | Some x => Ok x
      | None => Raise KeyError
      end
  | _ => Raise TypeError
  end.

(** [v[i]] for a non-negative index [i]. *)
Definition py_index (i : nat) (v : json) : result json :=
  match v with
  | JList l =>
      match l !! i with
      | Some x => Ok x
      | None => Raise IndexError
      end
  | JStr s =>
      match chars s !! i with
      | Some c => Ok (JStr c)
      | None => Raise IndexError
      end
  | JObj _ => Raise KeyError
  | JNull | JBool _ | JInt _ | JFloat _ => Raise TypeError
  end.

(** Truth value of a document, as [not v] tests it. *)
Definition truthy (v : json) : bool :=
  match v with
  | JNull => false
  | JBool b => b
  | JInt z => negb (z =? 0)
  | JFloat f => negb (SFeqb f (S754_zero false))
  | JStr s => negb (String.eqb s "")
  | JList l => negb (bool_decide (l = []))
  | JObj kv => negb (bool_decide (kv = []))
  end.

End Value.

Import Value.

(** ** What the sources call and do not define *)

(** [ExecStateFuzzer.utils]: the predicate evaluator and the integer
    coercion are used by the sources as given functions. The evaluator is
    called for its truth value only, and is taken here as a function that
    returns: no caller in the sources has a handler around it, so a call
    of the evaluator that raises ends the caller with that exception, and
    the properties of the branches that call it are about the calls that
    return. *)
Class Utils := {
  eval_predicate_expression : json -> gmap string pyval -> bool;
  coerce_value_to_int : pyval -> result Z;
}.

(** Builtins of the interpreter: [str(v)] of a value that is not a str,
    [float(s)], and the limit on the digits of a decimal literal that
    [int(s)] accepts ([sys.get_int_max_str_digits()], 0 for none). The
    properties hold whatever these are; module [CPython] below gives
    CPython's. *)
Class Builtins := {
  py_str : pyval -> string;
  float_of_str : string -> result spec_float;
  int_max_str_digits : nat;
}.

(** The interpreter's state between calls, as far as the engine touches it:
    [random.choices(names, weights=weights)[0]] and the element a
    [set.pop()] removes (which one is unspecified) both depend on it, and
    operators may read and change it. *)
Class World (W : Type) := {
  random_choices : list json -> list json -> W -> result json * W;
  set_pop_choice : W -> N * W;
}.

(** ** mutation_engine.py *)

Module MutationEngine.

Section Engine.
Context {W : Type} `{!World W} `{!Utils}.

(** An operator is called with the decoded input and the mutation context;
    it returns a str or raises, and may use the random generator or globals
    of its module. A callable that returns anything but a str makes
    [mutated_str.encode] raise [AttributeError] inside the [try]: it counts
    as raising it. *)
Inductive op_outcome :=
| OpReturn (s : str)
| OpRaise (e : exn).

Definition operator : Type := str -> gmap string pyval -> W -> op_outcome * W.

(** An attribute of the operators module: a callable with the number of
    parameters of its signature, or anything else. *)
Inductive module_attr :=
| Callable (params : nat) (f : operator)
| NotCallable.

Record engine := Engine {
  operators : gmap string operator;
  rules : json;
  mutation_history : list bytes;
  max_mutation_history_size : nat;
  max_retries : nat;
}.

Definition with_history (e : engine) (h : list bytes) : engine :=
  Engine (operators e) (rules e) h (max_mutation_history_size e) (max_retries e).

(** [_load_operators]: [None] is a missing operators file, otherwise the
    attributes of the executed module, each public callable with a
    signature. The other ways the loader ends are in [operators_source]
    below. *)
Definition register_attr (ops : gmap string operator) (na : string * module_attr)
  : gmap string operator :=
  let '(name, a) := na in
  if String.prefix "_" name then ops
  else match a with
       | Callable params f => if (2 <=? params)%nat then <[name := f]> ops else ops
       | NotCallable => ops
       end.

Definition _load_operators (file : option (list (string * module_attr)))
  : result (gmap string operator) :=
  match file with
  | None => Raise FileNotFoundError
  | Some attrs => Ok (List.fold_left register_attr attrs ∅)
  end.

(** [_load_strategy]: the validation of one [op_entry]. *)
Definition weight_ok (weight : json) : bool :=
  match weight with
  | JInt z => negb (z <=? 0)
  | JBool b => b
  | JFloat f => negb (SFleb f (S754_zero false))
  | JNull | JStr _ | JList _ | JObj _ => false
  end.

Definition validate_entry (ops : gmap string operator) (op_entry : json) : result unit :=
  match op_entry with
  | JList [op_name; weight] =>
      match op_name with
      | JList _ | JObj _ => Raise TypeError
      | JStr name =>
          if bool_decide (is_Some (ops !! name))
          then if weight_ok weight then Ok tt else Raise (ValueError "invalid weight")
          else Raise (ValueError "unknown operator")
      | JNull | JBool _ | JInt _ | JFloat _ => Raise (ValueError "unknown operator")
      end
  | _ => Raise (ValueError "operator entry must be [name, weight]")
  end.

Fixpoint validate_entries (ops : gmap string operator) (entries : list json) : result unit :=
  match entries with
  | [] => Ok tt
  | op_entry :: rest => _ ← validate_entry ops op_entry; validate_entries ops rest
  end.

(** The body of [for rule in self.rules]. The message of the first raise
    calls [rule.get], which only a dict has. *)
Definition validate_rule (ops : gmap string operator) (rule : json) : result unit :=
  present ← py_in "operators" rule;
  if negb present then
    _ ← py_get "name" rule; Raise (ValueError "missing 'operators' field")
  else
    operators ← py_getitem "operators" rule;
    match operators with
    | JList entries => validate_entries ops entries
    | _ => Raise (ValueError "operators must be a list")
    end.

Fixpoint validate_rules (ops : gmap string operator) (rs : list json) : result unit :=
  match rs with
  | [] => Ok tt
  | rule :: rest => _ ← validate_rule ops rule; validate_rules ops rest
  end.

(** [_load_strategy]: [None] is a missing strategy file, otherwise the
    parsed document. Returns the value assigned to [self.rules]. *)
Definition _load_strategy (ops : gmap string operator) (file : option json) : result json :=
  match file with
  | None => Raise FileNotFoundError
  | Some data =>
      found ← py_get "rules" data;
      let rules := default (JList []) found in
      rs ← py_iter rules;
      _ ← validate_rules ops rs;
      Ok rules
  end.

(** [__init__] *)
Definition new_engine (operators_file : option (list (string * module_attr)))
    (strategy_file : option json) : result engine :=
  ops ← _load_operators operators_file;
  rules ← _load_strategy ops strategy_file;
  Ok (Engine ops rules [] 1000 5).

(** [select_rule] *)
Fixpoint first_match (rs : list json) (mutation_context : gmap string pyval)
  : result (option json) :=
  match rs with
  | [] => Ok None
  | rule :: rest =>
      condition ← py_get "condition" rule;
      match condition with
      | None | Some JNull => Ok (Some rule)
      | Some c =>
          if eval_predicate_expression c mutation_context then Ok (Some rule)
          else first_match rest mutation_context
      end
  end.

Definition select_rule (e : engine) (mutation_context : gmap string pyval)
  : result (option json) :=
  rs ← py_iter (rules e);
  first_match rs mutation_context.

(** [select_operator] *)
Fixpoint index_all (i : nat) (l : list json) : result (list json) :=
  match l with
  | [] => Ok []
  | op :: rest => x ← py_index i op; xs ← index_all i rest; Ok (x :: xs)
  end.

Definition select_operator (rule : json) (w : W) : result json * W :=
  match (operators ← py_getitem "operators" rule;
         ops ← py_iter operators;
         names ← index_all 0 ops;
         weights ← index_all 1 ops;
         Ok (names, weights)) with
  | Raise e => (Raise e, w)
  | Ok (names, weights) => random_choices names weights w
  end.

(** [self.operators[op_name]] *)
Definition lookup_operator (e : engine) (op_name : json) : result (string * operator) :=
  match op_name with
  | JList _ | JObj _ => Raise TypeError
  | JStr name =>
      match operators e !! name with
      | Some f => Ok (name, f)
      | None => Raise KeyError
      end
  | JNull | JBool _ | JInt _ | JFloat _ => Raise KeyError
  end.

(** The [try] block: up to [retries] attempts. [Ok None] is a loop that ran
    out without a [break]. *)
Fixpoint attempts (retries : nat) (op_func : operator) (data : bytes)
    (mutation_context : gmap string pyval) (history : list bytes) (w : W)
  : result (option bytes) * list bytes * W :=
  match retries with
  | O => (Ok None, history, w)
  | S retries' =>
      let data_str := Latin1.decode data in
      let '(out, w') := op_func data_str mutation_context w in
      match out with
      | OpRaise e => (Raise (RuntimeError e), history, w')
      | OpReturn mutated_str =>
          match Latin1.encode mutated_str with
          | Raise e => (Raise (RuntimeError e), history, w')
          | Ok mutated_data =>
              let m_hash := Md5.digest mutated_data in
              if bool_decide (m_hash ∈ history)
              then attempts retries' op_func data mutation_context history w'
              else (Ok (Some mutated_data), m_hash :: history, w')
          end
      end
  end.

(** [set.pop()]: removes one element, [KeyError] on the empty set. *)
Definition set_pop (history : list bytes) (w : W) : result (list bytes) * W :=
  match history with
  | [] => (Raise KeyError, w)
  | _ =>
      let '(k, w') := set_pop_choice w in
      (Ok (delete (N.to_nat (k mod N.of_nat (List.length history))) history), w')
  end.

(** One turn of [for _ in range(num_mutations)]. *)
Definition mutate_once (e : engine) (data : bytes) (mutation_context : gmap string pyval)
    (w : W) : result (option (bytes * string)) * engine * W :=
  match select_rule e mutation_context with
  | Raise x => (Raise x, e, w)
  | Ok None => (Raise (ValueError "No matching rule for mutation context"), e, w)
  | Ok (Some rule) =>
      let '(chosen, w1) := select_operator rule w in
      match op_name ← chosen; lookup_operator e op_name with
      | Raise x => (Raise x, e, w1)
      | Ok (op_name, op_func) =>
          let '(r, history, w2) :=
            attempts (max_retries e) op_func data mutation_context (mutation_history e) w1 in
          let e2 := with_history e history in
          match r with
          | Raise x => (Raise x, e2, w2)
          | Ok emitted =>
              let out := (fun m => (m, op_name)) <$> emitted in
              if (max_mutation_history_size e <=? List.length history)%nat then
                let '(popped, w3) := set_pop history w2 in
                match popped with
                | Raise x => (Raise x, e2, w3)
                | Ok history' => (Ok out, with_history e history', w3)
                end
              else (Ok out, e2, w2)
          end
      end
  end.

Fixpoint mutate_loop (n : nat) (e : engine) (data : bytes)
    (mutation_context : gmap string pyval) (w : W) (mutations : list (bytes * string))
  : result (list (bytes * string)) * engine * W :=
  match n with
  | O => (Ok mutations, e, w)
  | S n' =>
      let '(r, e', w') := mutate_once e data mutation_context w in
      match r with
      | Raise x => (Raise x, e', w')
      | Ok emitted =>
          mutate_loop n' e' data mutation_context w' (mutations ++ option_list emitted)
      end
  end.

(** [mutate]: the result, and the engine and interpreter state it leaves. *)
Definition mutate (e : engine) (data : bytes) (mutation_context : gmap string pyval)
    (num_mutations : Z) (w : W) : result (list (bytes * string)) * engine * W :=
  if (size (operators e) =? 0)%nat then (Raise (ValueError "No operators loaded"), e, w)
  else if negb (truthy (rules e)) then (Raise (ValueError "No rules defined in strategy"), e, w)
  else mutate_loop (Z.to_nat num_mutations) e data mutation_context w [].

(** ** Vocabulary for the properties of the engine *)

(** [m] is the latin-1 encoding of what operator [f] returned for the
    decoded [data]. *)
Definition mutation_of (f : operator) (data : bytes) (ctx : gmap string pyval)
    (m : bytes) : Prop :=
  exists w0 w1 s,
    f (Latin1.decode data) ctx w0 = (OpReturn s, w1) /\ Latin1.encode s = Ok m.

(** What a call leaves alone: the operators, the rules and the two bounds. *)
Definition same_config (e e' : engine) : Prop :=
  operators e' = operators e /\ rules e' = rules e /\
  max_mutation_history_size e' = max_mutation_history_size e /\
  max_retries e' = max_retries e.

(** An entry of the history is the 16-octet digest of the encoding of a
    string that a loaded operator returned. *)
Definition digest_entry (e : engine) (h : bytes) : Prop :=
  List.length h = 16%nat /\
  exists name f data ctx m,
    operators e !! name = Some f /\ mutation_of f data ctx m /\ h = Md5.digest m.

Definition history_ok (e : engine) : Prop :=
  (List.length (mutation_history e) < max_mutation_history_size e)%nat /\
  NoDup (mutation_history e) /\
  Forall (digest_entry e) (mutation_history e).

(** A pair that a call emits for [data]. *)
Definition emitted_by (e : engine) (data : bytes) (ctx : gmap string pyval)
    (p : bytes * string) : Prop :=
  exists f, operators e !! p.2 = Some f /\ mutation_of f data ctx p.1.

(** The condition of [rule] is absent, null, or true over the context. *)
Definition rule_matches (mutation_context : gmap string pyval) (rule : json) : bool :=
  match rule with
  | JObj kv =>
      match assoc "condition" kv with
      | None | Some JNull => true
      | Some c => eval_predicate_expression c mutation_context
      end
  | _ => false
  end.

(** What [_load_strategy] checks of an entry and of a rule. *)
Definition valid_entry (ops : gmap string operator) (op_entry : json) : Prop :=
  exists name weight,
    op_entry = JList [JStr name; weight] /\ is_Some (ops !! name) /\
    weight_ok weight = true.

Definition valid_rule (ops : gmap string operator) (rule : json) : Prop :=
  exists kv entries,
    rule = JObj kv /\ assoc "operators" kv = Some (JList entries) /\
    Forall (valid_entry ops) entries.


(** The engines that a run of [mutate] calls leads to from [e0], whatever
    the arguments and the interpreter state of each call and whether it
    returns or raises. *)
Inductive after_mutates (e0 : engine) : engine -> Prop :=
| after_none : after_mutates e0 e0
| after_call e data mutation_context num_mutations w r e' w' :
    after_mutates e0 e ->
    mutate e data mutation_context num_mutations w = (r, e', w') ->
    after_mutates e0 e'.

(** ** [reload] and the loaders as they write the engine *)

Definition with_operators (e : engine) (ops : gmap string operator) : engine :=
  Engine ops (rules e) (mutation_history e) (max_mutation_history_size e) (max_retries e).

Definition with_rules (e : engine) (rs : json) : engine :=
  Engine (operators e) rs (mutation_history e) (max_mutation_history_size e) (max_retries e).

(** [reload]: the two loaders run on the engine at hand, and each assigns
    its attribute where the source does: [self.operators] once the module
    was executed, [self.rules] as soon as the document is read, before the
    rules are validated. A raise leaves what was assigned before it. The
    module is given by the attributes it has once executed; what executing
    it does to the state of the interpreter is not part of the result. *)
Definition reload (e : engine) (operators_file : option (list (string * module_attr)))
    (strategy_file : option json) : result unit * engine :=
  match _load_operators operators_file with
  | Raise x => (Raise x, e)
  | Ok ops =>
      let e1 := with_operators e ops in
      match strategy_file with
      | None => (Raise FileNotFoundError, e1)
      | Some data =>
          match py_get "rules" data with
          | Raise x => (Raise x, e1)
          | Ok found =>
              let e2 := with_rules e1 (default (JList []) found) in
              (rs ← py_iter (rules e2); validate_rules ops rs, e2)
          end
      end
  end.

(** Every way [_load_operators] ends, those that [_load_operators] above
    leaves out included: the file is missing (line 29), no loader is found
    for it (line 34), creating or executing the module raises (lines 36 to
    38), the loop over its names raises at a public name that [dir] lists
    after the attributes [before] ([getattr], line 44, or
    [inspect.signature], line 48), or the module is executed and every
    public callable has a signature. *)
Inductive operators_source :=
| Missing
| NoLoader
| ExecRaises (x : exn)
| LoopRaises (before : list (string * module_attr)) (x : exn)
| Executed (attrs : list (string * module_attr)).

(** [_load_operators] on the engine at hand: [self.operators] is assigned
    at line 40, once the module was executed, and filled name by name. *)
Definition load_operators_on (e : engine) (source : operators_source)
  : result unit * engine :=
  match source with
  | Missing => (Raise FileNotFoundError, e)
  | NoLoader => (Raise ImportError, e)
  | ExecRaises x => (Raise x, e)
  | LoopRaises before x =>
      (Raise x, with_operators e (List.fold_left register_attr before ∅))
  | Executed attrs => (Ok tt, with_operators e (List.fold_left register_attr attrs ∅))
  end.

(** [_load_strategy] on the engine at hand: [document] is the parsed
    strategy file, or what the existence test, [open] or [json.load] raised
    (lines 54 to 58). [self.rules] is assigned at line 60, before the rules
    are validated. *)
Definition load_strategy_on (e : engine) (document : result json) : result unit * engine :=
  match document with
  | Raise x => (Raise x, e)
  | Ok data =>
      match py_get "rules" data with
      | Raise x => (Raise x, e)
      | Ok found =>
          let e' := with_rules e (default (JList []) found) in
          (rs ← py_iter (rules e'); validate_rules (operators e') rs, e')
      end
  end.

(** [reload], with every outcome of the two loaders. *)
Definition reload_on (e : engine) (source : operators_source) (document : result json)
  : result unit * engine :=
  let '(r, e1) := load_operators_on e source in
  match r with
  | Raise x => (Raise x, e1)
  | Ok _ => load_strategy_on e1 document
  end.



(** The engines that a run of [mutate] and [reload] calls leads to from
    [e0], whatever the arguments of each call and whether it returns or
    raises. *)
Inductive after_calls (e0 : engine) : engine -> Prop :=
| calls_none : after_calls e0 e0
| calls_mutate e data mutation_context num_mutations w r e' w' :
    after_calls e0 e ->
    mutate e data mutation_context num_mutations w = (r, e', w') ->
    after_calls e0 e'
| calls_reload e operators_file strategy_file r e' :
    after_calls e0 e ->
    reload e operators_file strategy_file = (r, e') ->
    after_calls e0 e'.

(** [name] is an attribute of the module that [_load_operators] keeps, with
    the callable [f]: public, callable, of two parameters or more. *)
Definition registers (attrs : list (string * module_attr)) (name : string) (f : operator)
  : Prop :=
  exists params, (name, Callable params f) ∈ attrs /\ (2 <= params)%nat /\
                 String.prefix "_" name = false.

(** The history holds fewer entries than its bound, each of 16 octets. *)
Definition history_small (e : engine) : Prop :=
  (List.length (mutation_history e) < max_mutation_history_size e)%nat /\
  Forall (fun h => List.length h = 16%nat) (mutation_history e).

(** The digest that [mutate] records for an emitted pair. *)
Definition digest_of (p : bytes * string) : bytes := Md5.digest p.1.

End Engine.

Arguments operator : clear implicits.
Arguments module_attr : clear implicits.
Arguments engine : clear implicits.
Arguments operators_source : clear implicits.
Arguments digest_of : simpl never.

End MutationEngine.

(** ** subprocess_execution.py: the state projector *)

Module StateProjector.

(** An item of a state spec: its ['type'] with the ['name'] or ['expr'] the
    branch for that type reads. An item of any other type matches no
    branch. *)
Inductive spec_item :=
| ItemValue (name : string)
| ItemSum (name : string)
| ItemPredicate (expr : string)
| ItemCounter (expr : string)
| ItemSet (name : string)
| ItemOther (type : string).

Section Projector.
Context `{!Utils} `{!Builtins}.

(** [total += coerce_value_to_int(v)] over the values. *)
Fixpoint sum_values (total : Z) (values : list pyval) : result Z :=
  match values with
  | [] => Ok total
  | v :: rest => n ← coerce_value_to_int v; sum_values (total + n) rest
  end.

(** [max((len(values) for values in samples.values()), default=0)] *)
Definition max_length (samples : gmap string (list pyval)) : nat :=
  List.fold_left (fun m nv => Nat.max m (List.length (snd nv))) (map_to_list samples) O.

(** The inner loop of the counter branch: [step_values] at index [i]. *)
Definition step_values (samples : gmap string (list pyval)) (i : nat) : gmap string pyval :=
  List.fold_left
    (fun sv nv => match snd nv !! i with
                  | Some v => <[fst nv := v]> sv
                  | None => sv
                  end)
    (map_to_list samples) ∅.

(** [for i in range(max_length)]: the count after the steps in [steps]. *)
Definition count_steps (expr : string) (samples : gmap string (list pyval))
    (steps : list nat) : Z :=
  List.fold_left
    (fun count i =>
       if eval_predicate_expression (JStr expr) (step_values samples i)
       then count + 1 else count)
    steps 0.

(** The set branch: what is added to [unique_values] for [v]. *)
Definition canonical (v : pyval) : pyval :=
  match v with
  | VBytes _ | VByteArray _ | VInt _ => v
  | VStr s => VStr s
  | VFloat _ | VTuple _ => VStr (py_str v)
  end.

Fixpoint bytes_leb (a b : bytes) : bool :=
  match a, b with
  | [], _ => true
  | _ :: _, [] => false
  | x :: a', y :: b' =>
      match N.compare (Byte.to_N x) (Byte.to_N y) with
      | Lt => true
      | Gt => false
      | Eq => bytes_leb a' b'
      end
  end.

(** [a <= b] where the two have one type that orders; [None] is the
    [TypeError] of a comparison across types. *)
Definition py_leb (a b : pyval) : option bool :=
  match a, b with
  | VInt x, VInt y => Some (x <=? y)
  | VStr x, VStr y => Some (String.leb x y)
  | VBytes x, VBytes y | VBytes x, VByteArray y
  | VByteArray x, VBytes y | VByteArray x, VByteArray y => Some (bytes_leb x y)
  | _, _ => None
  end.

Fixpoint sorted_insert (x : pyval) (l : list pyval) : result (list pyval) :=
  match l with
  | [] => Ok [x]
  | y :: l' =>
      match py_leb x y with
      | None => Raise TypeError
      | Some true => Ok (x :: l)
      | Some false => r ← sorted_insert x l'; Ok (y :: r)
      end
  end.

(** [sorted(unique_values)] of canonical values: the elements without
    repetition in increasing order, [TypeError] when two of them do not
    compare. *)
Fixpoint py_sorted (l : list pyval) : result (list pyval) :=
  match l with
  | [] => Ok []
  | x :: l' => r ← py_sorted l'; sorted_insert x r
  end.

#[local] Instance spec_float_eq_dec : EqDecision spec_float.
Proof. solve_decision. Defined.

Fixpoint pyval_eqb (a b : pyval) : bool :=
  match a, b with
  | VInt x, VInt y => x =? y
  | VFloat x, VFloat y => bool_decide (x = y)
  | VStr x, VStr y => String.eqb x y
  | VBytes x, VBytes y | VBytes x, VByteArray y
  | VByteArray x, VBytes y | VByteArray x, VByteArray y => bool_decide (x = y)
  | VTuple x, VTuple y =>
      (fix go (x y : list pyval) : bool :=
         match x, y with
         | [], [] => true
         | u :: x', v :: y' => pyval_eqb u v && go x' y'
         | _, _ => false
         end) x y
  | _, _ => false
  end.

(** [hash(v)] returns: a bytearray has no hash, nor has a tuple that holds
    one. *)
Fixpoint hashable (v : pyval) : bool :=
  match v with
  | VByteArray _ => false
  | VTuple l => List.forallb hashable l
  | VInt _ | VFloat _ | VStr _ | VBytes _ => true
  end.

(** [unique_values.add(v)] on the elements collected so far: [TypeError]
    for a value without a hash. *)
Definition set_add (v : pyval) (unique_values : list pyval) : result (list pyval) :=
  if hashable v then
    Ok (if List.existsb (pyval_eqb v) unique_values then unique_values
        else unique_values ++ [v])
  else Raise TypeError.

(** [for v in values] of the set branch, from the elements collected so
    far. *)
Fixpoint add_canonical (unique_values : list pyval) (values : list pyval)
  : result (list pyval) :=
  match values with
  | [] => Ok unique_values
  | v :: rest =>
      unique_values' ← set_add (canonical v) unique_values;
      add_canonical unique_values' rest
  end.

Definition unique_canonical (values : list pyval) : result (list pyval) :=
  add_canonical [] values.

(** One turn of [for item in spec] of [_compute_state_dict]. *)
Definition compute_item (samples : gmap string (list pyval)) (latest : gmap string pyval)
    (result : gmap string pyval) (item : spec_item) : Py.result (gmap string pyval) :=
  match item with
  | ItemValue name =>
      match latest !! name with
      | Some v => Ok (<[name := v]> result)
      | None => Ok result
      end
  | ItemSum name =>
      let values := default [] (samples !! name) in
      total ← sum_values 0 values;
      Ok (<[name := VInt total]> result)
  | ItemPredicate expr =>
      let fired := eval_predicate_expression (JStr expr) latest in
      Ok (<[expr := VInt (if fired then 1 else 0)]> result)
  | ItemCounter expr =>
      let count := count_steps expr samples (List.seq 0 (max_length samples)) in
      Ok (<[expr := VInt count]> result)
  | ItemSet name =>
      let values := default [] (samples !! name) in
      unique_values ← unique_canonical values;
      sorted ← py_sorted unique_values;
      Ok (<[name := VTuple sorted]> result)
  | ItemOther _ => Ok result
  end.

Fixpoint compute_items (samples : gmap string (list pyval)) (latest : gmap string pyval)
    (result : gmap string pyval) (spec : list spec_item) : Py.result (gmap string pyval) :=
  match spec with
  | [] => Ok result
  | item :: rest =>
      result' ← compute_item samples latest result item;
      compute_items samples latest result' rest
  end.

(** [_compute_state_dict]. What [show_execution_values] prints is not part
    of the returned dict. *)
Definition _compute_state_dict (spec : list spec_item)
    (execution_value_samples : gmap string (list pyval))
    (latest_values : gmap string pyval) (show_execution_values : bool)
  : Py.result (gmap string pyval) :=
  compute_items execution_value_samples latest_values ∅ spec.

(** The number of step indices below the largest length of a sample list
    at which [expr] is true over the step environment. *)
Definition true_steps (expr : string) (samples : gmap string (list pyval)) : Z :=
  Z.of_nat (List.length
    (List.filter
       (fun i => eval_predicate_expression (JStr expr) (step_values samples i))
       (List.seq 0 (max_length samples)))).

End Projector.

(** The display key of an item: the key its branch writes and reads. *)
Definition display_key (item : spec_item) : option string :=
  match item with
  | ItemValue name | ItemSum name | ItemSet name => Some name
  | ItemPredicate expr | ItemCounter expr => Some expr
  | ItemOther _ => None
  end.

(** One turn of [for item in spec] of [_dict_to_state_tuple]: what is
    appended to [computed]. *)
Definition labelled (label : string) (key : string) (state_dict : gmap string pyval)
  : list pyval :=
  match state_dict !! key with
  | Some v => [VStr label; v]
  | None => []
  end.

Definition tuple_item (state_dict : gmap string pyval) (item : spec_item) : list pyval :=
  match item with
  | ItemValue name => labelled (name +:+ " (value)") name state_dict
  | ItemSum name => labelled (name +:+ " (sum)") name state_dict
  | ItemPredicate expr => labelled expr expr state_dict
  | ItemCounter expr => labelled (expr +:+ " (count)") expr state_dict
  | ItemSet name => labelled (name +:+ " (set)") name state_dict
  | ItemOther _ => []
  end.

(** [_dict_to_state_tuple]: the elements of the returned tuple. *)
Definition _dict_to_state_tuple (spec : list spec_item) (state_dict : gmap string pyval)
  : list pyval :=
  List.fold_left (fun computed item => computed ++ tuple_item state_dict item) spec [].

(** An item writes its display key, unless it is a value item whose name
    has no latest value. *)
Definition writes (latest : gmap string pyval) (item : spec_item) (key : string) : Prop :=
  display_key item = Some key /\ (item = ItemValue key -> is_Some (latest !! key)).

(** The values a set can hold after [canonical]: ints, strs and bytes. *)
Definition flat (v : pyval) : Prop :=
  match v with
  | VInt _ | VStr _ | VBytes _ => True
  | VFloat _ | VByteArray _ | VTuple _ => False
  end.

Definition is_bytearray (v : pyval) : bool :=
  match v with
  | VByteArray _ => true
  | _ => false
  end.

(** [a <= b] holds. *)
Definition py_le (a b : pyval) : Prop := py_leb a b = Some true.

(** An item whose branch calls the predicate evaluator. *)
Definition evaluates (item : spec_item) : bool :=
  match item with
  | ItemPredicate _ | ItemCounter _ => true
  | ItemValue _ | ItemSum _ | ItemSet _ | ItemOther _ => false
  end.

End StateProjector.

(** ** subprocess_execution.py: parsing the observations out of stdout *)

Module Harness.

Import StateProjector.

Definition code (c : ascii) : N := N_of_ascii c.

(** [str.isspace] on a character of latin-1 text. *)
Definition isspace (c : ascii) : bool :=
  let n := code c in
  ((9 <=? n) && (n <=? 13) || (28 <=? n) && (n <=? 32) || (n =? 133) || (n =? 160))%N.

(** The line boundaries of [str.splitlines] in latin-1 text. *)
Definition islinebreak (c : ascii) : bool :=
  let n := code c in
  ((10 <=? n) && (n <=? 13) || (28 <=? n) && (n <=? 30) || (n =? 133))%N.

(** [c.isdigit()]: the decimal digits and the superscripts one, two, three. *)
Definition isdigit_char (c : ascii) : bool :=
  let n := code c in
  ((48 <=? n) && (n <=? 57) || (n =? 178) || (n =? 179) || (n =? 185))%N.

Definition isdecimal_char (c : ascii) : bool :=
  let n := code c in ((48 <=? n) && (n <=? 57))%N.

Definition lower_char (c : ascii) : ascii :=
  let n := code c in
  if ((65 <=? n) && (n <=? 90) || (192 <=? n) && (n <=? 222) && negb (n =? 215))%N
  then ascii_of_N (n + 32) else c.

Fixpoint lower (s : string) : string :=
  match s with
  | EmptyString => EmptyString
  | String c s' => String (lower_char c) (lower s')
  end.

Fixpoint forall_chars (p : ascii -> bool) (s : string) : bool :=
  match s with
  | EmptyString => true
  | String c s' => p c && forall_chars p s'
  end.

(** [s.isdigit()] *)
Definition isdigit (s : string) : bool :=
  negb (String.eqb s "") && forall_chars isdigit_char s.

Fixpoint lstrip (blank : ascii -> bool) (s : string) : string :=
  match s with
  | EmptyString => EmptyString
  | String c s' => if blank c then lstrip blank s' else s
  end.

Fixpoint rstrip (blank : ascii -> bool) (s : string) : string :=
  match s with
  | EmptyString => EmptyString
  | String c s' =>
      match rstrip blank s' with
      | EmptyString => if blank c then EmptyString else String c EmptyString
      | r => String c r
      end
  end.

(** [s.strip()] *)
Definition strip (s : string) : string := rstrip isspace (lstrip isspace s).

(** The blanks that [int(s)] and [float(s)] skip around a number: the
    whitespace of [str.isspace] but for the four separators 28 to 31. *)
Definition isnumspace (c : ascii) : bool :=
  let n := code c in
  ((9 <=? n) && (n <=? 13) || (n =? 32) || (n =? 133) || (n =? 160))%N.

Definition strip_number (s : string) : string := rstrip isnumspace (lstrip isnumspace s).

(** [s.split()]: the maximal runs of characters that are not whitespace. *)
Fixpoint split_go (cur : option string) (s : string) : list string :=
  match s with
  | EmptyString => option_list (String.rev <$> cur)
  | String c s' =>
      if isspace c
      then option_list (String.rev <$> cur) ++ split_go None s'
      else split_go (Some (String c (default EmptyString cur))) s'
  end.

Definition split (s : string) : list string := split_go None s.

(** [s.splitlines()] *)
Fixpoint splitlines_go (cur : string) (s : string) : list string :=
  match s with
  | EmptyString => if String.eqb cur "" then [] else [String.rev cur]
  | String c s' =>
      if islinebreak c then
        String.rev cur ::
        match s' with
        | String d s'' =>
            if ((code c =? 13) && (code d =? 10))%N
            then splitlines_go "" s'' else splitlines_go "" s'
        | EmptyString => []
        end
      else splitlines_go (String c cur) s'
  end.

Definition splitlines (s : string) : list string := splitlines_go "" s.

(** [line[line.find(pattern) + len(pattern):]] when [pattern in line]. *)
Fixpoint after_first (pattern line : string) : option string :=
  if String.prefix pattern line
  then Some (String.substring (String.length pattern)
               (String.length line - String.length pattern) line)
  else match line with
       | EmptyString => None
       | String _ line' => after_first pattern line'
       end.

(** [int(s)] for a str: surrounding blanks, a sign, decimal digits with
    single underscores between them. *)
Fixpoint digits_value (acc : Z) (prev_digit : bool) (s : string) : option Z :=
  match s with
  | EmptyString => if prev_digit then Some acc else None
  | String c s' =>
      if isdecimal_char c
      then digits_value (10 * acc + (Z.of_N (code c) - 48)) true s'
      else if ((code c =? 95)%N && prev_digit)
           then match s' with
                | String d _ => if isdecimal_char d then digits_value acc false s' else None
                | EmptyString => None
                end
           else None
  end.

(** [value_part.split()[0] if value_part.split() else value_part] for the
    stripped text after the pattern. *)
Definition first_token (rest : string) : string :=
  let value_part := strip rest in
  match split value_part with
  | token :: _ => token
  | [] => value_part
  end.

(** The number that a string of decimal digits denotes. *)
Fixpoint decimal_fold (acc : Z) (s : string) : Z :=
  match s with
  | EmptyString => acc
  | String c s' => decimal_fold (10 * acc + (Z.of_N (code c) - 48)) s'
  end.

Definition decimal_value (s : string) : Z := decimal_fold 0 s.

Fixpoint count_chars (p : ascii -> bool) (s : string) : nat :=
  match s with
  | EmptyString => O
  | String c s' => ((if p c then 1 else 0) + count_chars p s')%nat
  end.

Section Parsing.
Context `{!Utils} `{!Builtins}.

Definition py_int (s : string) : result Z :=
  let t := strip_number s in
  let '(negative, body) :=
    match t with
    | String c r =>
        if (code c =? 45)%N then (true, r)
        else if (code c =? 43)%N then (false, r)
        else (false, t)
    | EmptyString => (false, t)
    end in
  match digits_value 0 false body with
  | None => Raise (ValueError "invalid literal for int()")
  | Some z =>
      if negb (int_max_str_digits =? 0)%nat
         && (int_max_str_digits <? count_chars isdecimal_char body)%nat
      then Raise (ValueError "Exceeds the limit for integer string conversion")
      else Ok (if negative then - z else z)
  end.

(** The body of the [try]: the value for a raw token of the declared type. *)
Definition coerce (value_type : string) (value_str : string) : result pyval :=
  if String.eqb value_type "int" then z ← py_int value_str; Ok (VInt z)
  else if String.eqb value_type "float" then f ← float_of_str value_str; Ok (VFloat f)
  else if String.eqb value_type "bool" then
    if isdigit value_str then z ← py_int value_str; Ok (VInt z)
    else Ok (VInt (if bool_decide (lower value_str ∈ ["true"; "yes"; "1"]%string)
                   then 1 else 0))
  else Ok (VStr value_str).

(** [EXECUTION_VALUES_DICT]: the names in order of first appearance, each
    with the ['type'] of its last definition (['string'] when it has none). *)
Fixpoint dict_set {A} (k : string) (v : A) (d : list (string * A)) : list (string * A) :=
  match d with
  | [] => [(k, v)]
  | (k', v') :: d' => if String.eqb k k' then (k, v) :: d' else (k', v') :: dict_set k v d'
  end.

Definition execution_values_dict (execution_values_list : list (string * option string))
  : list (string * string) :=
  List.fold_left (fun d item => dict_set (fst item) (default "string"%string (snd item)) d)
    execution_values_list [].

(** [execution_value_samples[exec_name].append(value)] *)
Definition append_sample (exec_name : string) (value : pyval)
    (samples : gmap string (list pyval)) : gmap string (list pyval) :=
  <[exec_name := default [] (samples !! exec_name) ++ [value]]> samples.

(** The body of [for exec_name in EXECUTION_VALUES_DICT.keys()] on one
    stripped line. The [except] clause passes over [ValueError], [TypeError]
    and [IndexError] only. *)
Definition scan_name (line : string) (samples : gmap string (list pyval))
    (def : string * string) : result (gmap string (list pyval)) :=
  let '(exec_name, value_type) := def in
  match after_first (exec_name +:+ ":") line with
  | None => Ok samples
  | Some rest =>
      let value_str := first_token rest in
      match coerce value_type value_str with
      | Ok value => Ok (append_sample exec_name value samples)
      | Raise (ValueError _) | Raise TypeError | Raise IndexError => Ok samples
      | Raise e => Raise e
      end
  end.

Fixpoint scan_names (line : string) (samples : gmap string (list pyval))
    (defs : list (string * string)) : result (gmap string (list pyval)) :=
  match defs with
  | [] => Ok samples
  | def :: rest => samples' ← scan_name line samples def; scan_names line samples' rest
  end.

Fixpoint scan_lines (defs : list (string * string)) (samples : gmap string (list pyval))
    (lines : list string) : result (gmap string (list pyval)) :=
  match lines with
  | [] => Ok samples
  | line :: rest =>
      samples' ← scan_names (strip line) samples defs;
      scan_lines defs samples' rest
  end.

(** The samples [execute_binary] collects from the bytes of stdout. *)
Definition parse_stdout (execution_values_list : list (string * option string))
    (stdout : bytes) : result (gmap string (list pyval)) :=
  let stdout_text := string_of_list_byte stdout in
  scan_lines (execution_values_dict execution_values_list) ∅ (splitlines stdout_text).

(** [{k: v_list[-1] for k, v_list in execution_value_samples.items() if v_list}] *)
Definition latest_of (samples : gmap string (list pyval)) : gmap string pyval :=
  omap (fun v_list => last v_list) samples.

(** What [execute_binary] computes from the stdout of a run that returned
    (lines 152 to 194): the [execution_state] tuple and the
    [mutation_context] dict. The constructor of the result, which receives
    them with the bytes of stdout (lines 196 to 204), is not part of it. *)
Definition observe (execution_values_list : list (string * option string))
    (state_spec mutation_context_spec : list spec_item) (stdout : bytes)
  : result (list pyval * gmap string pyval) :=
  samples ← parse_stdout execution_values_list stdout;
  let latest_values := latest_of samples in
  computed_state_dict ← _compute_state_dict state_spec samples latest_values false;
  let computed_state := _dict_to_state_tuple state_spec computed_state_dict in
  computed_mutation_context ←
    _compute_state_dict mutation_context_spec samples latest_values false;
  Ok (computed_state, computed_mutation_context).

(** ** Vocabulary for the properties of the parser *)

(** What one stripped line adds to the samples of a declared name: the
    coerced first token after the first occurrence of its pattern, or
    nothing when the pattern is absent or the coercion is passed over. *)
Definition line_sample (exec_name value_type line : string) : option pyval :=
  match after_first (exec_name +:+ ":") line with
  | None => None
  | Some rest =>
      match coerce value_type (first_token rest) with
      | Ok value => Some value
      | Raise _ => None
      end
  end.

(** The samples of a name over the lines of the output, in line order. *)
Definition collected (exec_name value_type : string) (lines : list string) : list pyval :=
  omap (fun line => line_sample exec_name value_type (strip line)) lines.

(** The Python type of the values that a declared type yields: int for
    [int] and [bool], float for [float], str for anything else. *)
Definition value_kind (value_type : string) (v : pyval) : bool :=
  if String.eqb value_type "int" then match v with VInt _ => true | _ => false end
  else if String.eqb value_type "float" then match v with VFloat _ => true | _ => false end
  else if String.eqb value_type "bool" then match v with VInt _ => true | _ => false end
  else match v with VStr _ => true | _ => false end.

(** The list of a name after more values were appended to it. *)
Definition extend (old : option (list pyval)) (vs : list pyval) : option (list pyval) :=
  match vs with
  | [] => old
  | _ => Some (default [] old ++ vs)
  end.

(** The values of every name are of one declared type. *)
Definition well_kinded (samples : gmap string (list pyval)) : Prop :=
  forall name values, samples !! name = Some values ->
  exists value_type, Forall (fun v => value_kind value_type v = true) values.

(** The coercion of a sample of a summed name raised [e]. *)
Definition sum_failure (samples : gmap string (list pyval)) (spec : list spec_item)
    (e : exn) : Prop :=
  exists name values v,
    ItemSum name ∈ spec /\ samples !! name = Some values /\ v ∈ values /\
    coerce_value_to_int v = Raise e.

(** A token: not empty, and without whitespace. *)
Definition notspace (c : ascii) : bool := negb (isspace c).

Definition token (t : string) : Prop := t <> EmptyString /\ forall_chars notspace t = true.

End Parsing.

End Harness.

(** ** The builtins of CPython that the sources call on floats and tuples *)

Module CPython.

Import Harness.

(** The nearest binary64 number to [n / d], ties to even, for positive [n]
    and [d]. *)
Definition round_ratio (negative : bool) (n d : Z) : spec_float :=
  let s := Z.max 0 (64 + Z.log2 d - Z.log2 n) in
  let '(q, r) := Z.div_eucl (n * 2 ^ s) d in
  let l := if r =? 0 then loc_Exact else loc_Inexact (Z.compare (2 * r) d) in
  binary_round_aux 53 1024 negative q (- s) l.

(** The nearest binary64 number to [m * 10 ^ k], for a natural [m] written
    on at most [digits] digits. *)
Definition round_decimal (negative : bool) (m k : Z) (digits : Z) : spec_float :=
  if m =? 0 then S754_zero negative
  else if 400 <? k then S754_infinity negative
  else if digits + k <? -400 then S754_zero negative
  else if 0 <=? k then round_ratio negative (m * 10 ^ k) 1
  else round_ratio negative m (10 ^ (- k)).

Fixpoint take_digits (s : string) : string * string :=
  match s with
  | String c s' =>
      if isdecimal_char c then let '(d, r) := take_digits s' in (String c d, r)
      else (EmptyString, s)
  | EmptyString => (EmptyString, EmptyString)
  end.

Definition take_sign (s : string) : bool * string :=
  match s with
  | String c r =>
      if (code c =? 45)%N then (true, r)
      else if (code c =? 43)%N then (false, r)
      else (false, s)
  | EmptyString => (false, s)
  end.

(** Every underscore stands between two digits. *)
Fixpoint underscores_ok (prev_digit : bool) (s : string) : bool :=
  match s with
  | EmptyString => true
  | String c s' =>
      if (code c =? 95)%N then
        prev_digit &&
        match s' with
        | String d _ => isdecimal_char d
        | EmptyString => false
        end && underscores_ok false s'
      else underscores_ok (isdecimal_char c) s'
  end.

Fixpoint remove_underscores (s : string) : string :=
  match s with
  | EmptyString => EmptyString
  | String c s' =>
      if (code c =? 95)%N then remove_underscores s' else String c (remove_underscores s')
  end.

(** [digits [. digits] [e [sign] digits]]: the mantissa, the decimal
    exponent, and the number of digits of the mantissa. *)
Definition parse_decimal (s : string) : option (Z * Z * Z) :=
  let '(ip, r1) := take_digits s in
  let '(fp, r2) :=
    match r1 with
    | String c r => if (code c =? 46)%N then take_digits r else (EmptyString, r1)
    | EmptyString => (EmptyString, r1)
    end in
  if String.eqb (ip +:+ fp) "" then None
  else
    let m := decimal_value (ip +:+ fp) in
    let n := Z.of_nat (String.length (ip +:+ fp)) in
    let k := - Z.of_nat (String.length fp) in
    match r2 with
    | EmptyString => Some (m, k, n)
    | String c r3 =>
        if ((code c =? 101) || (code c =? 69))%N then
          let '(neg, r4) := take_sign r3 in
          let '(ep, r5) := take_digits r4 in
          if String.eqb ep "" || negb (String.eqb r5 "") then None
          else Some (m, k + (if neg then - decimal_value ep else decimal_value ep), n)
        else None
    end.

(** [float(s)] for a str. *)
Definition float_of_str (s : string) : result spec_float :=
  let t := strip_number s in
  if negb (underscores_ok false t) then Raise (ValueError "could not convert string to float")
  else
    let '(negative, body) := take_sign (remove_underscores t) in
    let word := lower body in
    if String.eqb word "inf" || String.eqb word "infinity" then Ok (S754_infinity negative)
    else if String.eqb word "nan" then Ok S754_nan
    else match parse_decimal body with
         | Some (m, k, n) => Ok (round_decimal negative m k n)
         | None => Raise (ValueError "could not convert string to float")
         end.

(** The decimal digits of a natural number. *)
Definition digits_of (n : Z) : string := NilZero.string_of_uint (N.to_uint (Z.to_N n)).

Fixpoint strip_zeros_rev (s : string) : string :=
  match s with
  | String c s' => if (code c =? 48)%N then strip_zeros_rev s' else s
  | EmptyString => EmptyString
  end.

(** Without its trailing zeros. *)
Definition strip_trailing_zeros (s : string) : string :=
  String.rev (strip_zeros_rev (String.rev s)).

(** The largest [k] with [10 ^ k <= n / d], searched upwards from a lower
    estimate. *)
Fixpoint log10_up (fuel : nat) (n d k : Z) : Z :=
  match fuel with
  | O => k
  | S fuel' =>
      let next := k + 1 in
      if (if 0 <=? next then d * 10 ^ next <=? n else d <=? n * 10 ^ (- next))
      then log10_up fuel' n d next else k
  end.

Definition floor_log10 (n d : Z) : Z :=
  let estimate := (Z.log2 n - Z.log2 d - 1) * 30102 / 100000 - 1 in
  log10_up 8 n d estimate.

(** The shortest decimal [c * 10 ^ x] that reads back as [f = n / d], as
    its digits and the position of its decimal point. *)
Fixpoint shortest (fuel : nat) (p : Z) (f : spec_float) (n d k : Z)
  : string * Z :=
  let x := k - p + 1 in
  let '(lo, r) := if 0 <=? x then Z.div_eucl n (d * 10 ^ x)
                  else Z.div_eucl (n * 10 ^ (- x)) d in
  let den := if 0 <=? x then d * 10 ^ x else d in
  let reads c := SFeqb (round_decimal false c x (p + 1)) f in
  let pick c := (strip_trailing_zeros (digits_of c),
                 Z.of_nat (String.length (digits_of c)) + x) in
  match fuel with
  | O => pick lo
  | S fuel' =>
      match reads lo, reads (lo + 1) with
      | true, true =>
          match Z.compare (2 * r) den with
          | Lt => pick lo
          | Gt => pick (lo + 1)
          | Eq => if Z.even lo then pick lo else pick (lo + 1)
          end
      | true, false => pick lo
      | false, true => pick (lo + 1)
      | false, false => shortest fuel' (p + 1) f n d k
      end
  end.

Definition exponent_text (e : Z) : string :=
  let a := digits_of (Z.abs e) in
  (if e <? 0 then "e-" else "e+") +:+ (if Z.abs e <? 10 then "0" +:+ a else a).

(** [repr(f)] for a float. *)
Definition float_repr (f : spec_float) : string :=
  match f with
  | S754_nan => "nan"
  | S754_infinity s => if s then "-inf" else "inf"
  | S754_zero s => if s then "-0.0" else "0.0"
  | S754_finite s m e =>
      let n := if 0 <=? e then Z.pos m * 2 ^ e else Z.pos m in
      let d := if 0 <=? e then 1 else 2 ^ (- e) in
      let '(digits, decpt) := shortest 17 1 (S754_finite false m e) n d (floor_log10 n d) in
      let len := Z.of_nat (String.length digits) in
      let body :=
        if (decpt <=? -4) || (16 <? decpt) then
          match digits with
          | String c EmptyString => String c EmptyString
          | String c rest => String c ("." +:+ rest)
          | EmptyString => EmptyString
          end +:+ exponent_text (decpt - 1)
        else if decpt <=? 0 then
          "0." +:+ string_of_list_ascii (List.repeat "0"%char (Z.to_nat (- decpt))) +:+ digits
        else if len <=? decpt then
          digits +:+ string_of_list_ascii (List.repeat "0"%char (Z.to_nat (decpt - len))) +:+ ".0"
        else
          String.substring 0 (Z.to_nat decpt) digits +:+ "." +:+
          String.substring (Z.to_nat decpt) (Z.to_nat (len - decpt)) digits in
      (if s then "-" else "") +:+ body
  end.


(** Two lower-case hexadecimal digits. *)
Definition hex_digit (n : N) : ascii :=
  ascii_of_N (if (n <? 10)%N then 48 + n else 87 + n).

Definition hex_escape (c : ascii) : string :=
  String "\" (String "x" (String (hex_digit (code c / 16)) (String (hex_digit (code c mod 16)) EmptyString))).

Definition char_in (c : ascii) (s : string) : bool :=
  negb (forall_chars (fun d => negb (code d =? code c)%N) s).

(** The quote of a repr: a double quote when the text holds a single quote
    and no double quote. *)
Definition repr_quote (s : string) : ascii :=
  if char_in "'" s && negb (char_in (ascii_of_N 34) s) then ascii_of_N 34 else "'"%char.

(** [str.isprintable] on a character of latin-1 text. *)
Definition isprintable (c : ascii) : bool :=
  let n := code c in
  ((32 <=? n) && (n <=? 126) || (161 <=? n) && negb (n =? 173))%N.

Definition escape_char (quote : ascii) (bytes_like : bool) (c : ascii) : string :=
  let n := code c in
  if ((n =? code quote) || (n =? 92))%N then String "\" (String c EmptyString)
  else if (n =? 9)%N then "\t"
  else if (n =? 10)%N then "\n"
  else if (n =? 13)%N then "\r"
  else if bytes_like then
    if ((n <? 32) || (127 <=? n))%N then hex_escape c else String c EmptyString
  else if isprintable c then String c EmptyString else hex_escape c.

Fixpoint escape_all (quote : ascii) (bytes_like : bool) (s : string) : string :=
  match s with
  | EmptyString => EmptyString
  | String c s' => escape_char quote bytes_like c +:+ escape_all quote bytes_like s'
  end.

(** [repr(s)] for a str of latin-1 text. *)
Definition str_repr (s : string) : string :=
  let q := repr_quote s in
  String q (escape_all q false s +:+ String q EmptyString).

(** [repr(b)] for bytes. *)
Definition bytes_repr (b : bytes) : string :=
  let s := string_of_list_byte b in
  let q := repr_quote s in
  String "b" (String q (escape_all q true s +:+ String q EmptyString)).

Definition int_repr (z : Z) : string :=
  if z <? 0 then "-" +:+ digits_of (- z) else digits_of z.

(** [repr(b)] for a bytearray: a single quote is escaped whatever the
    quote is. *)
Definition bytearray_repr (b : bytes) : string :=
  let s := string_of_list_byte b in
  let q := repr_quote s in
  "bytearray(b" +:+ String q (escape_all "'" true s +:+ String q ")").

(** [repr(v)] *)
Fixpoint py_repr (v : pyval) : string :=
  match v with
  | VInt z => int_repr z
  | VFloat f => float_repr f
  | VStr s => str_repr s
  | VBytes b => bytes_repr b
  | VByteArray b => bytearray_repr b
  | VTuple l =>
      match l with
      | [] => "()"
      | [x] => "(" +:+ py_repr x +:+ ",)"
      | x :: rest =>
          "(" +:+ py_repr x +:+
          (fix go (l : list pyval) : string :=
             match l with
             | [] => ")"
             | y :: l' => ", " +:+ py_repr y +:+ go l'
             end) rest
      end
  end.

(** [str(v)] *)
Definition py_str (v : pyval) : string :=
  match v with
  | VStr s => s
  | _ => py_repr v
  end.

(** CPython's builtins, with its default limit on the digits of a decimal
    literal. *)
#[export] Instance cpython_builtins : Builtins :=
  Build_Builtins py_str float_of_str 4300.

End CPython.

(** ** corpus_stat_tracker.py *)

Module CorpusStatTracker.

(** Binary64 arithmetic of the time stamps. *)
Definition fadd : spec_float -> spec_float -> spec_float := SFadd 53 1024.
Definition fsub : spec_float -> spec_float -> spec_float := SFsub 53 1024.
Definition fzero : spec_float := S754_zero false.

(** The fields of an [ExecutionResult] that [add_sample] reads. A bitmap is
    a sequence of numbers, tested for being non-zero. *)
Module Sample.

Record ExecutionResult := {
  cov_bitmap : option (list Z);
  branch_taken_bitmap : option (list Z);
  branch_fallthrough_bitmap : option (list Z);
  instr_address_set : option (gset Z);
  total_instructions : Z;
  pathlen_blocks : Z;
  call_depth : Z;
  execution_time : spec_float;
}.

End Sample.

Abbreviation ExecutionResult := Sample.ExecutionResult.

Record tracker := Tracker {
  MAP_SIZE : nat;
  cov_bitmap : list Z;
  branch_taken : list Z;
  branch_fallthrough : list Z;
  instruction_addresses : gset Z;
  total_instructions : Z;
  pathlen_blocks_sum : Z;
  pathlen_blocks_max : Z;
  calldepth_inside_sum : Z;
  calldepth_inside_max : Z;
  num_samples : Z;
  coverage_plateau_timeout : spec_float;
  last_coverage_time : spec_float;
  last_coverage_edges : Z;
  start_time : spec_float;
  cumulative_execution_time : spec_float;
}.

(** [__init__], with the reading of [time.time()]. *)
Definition new_tracker (map_size : nat) (plateau_timeout now : spec_float) : tracker :=
  {| MAP_SIZE := map_size;
     cov_bitmap := List.repeat 0 map_size;
     branch_taken := List.repeat 0 map_size;
     branch_fallthrough := List.repeat 0 map_size;
     instruction_addresses := ∅;
     total_instructions := 0;
     pathlen_blocks_sum := 0;
     pathlen_blocks_max := 0;
     calldepth_inside_sum := 0;
     calldepth_inside_max := 0;
     num_samples := 0;
     coverage_plateau_timeout := plateau_timeout;
     last_coverage_time := now;
     last_coverage_edges := 0;
     start_time := now;
     cumulative_execution_time := fzero |}.

Definition nonzero (z : Z) : bool := negb (z =? 0).

(** [for i in range(len(gb))]: the global bitmap and the flag after the
    indices in [idx], or the [IndexError] of [rb[i]] with what was written
    before it. *)
Fixpoint merge_cov (rb : list Z) (idx : list nat) (gb : list Z) (new_edge : bool)
  : result unit * list Z * bool :=
  match idx with
  | [] => (Ok tt, gb, new_edge)
  | i :: rest =>
      match rb !! i with
      | None => (Raise IndexError, gb, new_edge)
      | Some r =>
          if nonzero r && negb (nonzero (default 0 (gb !! i)))
          then merge_cov rb rest (<[i := 1]> gb) true
          else merge_cov rb rest gb new_edge
      end
  end.

(** [if bitmap[i]: target[i] = 1], each subscript in range or [IndexError]. *)
Definition mark (bitmap : list Z) (i : nat) (target : list Z) : result (list Z) :=
  match bitmap !! i with
  | None => Raise IndexError
  | Some b =>
      if nonzero b
      then if (i <? List.length target)%nat then Ok (<[i := 1]> target) else Raise IndexError
      else Ok target
  end.

(** [for i in range(self.MAP_SIZE)] over the two branch bitmaps. *)
Fixpoint merge_branches (bt bf : list Z) (idx : list nat) (taken fall : list Z)
  : result unit * list Z * list Z :=
  match idx with
  | [] => (Ok tt, taken, fall)
  | i :: rest =>
      match mark bt i taken with
      | Raise e => (Raise e, taken, fall)
      | Ok taken' =>
          match mark bf i fall with
          | Raise e => (Raise e, taken', fall)
          | Ok fall' => merge_branches bt bf rest taken' fall'
          end
      end
  end.

Definition set_cov (t : tracker) (gb : list Z) : tracker :=
  {| MAP_SIZE := MAP_SIZE t; cov_bitmap := gb;
     branch_taken := branch_taken t; branch_fallthrough := branch_fallthrough t;
     instruction_addresses := instruction_addresses t;
     total_instructions := total_instructions t;
     pathlen_blocks_sum := pathlen_blocks_sum t; pathlen_blocks_max := pathlen_blocks_max t;
     calldepth_inside_sum := calldepth_inside_sum t;
     calldepth_inside_max := calldepth_inside_max t;
     num_samples := num_samples t;
     coverage_plateau_timeout := coverage_plateau_timeout t;
     last_coverage_time := last_coverage_time t;
     last_coverage_edges := last_coverage_edges t;
     start_time := start_time t;
     cumulative_execution_time := cumulative_execution_time t |}.

Definition set_branches (t : tracker) (taken fall : list Z) : tracker :=
  {| MAP_SIZE := MAP_SIZE t; cov_bitmap := cov_bitmap t;
     branch_taken := taken; branch_fallthrough := fall;
     instruction_addresses := instruction_addresses t;
     total_instructions := total_instructions t;
     pathlen_blocks_sum := pathlen_blocks_sum t; pathlen_blocks_max := pathlen_blocks_max t;
     calldepth_inside_sum := calldepth_inside_sum t;
     calldepth_inside_max := calldepth_inside_max t;
     num_samples := num_samples t;
     coverage_plateau_timeout := coverage_plateau_timeout t;
     last_coverage_time := last_coverage_time t;
     last_coverage_edges := last_coverage_edges t;
     start_time := start_time t;
     cumulative_execution_time := cumulative_execution_time t |}.

(** The statements of [add_sample] after the bitmaps are merged. *)
Definition absorb (t : tracker) (sample : ExecutionResult) (new_edge : bool)
    (now : spec_float) : tracker :=
  {| MAP_SIZE := MAP_SIZE t; cov_bitmap := cov_bitmap t;
     branch_taken := branch_taken t; branch_fallthrough := branch_fallthrough t;
     instruction_addresses :=
       match Sample.instr_address_set sample with
       | Some addrs => if bool_decide (addrs = ∅) then instruction_addresses t
                       else instruction_addresses t ∪ addrs
       | None => instruction_addresses t
       end;
     total_instructions := total_instructions t + Sample.total_instructions sample;
     pathlen_blocks_sum := pathlen_blocks_sum t + Sample.pathlen_blocks sample;
     pathlen_blocks_max := Z.max (pathlen_blocks_max t) (Sample.pathlen_blocks sample);
     calldepth_inside_sum := calldepth_inside_sum t + Sample.call_depth sample;
     calldepth_inside_max := Z.max (calldepth_inside_max t) (Sample.call_depth sample);
     num_samples := num_samples t + 1;
     coverage_plateau_timeout := coverage_plateau_timeout t;
     last_coverage_time := if new_edge then now else last_coverage_time t;
     last_coverage_edges := last_coverage_edges t;
     start_time := start_time t;
     cumulative_execution_time := fadd (cumulative_execution_time t) (Sample.execution_time sample) |}.

(** [add_sample]: [now] is what [time.time()] reads during the call. A
    raise leaves the tracker with what was written before it. *)
Definition add_sample (t : tracker) (sample : ExecutionResult) (now : spec_float)
  : result unit * tracker :=
  let '(r1, gb, new_edge) :=
    match Sample.cov_bitmap sample with
    | Some rb => merge_cov rb (List.seq 0 (List.length (cov_bitmap t))) (cov_bitmap t) false
    | None => (Ok tt, cov_bitmap t, false)
    end in
  let t1 := set_cov t gb in
  match r1 with
  | Raise e => (Raise e, t1)
  | Ok _ =>
      let '(r2, taken, fall) :=
        match Sample.branch_taken_bitmap sample, Sample.branch_fallthrough_bitmap sample with
        | Some bt, Some bf =>
            merge_branches bt bf (List.seq 0 (MAP_SIZE t))
              (branch_taken t) (branch_fallthrough t)
        | _, _ => (Ok tt, branch_taken t, branch_fallthrough t)
        end in
      let t2 := set_branches t1 taken fall in
      match r2 with
      | Raise e => (Raise e, t2)
      | Ok _ => (Ok tt, absorb t2 sample new_edge now)
      end
  end.

Record CorpusStatResult := {
  total_edges : nat;
  total_branch_sites : nat;
  total_unique_instructions : nat;
  avg_pathlen_blocks : Q;
  max_pathlen_blocks : Z;
  avg_calldepth : Q;
  max_calldepth : Z;
}.

(** [sum(1 for b in self.cov_bitmap if b)] *)
Definition count_edges (gb : list Z) : nat :=
  List.length (List.filter nonzero gb).

Definition count_branch_sites (taken fall : list Z) : nat :=
  List.length (List.filter (fun p => nonzero (fst p) || nonzero (snd p))
                 (List.combine taken fall)).

(** [get_result]. The averages are the quotients of the true division,
    before their rounding to a float: the float that the source returns is
    the nearest one to the quotient, and the division raises
    [OverflowError] instead where the quotient is beyond the floats, which
    this definition leaves out. *)
Definition get_result (t : tracker) : result CorpusStatResult :=
  if num_samples t =? 0 then Raise ZeroDivisionError
  else Ok {| total_edges := count_edges (cov_bitmap t);
             total_branch_sites :=
               count_branch_sites (branch_taken t) (branch_fallthrough t);
             total_unique_instructions := size (instruction_addresses t);
             avg_pathlen_blocks := (inject_Z (pathlen_blocks_sum t) / inject_Z (num_samples t))%Q;
             max_pathlen_blocks := pathlen_blocks_max t;
             avg_calldepth := (inject_Z (calldepth_inside_sum t) / inject_Z (num_samples t))%Q;
             max_calldepth := calldepth_inside_max t |}.

(** [is_coverage_plateau], with the reading of [time.time()]. *)
Definition is_coverage_plateau (t : tracker) (current_time : spec_float) : bool :=
  SFleb (coverage_plateau_timeout t) (fsub current_time (last_coverage_time t)).

(** A run of [add_sample] calls, each with its sample and clock reading;
    a call that raises leaves its partial writes and the run goes on. *)
Definition add_samples (t : tracker) (calls : list (ExecutionResult * spec_float)) : tracker :=
  List.fold_left (fun t c => snd (add_sample t (fst c) (snd c))) calls t.

(** Every set entry of [gb] is the same entry of [gb'], and the two have
    one length. *)
Definition grows (gb gb' : list Z) : Prop :=
  Forall2 (fun a b => nonzero a = true -> b = a) gb gb'.

(** The samples of a run whose [add_sample] returned, in call order. *)
Fixpoint returned (t : tracker) (calls : list (ExecutionResult * spec_float))
  : list ExecutionResult :=
  match calls with
  | [] => []
  | c :: rest =>
      let '(r, t') := add_sample t c.1 c.2 in
      (if is_ok r then [c.1] else []) ++ returned t' rest
  end.

(** The sum and the running maximum of a field over samples. *)
Definition total (f : ExecutionResult -> Z) (samples : list ExecutionResult) : Z :=
  List.fold_right (fun s acc => f s + acc) 0 samples.

Definition largest (f : ExecutionResult -> Z) (start : Z) (samples : list ExecutionResult) : Z :=
  List.fold_left (fun m s => Z.max m (f s)) samples start.

(** Every set entry of [gb] is set in [gb'], and the two have one length. *)
Definition stays_set (gb gb' : list Z) : Prop :=
  Forall2 (fun a b => nonzero a = true -> nonzero b = true) gb gb'.

(** The sums stay below the number of samples times the maxima. *)
Definition averaged (t : tracker) : Prop :=
  0 <= num_samples t /\
  0 <= pathlen_blocks_max t /\ 0 <= calldepth_inside_max t /\
  pathlen_blocks_sum t <= num_samples t * pathlen_blocks_max t /\
  calldepth_inside_sum t <= num_samples t * calldepth_inside_max t.

(** The addresses of a sample, none when it carries no set. *)
Definition addresses_of (sample : ExecutionResult) : gset Z :=
  default ∅ (Sample.instr_address_set sample).

End CorpusStatTracker.

(** ** An environment to run the definitions in *)

Module Scenario.

Import MutationEngine StateProjector.
Import (hints) CPython.

(** Modelled from the spec: [utils.eval_predicate_expression] is not among
    the sources. This is the part of the expression language of section 4.A
    that the scenarios of section 8 use: integer literals, identifiers
    resolved from the environment (an unknown one yields zero), the six
    comparisons, [not], [and], [or]. An evaluation error makes the
    predicate false. *)
Fixpoint split_on (sep : string) (toks : list string) : list (list string) :=
  match toks with
  | [] => [[]]
  | t :: rest =>
      match split_on sep rest with
      | cur :: groups => if String.eqb t sep then [] :: cur :: groups else (t :: cur) :: groups
      | [] => [[t]]
      end
  end.

Definition eval_atom (env : gmap string pyval) (tok : string) : option Z :=
  match tok with
  | String c _ =>
      if Harness.isdecimal_char c || (Harness.code c =? 45)%N then
        match tok with
        | String "-" r => Z.opp <$> Harness.digits_value 0 false r
        | _ => Harness.digits_value 0 false tok
        end
      else match env !! tok with
           | None => Some 0
           | Some (VInt z) => Some z
           | Some _ => None
           end
  | EmptyString => None
  end.

Definition compare_op (op : string) (a b : Z) : option bool :=
  if String.eqb op "==" then Some (a =? b)
  else if String.eqb op "!=" then Some (negb (a =? b))
  else if String.eqb op "<" then Some (a <? b)
  else if String.eqb op "<=" then Some (a <=? b)
  else if String.eqb op ">" then Some (b <? a)
  else if String.eqb op ">=" then Some (b <=? a)
  else None.

Definition eval_comparison (env : gmap string pyval) (toks : list string) : option bool :=
  match toks with
  | [a] => z ← eval_atom env a; Some (negb (z =? 0))
  | [a; op; b] => x ← eval_atom env a; y ← eval_atom env b; compare_op op x y
  | _ => None
  end.

Fixpoint eval_not (env : gmap string pyval) (toks : list string) : option bool :=
  match toks with
  | t :: rest =>
      if String.eqb t "not" then negb <$> eval_not env rest
      else eval_comparison env toks
  | [] => None
  end.

Fixpoint eval_and (env : gmap string pyval) (groups : list (list string)) : option bool :=
  match groups with
  | [] => Some true
  | g :: rest =>
      match eval_not env g with
      | Some true => eval_and env rest
      | other => other
      end
  end.

Fixpoint eval_or (env : gmap string pyval) (groups : list (list string)) : option bool :=
  match groups with
  | [] => Some false
  | g :: rest =>
      match eval_and env (split_on "and" g) with
      | Some false => eval_or env rest
      | other => other
      end
  end.

(** The tokens: a comparison operator need not stand between blanks. *)
Definition operator_char (c : ascii) : bool :=
  let n := Harness.code c in
  ((n =? 33) || (n =? 60) || (n =? 61) || (n =? 62))%N.

Fixpoint spaced (in_operator : bool) (s : string) : string :=
  match s with
  | EmptyString => EmptyString
  | String c rest =>
      if bool_decide (operator_char c = in_operator) then String c (spaced in_operator rest)
      else String " " (String c (spaced (operator_char c) rest))
  end.

Definition tokens (s : string) : list string := Harness.split (spaced false s).

Definition scenario_eval (expr : json) (env : gmap string pyval) : bool :=
  match expr with
  | JStr s => default false (eval_or env (split_on "or" (tokens s)))
  | _ => false
  end.

(** Modelled from the spec: [utils.coerce_value_to_int] is not among the
    sources; section 3 says it coerces an observed value to an integer.
    Integers and decimal strings are coerced here, anything else is a
    coercion error. *)
Definition scenario_coerce (v : pyval) : result Z :=
  match v with
  | VInt z => Ok z
  | VStr s =>
      match Harness.digits_value 0 false s with
      | Some z => Ok z
      | None => Raise (ValueError "coerce_value_to_int")
      end
  | _ => Raise (ValueError "coerce_value_to_int")
  end.

#[export] Instance scenario_utils : Utils :=
  {| eval_predicate_expression := scenario_eval;
     coerce_value_to_int := scenario_coerce |}.

(** An interpreter state: the draws the random generator will make, and
    the [MUTATION_HISTORY] global of operators.py. *)
Record script := Script {
  tape : list N;
  MUTATION_HISTORY : list bytes;
}.

Definition draw (w : script) : N * script :=
  match tape w with
  | [] => (0%N, w)
  | k :: rest => (k, Script rest (MUTATION_HISTORY w))
  end.

(** A weight that is a number: an int (a bool is one) or a float. *)
Inductive number :=
| Int (z : Z)
| Float (f : spec_float).

Definition number_of (v : json) : option number :=
  match v with
  | JInt z => Some (Int z)
  | JBool b => Some (Int (if b then 1 else 0))
  | JFloat f => Some (Float f)
  | JNull | JStr _ | JList _ | JObj _ => None
  end.

(** The float of a number: the nearest one to an int, [OverflowError] when
    the int is beyond the floats. *)
Definition to_float (n : number) : result spec_float :=
  match n with
  | Float f => Ok f
  | Int z =>
      match binary_normalize 53 1024 z 0 false with
      | S754_infinity _ => Raise OverflowError
      | f => Ok f
      end
  end.

(** [a + b] on the values of a document. *)
Definition py_add (a b : json) : result json :=
  match number_of a, number_of b with
  | Some (Int x), Some (Int y) => Ok (JInt (x + y))
  | Some x, Some y => fx ← to_float x; fy ← to_float y; Ok (JFloat (SFadd 53 1024 fx fy))
  | _, _ =>
      match a, b with
      | JStr x, JStr y => Ok (JStr (x +:+ y))
      | JList x, JList y => Ok (JList (x ++ y))
      | _, _ => Raise TypeError
      end
  end.

(** [list(accumulate(weights))]: the running sums, the first weight as it
    is. *)
Fixpoint accumulate_from (total : json) (weights : list json) : result (list json) :=
  match weights with
  | [] => Ok []
  | wt :: rest =>
      total' ← py_add total wt;
      l ← accumulate_from total' rest;
      Ok (total' :: l)
  end.

Definition accumulate (weights : list json) : result (list json) :=
  match weights with
  | [] => Ok []
  | first :: rest => l ← accumulate_from first rest; Ok (first :: l)
  end.

(** [cum_weights[-1] + 0.0] *)
Definition float_total (final : json) : result spec_float :=
  match number_of final with
  | Some n => f ← to_float n; Ok (SFadd 53 1024 f (S754_zero false))
  | None => Raise TypeError
  end.

(** The value of a finite float. *)
Definition float_value (f : spec_float) : Q :=
  match f with
  | S754_finite sg m e => (inject_Z (if sg then Z.neg m else Z.pos m) * 2 ^ e)%Q
  | _ => 0%Q
  end.

(** [x < entry] for a float [x] and a running sum: an int is compared by
    its exact value. *)
Definition float_lt (x : spec_float) (entry : json) : bool :=
  match number_of entry with
  | Some (Float f) => SFltb x f
  | Some (Int z) =>
      match x with
      | S754_nan => false
      | S754_infinity sg => sg
      | _ => negb (Qle_bool (inject_Z z) (float_value x))
      end
  | None => false
  end.

(** [bisect(a, x, lo, hi)]: the binary search of [bisect_right]. *)
Fixpoint bisect (fuel : nat) (a : list json) (x : spec_float) (lo hi : nat) : nat :=
  match fuel with
  | O => lo
  | S fuel' =>
      if (lo <? hi)%nat then
        let mid := ((lo + hi) / 2)%nat in
        if float_lt x (List.nth mid a JNull) then bisect fuel' a x lo mid
        else bisect fuel' a x (mid + 1)%nat hi
      else lo
  end.

(** [math.isfinite] *)
Definition isfinite (f : spec_float) : bool :=
  match f with
  | S754_zero _ | S754_finite _ _ _ => true
  | S754_infinity _ | S754_nan => false
  end.

(** [random()]: the draw over 2^53. *)
Definition random_float (k : N) : spec_float :=
  binary_normalize 53 1024 (Z.of_N k mod 2 ^ 53) (-53) false.

(** [random.choices(names, weights=weights)[0]] after CPython's
    [Random.choices]. *)
Definition script_choices (names weights : list json) (w : script) : result json * script :=
  match accumulate weights with
  | Raise e => (Raise e, w)
  | Ok cum_weights =>
      if negb (List.length cum_weights =? List.length names)%nat
      then (Raise (ValueError "The number of weights does not match the population"), w)
      else match names, last cum_weights with
           | first :: _, Some final =>
               match float_total final with
               | Raise e => (Raise e, w)
               | Ok total =>
                   if SFleb total (S754_zero false)
                   then (Raise (ValueError "Total of weights must be greater than zero"), w)
                   else if negb (isfinite total)
                   then (Raise (ValueError "Total of weights must be finite"), w)
                   else
                     let '(k, w') := draw w in
                     let x := SFmul 53 1024 (random_float k) total in
                     let i := bisect (List.length cum_weights) cum_weights x 0
                                (List.length names - 1) in
                     (Ok (List.nth i names first), w')
               end
           | _, _ => (Raise IndexError, w)
           end
  end.

#[export] Instance script_world : World script :=
  {| random_choices := script_choices;
     set_pop_choice := draw |}.

(** operators.py *)
Definition MAX_HISTORY_SIZE : nat := 1000.

(** [random.randbytes(2).decode('latin-1')] *)
Definition randbytes2 (w : script) : str * script :=
  let '(k, w') := draw w in
  (Latin1.decode (Md5.le_bytes 2 (Z.of_N k)), w').

(** The undecorated [insert_random_bytes]. *)
Definition insert_random_bytes_func (input_str : str) (state_dict : gmap string pyval)
    (w : script) : str * script :=
  let '(r, w') := randbytes2 w in (input_str ++ r, w').

(** The [wrapper] of [ensure_unique], around [func]. *)
Fixpoint ensure_unique_loop (retries : nat) (func : str -> gmap string pyval -> script -> str * script)
    (input_str : str) (state_dict : gmap string pyval) (last : option str) (w : script)
  : op_outcome * script :=
  match retries with
  | O =>
      match last with
      | None => (OpRaise UnboundLocalError, w)
      | Some mutated => let '(r, w') := randbytes2 w in (OpReturn (mutated ++ r), w')
      end
  | S retries' =>
      let '(mutated, w1) := func input_str state_dict w in
      match Latin1.encode mutated with
      | Raise e => (OpRaise e, w1)
      | Ok encoded =>
          let m_hash := Md5.digest encoded in
          if bool_decide (m_hash ∈ MUTATION_HISTORY w1)
          then ensure_unique_loop retries' func input_str state_dict (Some mutated) w1
          else
            let '(history, w2) :=
              if (MAX_HISTORY_SIZE <? List.length (MUTATION_HISTORY w1))%nat
              then let '(k, w') := draw w1 in
                   (delete (N.to_nat (k mod N.of_nat (List.length (MUTATION_HISTORY w'))))
                      (MUTATION_HISTORY w'), w')
              else (MUTATION_HISTORY w1, w1) in
            (OpReturn mutated, Script (tape w2) (m_hash :: history))
      end
  end.

Definition ensure_unique (max_retries : nat)
    (func : str -> gmap string pyval -> script -> str * script) : operator script :=
  fun input_str state_dict w =>
    ensure_unique_loop max_retries func input_str state_dict None w.

Definition insert_random_bytes : operator script :=
  ensure_unique 5 insert_random_bytes_func.

(** The strings that [calls] calls of [func] return one after the other
    from the state [w], as the loop of the wrapper makes them while it goes
    on. *)
Fixpoint outputs_of (calls : nat) (func : str -> gmap string pyval -> script -> str * script)
    (input_str : str) (state_dict : gmap string pyval) (w : script) : list str :=
  match calls with
  | O => []
  | S calls' =>
      let '(mutated, w1) := func input_str state_dict w in
      mutated :: outputs_of calls' func input_str state_dict w1
  end.

(** The test of line 16 fails for [mutated]: its digest is in the history. *)
Definition recorded (history : list bytes) (mutated : str) : bool :=
  match Latin1.encode mutated with
  | Ok encoded => bool_decide (Md5.digest encoded ∈ history)
  | Raise _ => false
  end.

(** The names of the module that operators.py executes to. [wraps], with
    its three parameters, passes the signature test of [_load_operators];
    called as an operator it returns a partial object, not a str. *)
Definition operators_py : list (string * module_attr script) :=
  [("MAX_HISTORY_SIZE", NotCallable); ("MUTATION_HISTORY", NotCallable);
   ("ensure_unique", Callable 1 (fun _ _ w => (OpRaise TypeError, w)));
   ("hashlib", NotCallable);
   ("insert_random_bytes", Callable 2 insert_random_bytes);
   ("random", NotCallable);
   ("wraps", Callable 3 (fun _ _ w => (OpRaise AttributeError, w)))]%string.

(** Operators of the scenarios: one that always returns ["same"], one that
    returns its argument. *)
Definition always_same : operator script :=
  fun _ _ w => (OpReturn [115; 97; 109; 101]%N, w).

Definition unchanged : operator script :=
  fun input_str _ w => (OpReturn input_str, w).

Definition scenario_operators : list (string * module_attr script) :=
  [("always_same", Callable 2 always_same); ("unchanged", Callable 2 unchanged);
   ("_private", Callable 2 unchanged); ("one_param", Callable 1 unchanged);
   ("VERSION", NotCallable)]%string.

Definition rule (condition : json) (ops : list (string * Z)) : json :=
  JObj [("condition", condition);
        ("operators", JList (List.map (fun p => JList [JStr (fst p); JInt (snd p)]) ops))]%string.

Definition strategy (rules : list json) : json := JObj [("rules", JList rules)]%string.

Definition start : script := Script [] [].

(** A run of a tracker with a map of four edges: a sample that covers edge
    1, a sample whose bitmap is too short (its [add_sample] raises after
    edge 0 is written), and a sample that covers edges 1 and 3. *)
Definition sample_of (bitmap : list Z) : CorpusStatTracker.ExecutionResult :=
  {| CorpusStatTracker.Sample.cov_bitmap := Some bitmap;
     CorpusStatTracker.Sample.branch_taken_bitmap := None;
     CorpusStatTracker.Sample.branch_fallthrough_bitmap := None;
     CorpusStatTracker.Sample.instr_address_set := None;
     CorpusStatTracker.Sample.total_instructions := 10;
     CorpusStatTracker.Sample.pathlen_blocks := 3;
     CorpusStatTracker.Sample.call_depth := 2;
     CorpusStatTracker.Sample.execution_time := S754_zero false |}.

Definition tracker4 : CorpusStatTracker.tracker :=
  CorpusStatTracker.new_tracker 4 (S754_zero false) (S754_zero false).

Definition first_calls : list (CorpusStatTracker.ExecutionResult * spec_float) :=
  [(sample_of [0; 1; 0; 0], S754_zero false); (sample_of [7; 0], S754_zero false)].

Definition later_calls : list (CorpusStatTracker.ExecutionResult * spec_float) :=
  [(sample_of [0; 1; 0; 255], S754_zero false)].

(** Scenario 2 of the spec: the samples [{a: [1, 0, 1], b: [0, 0, 1]}]. *)
Definition samples_ab : gmap string (list pyval) :=
  {[ "a" := [VInt 1; VInt 0; VInt 1]; "b" := [VInt 0; VInt 0; VInt 1] ]}%string.

(** The engine [__init__] builds from an operators module and a strategy
    document that it accepts. *)
Definition engine_of (attrs : list (string * module_attr script)) (doc : json)
  : engine script :=
  match new_engine (Some attrs) (Some doc) with
  | Ok e => e
  | Raise _ => Engine ∅ JNull [] 0 0
  end.

Definition same_engine : engine script :=
  engine_of [("always_same", Callable 2 always_same)]%string
    (strategy [rule JNull [("always_same", 1)]])%string.

(** The same engine after [mutate(b"x", {}, 1)]. *)
Definition same_engine_used : engine script :=
  (mutate same_engine [x78] ∅ 1 start).1.2.

Definition unchanged_engine : engine script :=
  engine_of [("unchanged", Callable 2 unchanged)]%string
    (strategy [rule JNull [("unchanged", 1)]])%string.

(** Scenario 4 of the spec: a rule guarded by [n == 0], then an
    unconditional one. *)
Definition rule_A : json := rule (JStr "n == 0") [("always_same", 1)]%string.
Definition rule_B : json := rule JNull [("unchanged", 1)]%string.

Definition two_rule_engine : engine script :=
  engine_of scenario_operators (strategy [rule_A; rule_B]).

(** The guarded rule alone. *)
Definition guarded_engine : engine script :=
  engine_of scenario_operators (strategy [rule_A]).

(** A strategy whose rule has no operators. *)
Definition empty_rule_engine : engine script :=
  engine_of scenario_operators (JObj [("rules", JList [JObj [("operators", JList [])]])])%string.

(** The octets of ["x"] and of ["same"]. *)
Definition b_x : bytes := [x78].

(** operators.py under the engine, with one rule for its operator, and the
    draws of the random generator of a run of three mutations: the second
    mutation draws the octets of the first and then fresh ones. *)
Definition random_bytes_engine : engine script :=
  engine_of operators_py (strategy [rule JNull [("insert_random_bytes", 1)]])%string.

Definition three_draws : script := Script [0; 3; 0; 3; 258; 0; 0]%N [].

Definition three_outputs : list (bytes * string) :=
  [([x78; x03; x00], "insert_random_bytes"); ([x78; x02; x01], "insert_random_bytes");
   ([x78; x00; x00], "insert_random_bytes")]%string.

(** A reload of the engine of [always_same] with a strategy that names an
    operator the module does not have. *)
Definition same_module : list (string * module_attr script) :=
  [("always_same", Callable 2 always_same)]%string.

Definition unknown_strategy : json := strategy [rule JNull [("missing", 1)]]%string.

Definition failed_reload : engine script :=
  (reload same_engine_used (Some same_module) (Some unknown_strategy)).2.

(** The engine of a strategy document that has no rules. *)
Definition no_rules_engine : engine script := engine_of scenario_operators (JObj []).

(** A history of operators.py that holds [MAX_HISTORY_SIZE] digests. *)
Definition full_history : list bytes :=
  List.map (fun k => Md5.digest (Md5.le_bytes 2 (Z.of_nat k))) (List.seq 0 1000).

Definition full_script : script := Script [4096]%N full_history.

(** A state in which the five attempts of the wrapper on [b"x"] draw two
    zero octets each, with the digest of that output in the history, and
    the draw after them gives the octets 7 and 0. *)
Definition colliding_script : script :=
  Script [0; 0; 0; 0; 0; 7]%N [Md5.digest [x78; x00; x00]].


(** Samples of one name, for a spec with a set item and a value item of
    that name. *)
Definition samples_t : gmap string (list pyval) := {[ "t" := [VInt 3; VInt 1] ]}%string.

(** A sample that covers edge 1, and one whose bitmap is too short. *)
Definition edge_sample : CorpusStatTracker.ExecutionResult := sample_of [0; 1; 0; 0].
Definition short_sample : CorpusStatTracker.ExecutionResult := sample_of [7; 0].

(** A sample that carries a taken bitmap and no fall-through bitmap. *)
Definition taken_only_sample : CorpusStatTracker.ExecutionResult :=
  {| CorpusStatTracker.Sample.cov_bitmap := None;
     CorpusStatTracker.Sample.branch_taken_bitmap := Some [1; 1; 1; 1];
     CorpusStatTracker.Sample.branch_fallthrough_bitmap := None;
     CorpusStatTracker.Sample.instr_address_set := None;
     CorpusStatTracker.Sample.total_instructions := 10;
     CorpusStatTracker.Sample.pathlen_blocks := 3;
     CorpusStatTracker.Sample.call_depth := 2;
     CorpusStatTracker.Sample.execution_time := S754_zero false |}.

(** The clock reading 1.0. *)
Definition one_second : spec_float := S754_finite false 4503599627370496 (-52).

End Scenario.


(* ===================================================================== *)
(** * Part II: properties                                                 *)
(* ===================================================================== *)

Import MutationEngine StateProjector.

(** ** The codec and the digest *)

Lemma latin1_encode_decode (b : bytes) : Latin1.encode (Latin1.decode b) = Ok b.
Proof.
  induction b as [|x b IH]; [reflexivity|].
  cbn [Latin1.decode List.map Latin1.encode].
  rewrite Byte.of_to_N.
  change (List.map Byte.to_N b) with (Latin1.decode b).
  rewrite IH. reflexivity.
Qed.

Lemma latin1_encode_inv (s : str) (b : bytes) :
  Latin1.encode s = Ok b -> s = Latin1.decode b.
Proof.
  revert b. induction s as [|c s IH]; intros b; cbn [Latin1.encode].
  - intros [= <-]. reflexivity.
  - destruct (Byte.of_N c) as [x|] eqn:Hc; [|discriminate].
    destruct (Latin1.encode s) as [bs|e] eqn:Hs; cbn; [|discriminate].
    intros [= <-]. cbn. f_equal; [|apply IH; reflexivity].
    symmetry. apply Byte.to_of_N. exact Hc.
Qed.

Lemma le_bytes_length (n : nat) (z : Z) : List.length (Md5.le_bytes n z) = n.
Proof. revert z. induction n as [|n IH]; intros z; cbn; [reflexivity|]. now rewrite IH. Qed.

Lemma digest_length (m : bytes) : List.length (Md5.digest m) = 16%nat.
Proof.
  unfold Md5.digest. cbv zeta.
  rewrite !List.length_app, !le_bytes_length. reflexivity.
Qed.

(** The digests agree with [hashlib] on its test vectors. *)
Example digest_empty :
  Md5.digest [] = [xd4; x1d; x8c; xd9; x8f; x00; xb2; x04; xe9; x80; x09; x98; xec; xf8; x42; x7e].
Proof. vm_compute. reflexivity. Qed.

Example digest_two_blocks :
  Md5.digest (List.repeat x61 70)
  = [x0f; x5c; x6c; x4e; x74; x0b; xfc; xc0; x8c; x3c; x26; xcc; xb2; x67; x3d; x46].
Proof. vm_compute. reflexivity. Qed.

(** ** The mutation engine *)

Section EngineFacts.
Context {W : Type} `{!World W} `{!Utils}.

Implicit Types (e : engine W) (f : operator W) (w : W) (history : list bytes).

Lemma attempts_inv retries f data ctx history w r history' w' :
  attempts retries f data ctx history w = (r, history', w') ->
  match r with
  | Ok (Some m) =>
      history' = Md5.digest m :: history /\ (Md5.digest m ∉ history) /\
      mutation_of f data ctx m
  | Ok None => history' = history
  | Raise x => history' = history /\ exists cause, x = RuntimeError cause
  end.
Proof.
  revert history w. induction retries as [|k IH]; intros history w; cbn [attempts].
  - intros [= <- <- <-]. reflexivity.
  - destruct (f (Latin1.decode data) ctx w) as [out w1] eqn:Hf.
    destruct out as [s|x].
    + destruct (Latin1.encode s) as [m|x] eqn:Hs.
      * case_bool_decide as Hin.
        -- apply IH.
        -- intros [= <- <- <-]. repeat split; [exact Hin|].
           exists w, w1, s. split; assumption.
      * intros [= <- <- <-]. split; [reflexivity|eauto].
    + intros [= <- <- <-]. split; [reflexivity|eauto].
Qed.

Lemma same_config_refl e : same_config e e.
Proof. repeat split. Qed.

Lemma same_config_trans e1 e2 e3 :
  same_config e1 e2 -> same_config e2 e3 -> same_config e1 e3.
Proof. unfold same_config. intuition congruence. Qed.

Lemma same_config_with_history e history : same_config e (with_history e history).
Proof. repeat split. Qed.

Lemma digest_entry_config e e' h :
  same_config e e' -> digest_entry e h -> digest_entry e' h.
Proof.
  intros (Hops & _) (Hlen & name & f & data & ctx & m & Hf & Hm & ->).
  split; [exact Hlen|]. exists name, f, data, ctx, m. rewrite Hops. auto.
Qed.

Lemma lookup_operator_inv e op_name name f :
  lookup_operator e op_name = Ok (name, f) -> operators e !! name = Some f.
Proof.
  destruct op_name as [| | | |s| |]; cbn; try discriminate.
  destruct (operators e !! s) as [g|] eqn:Hs; [|discriminate].
  intros [= <- <-]. exact Hs.
Qed.

Lemma set_pop_inv history w r w' :
  set_pop history w = (r, w') ->
  match r with
  | Ok history' =>
      exists i, (i < List.length history)%nat /\ history' = delete i history
  | Raise x => history = [] /\ x = KeyError
  end.
Proof.
  unfold set_pop. destruct history as [|h history].
  - intros [= <- <-]. auto.
  - destruct (set_pop_choice w) as [k w1]. intros [= <- <-].
    exists (N.to_nat (k mod N.of_nat (List.length (h :: history)))). split; [|reflexivity].
    pose proof (N.mod_upper_bound k (N.of_nat (List.length (h :: history)))) as Hk.
    cbn [List.length] in *. lia.
Qed.

Lemma length_delete_lt {A} (l : list A) i :
  (i < List.length l)%nat -> List.length (delete i l) = (List.length l - 1)%nat.
Proof. intros Hi. apply length_delete. apply lookup_lt_is_Some. exact Hi. Qed.

(** One turn of the loop: the configuration stays, the history stays well
    formed, and an emitted pair names a loaded operator and carries the
    encoding of what that operator returned. *)
Lemma mutate_once_inv e data ctx w r e' w' :
  mutate_once e data ctx w = (r, e', w') ->
  same_config e e' /\
  (history_ok e -> history_ok e') /\
  match r with
  | Ok (Some (m, name)) =>
      exists f, operators e !! name = Some f /\ mutation_of f data ctx m
  | _ => True
  end.
Proof.
  unfold mutate_once.
  destruct (select_rule e ctx) as [[rule|]|x].
  2,3: intros [= <- <- <-]; split; [apply same_config_refl|auto].
  destruct (select_operator rule w) as [chosen w1].
  destruct (op_name ← chosen; lookup_operator e op_name) as [[name f]|x] eqn:Hlook.
  2: intros [= <- <- <-]; split; [apply same_config_refl|auto].
  assert (Hf : operators e !! name = Some f).
  { destruct chosen as [op_name|x]; cbn in Hlook; [|discriminate].
    eapply lookup_operator_inv, Hlook. }
  destruct (attempts (max_retries e) f data ctx (mutation_history e) w1)
    as [[ra history] w2] eqn:Hatt.
  apply attempts_inv in Hatt.
  assert (Hok2 : history_ok e ->
                 (List.length history <= max_mutation_history_size e)%nat /\
                 NoDup history /\ Forall (digest_entry e) history).
  { intros (Hlen & Hnd & Hall).
    destruct ra as [[m|]|x].
    - destruct Hatt as (-> & Hnew & Hm). repeat split.
      + cbn. lia.
      + constructor; assumption.
      + constructor; [|exact Hall]. split; [apply digest_length|].
        exists name, f, data, ctx, m. auto.
    - subst history. repeat split; [lia|assumption..].
    - destruct Hatt as [-> _]. repeat split; [lia|assumption..]. }
  destruct ra as [emitted|x].
  2: { intros [= <- <- <-]. split; [apply same_config_with_history|]. split; [|exact I].
       intros Hok. destruct Hatt as [-> _]. exact Hok. }
  destruct (max_mutation_history_size e <=? List.length history)%nat eqn:Hfull.
  - destruct (set_pop history w2) as [popped w3] eqn:Hpop.
    apply set_pop_inv in Hpop. apply Nat.leb_le in Hfull.
    destruct popped as [history'|x].
    + destruct Hpop as (i & Hi & ->).
      intros [= <- <- <-]. split; [apply same_config_with_history|]. split.
      * intros Hok. destruct (Hok2 Hok) as (Hlen & Hnd & Hall).
        repeat split; cbn.
        -- rewrite length_delete_lt by exact Hi. lia.
        -- eapply sublist_NoDup; [exact Hnd|apply sublist_delete].
        -- apply Forall_delete. exact Hall.
      * destruct emitted as [m|]; cbn; [|exact I].
        destruct Hatt as (_ & _ & Hm). eauto.
    + destruct Hpop as [-> ->].
      intros [= <- <- <-]. split; [apply same_config_with_history|]. split; [|exact I].
      intros (Hlen & _). repeat split; cbn; [lia|constructor..].
  - apply Nat.leb_gt in Hfull.
    intros [= <- <- <-]. split; [apply same_config_with_history|]. split.
    + intros Hok. destruct (Hok2 Hok) as (Hlen & Hnd & Hall).
      repeat split; cbn; assumption.
    + destruct emitted as [m|]; cbn; [|exact I].
      destruct Hatt as (_ & _ & Hm). eauto.
Qed.

Lemma mutate_loop_inv n e data ctx w acc r e' w' :
  mutate_loop n e data ctx w acc = (r, e', w') ->
  same_config e e' /\
  (history_ok e -> history_ok e') /\
  match r with
  | Ok out =>
      exists new, out = acc ++ new /\ (List.length new <= n)%nat /\
                  Forall (emitted_by e data ctx) new
  | Raise _ => True
  end.
Proof.
  revert e w acc. induction n as [|n IH]; intros e w acc; cbn [mutate_loop].
  - intros [= <- <- <-]. split; [apply same_config_refl|]. split; [auto|].
    exists []. rewrite app_nil_r. repeat split; [cbn; lia|constructor].
  - destruct (mutate_once e data ctx w) as [[r1 e1] w1] eqn:Hone.
    apply mutate_once_inv in Hone. destruct Hone as (Hcfg & Hok & Hem).
    destruct r1 as [emitted|x].
    + intros Hloop. apply IH in Hloop. destruct Hloop as (Hcfg' & Hok' & Hout).
      split; [eapply same_config_trans; eassumption|]. split; [auto|].
      destruct r as [out|]; [|exact I].
      destruct Hout as (new & -> & Hlen & Hall).
      exists (option_list emitted ++ new). rewrite app_assoc. split; [reflexivity|].
      split.
      * rewrite List.length_app. destruct emitted; cbn; lia.
      * apply Forall_app. split.
        -- destruct emitted as [[m name]|]; cbn; constructor; [|constructor].
           exact Hem.
        -- eapply Forall_impl; [exact Hall|].
           intros [m name] (f & Hf & Hm). exists f. split; [|exact Hm].
           destruct Hcfg as (Hops & _). rewrite <- Hops. exact Hf.
    + intros [= <- <- <-]. split; [exact Hcfg|]. split; [exact Hok|exact I].
Qed.

Lemma mutate_inv e data ctx n w r e' w' :
  mutate e data ctx n w = (r, e', w') ->
  same_config e e' /\
  (history_ok e -> history_ok e') /\
  match r with
  | Ok out => (List.length out <= Z.to_nat n)%nat /\ Forall (emitted_by e data ctx) out
  | Raise _ => True
  end.
Proof.
  unfold mutate.
  destruct (size (operators e) =? 0)%nat.
  { intros [= <- <- <-]. split; [apply same_config_refl|auto]. }
  destruct (negb (truthy (rules e))).
  { intros [= <- <- <-]. split; [apply same_config_refl|auto]. }
  intros Hloop. apply mutate_loop_inv in Hloop.
  destruct Hloop as (Hcfg & Hok & Hout). split; [exact Hcfg|]. split; [exact Hok|].
  destruct r as [out|]; [|exact I].
  destruct Hout as (new & -> & Hlen & Hall). cbn. auto.
Qed.

Lemma new_engine_inv operators_file strategy_file e :
  new_engine operators_file strategy_file = Ok e ->
  mutation_history e = [] /\ max_mutation_history_size e = 1000%nat /\
  max_retries e = 5%nat /\
  _load_operators operators_file = Ok (operators e) /\
  _load_strategy (operators e) strategy_file = Ok (rules e).
Proof.
  unfold new_engine.
  destruct (_load_operators operators_file) as [ops|x] eqn:Hops; cbn; [|discriminate].
  destruct (_load_strategy ops strategy_file) as [rs|x] eqn:Hrs; cbn; [|discriminate].
  intros [= <-]. cbn. repeat split; assumption || reflexivity.
Qed.

Lemma after_mutates_inv e0 e :
  after_mutates e0 e -> same_config e0 e /\ (history_ok e0 -> history_ok e).
Proof.
  induction 1 as [|e data ctx n w r e' w' _ [IHc IHh] Hcall].
  - split; [apply same_config_refl|auto].
  - apply mutate_inv in Hcall. destruct Hcall as (Hcfg & Hok & _).
    split; [eapply same_config_trans; eassumption|auto].
Qed.

(** C7. After any run of [mutate] calls on an engine that [__init__]
    built, the mutation history holds at most 1000 entries, its bound, and
    each entry is the 16-octet MD5 digest of the encoding of a string that
    a loaded operator returned. *)
Theorem history_bounded_by_max_size operators_file strategy_file e0 e :
  new_engine operators_file strategy_file = Ok e0 ->
  after_mutates e0 e ->
  max_mutation_history_size e = 1000%nat /\
  (List.length (mutation_history e) <= max_mutation_history_size e)%nat /\
  Forall (digest_entry e) (mutation_history e).
Proof.
  intros Hnew Hrun.
  apply new_engine_inv in Hnew. destruct Hnew as (Hh & Hmax & _).
  apply after_mutates_inv in Hrun. destruct Hrun as ((_ & _ & Hmax' & _) & Hok).
  destruct Hok as (Hlen & _ & Hall).
  { repeat split; [rewrite Hh, Hmax; cbn; lia|rewrite Hh; constructor..]. }
  split; [congruence|]. split; [lia|exact Hall].
Qed.

(** C10. Latin-1 decoding followed by latin-1 encoding gives the octets
    back; every pair that [mutate] emits carries the latin-1 encoding of
    the string a loaded operator returned for the latin-1 decoding of the
    input; so when the operators return their argument unchanged, every
    emitted octet string equals the input. *)
Theorem latin1_round_trip_through_mutate :
  (forall b : bytes, Latin1.encode (Latin1.decode b) = Ok b) /\
  (forall e data ctx n w out e' w',
      mutate e data ctx n w = (Ok out, e', w') ->
      forall m name, (m, name) ∈ out ->
      exists f w0 w1 s,
        operators e !! name = Some f /\
        f (Latin1.decode data) ctx w0 = (OpReturn s, w1) /\ Latin1.encode s = Ok m) /\
  (forall e data ctx n w out e' w',
      (forall name f, operators e !! name = Some f ->
                      forall s c w0, (f s c w0).1 = OpReturn s) ->
      mutate e data ctx n w = (Ok out, e', w') ->
      forall m name, (m, name) ∈ out -> m = data).
Proof.
  assert (Hemit : forall e data ctx n w out e' w',
             mutate e data ctx n w = (Ok out, e', w') ->
             forall m name, (m, name) ∈ out ->
             exists f w0 w1 s,
               operators e !! name = Some f /\
               f (Latin1.decode data) ctx w0 = (OpReturn s, w1) /\ Latin1.encode s = Ok m).
  { intros e data ctx n w out e' w' Hcall m name Hin.
    apply mutate_inv in Hcall. destruct Hcall as (_ & _ & _ & Hall).
    rewrite Forall_forall in Hall. destruct (Hall _ Hin) as (f & Hf & w0 & w1 & s & Hs & Hm).
    exists f, w0, w1, s. auto. }
  split; [exact latin1_encode_decode|]. split; [exact Hemit|].
  intros e data ctx n w out e' w' Hid Hcall m name Hin.
  destruct (Hemit _ _ _ _ _ _ _ _ Hcall _ _ Hin) as (f & w0 & w1 & s & Hf & Hs & Hm).
  specialize (Hid _ _ Hf (Latin1.decode data) ctx w0). rewrite Hs in Hid. cbn in Hid.
  injection Hid as ->. rewrite latin1_encode_decode in Hm. congruence.
Qed.





End EngineFacts.

(** *** Loading the strategy and selecting a rule *)

Section StrategyFacts.
Context {W : Type} `{!World W} `{!Utils}.

Implicit Types (e : engine W) (ops : gmap string (operator W)).

Lemma validate_entry_ok ops op_entry :
  validate_entry ops op_entry = Ok tt <-> valid_entry ops op_entry.
Proof.
  split.
  - destruct op_entry as [| | | | |[|op_name [|weight [|? ?]]]|]; cbn; try discriminate.
    destruct op_name as [| | | |name| |]; try discriminate.
    case_bool_decide as Hin; [|discriminate].
    destruct (weight_ok weight) eqn:Hw; [|discriminate].
    intros _. exists name, weight. auto.
  - intros (name & weight & -> & Hin & Hw). cbn.
    rewrite bool_decide_eq_true_2 by exact Hin. rewrite Hw. reflexivity.
Qed.

Lemma validate_entries_ok ops entries :
  validate_entries ops entries = Ok tt <-> Forall (valid_entry ops) entries.
Proof.
  induction entries as [|op_entry rest IH]; cbn.
  - split; [constructor|reflexivity].
  - rewrite Forall_cons, <- IH, <- validate_entry_ok.
    destruct (validate_entry ops op_entry) as [[]|x]; cbn; intuition discriminate.
Qed.

Lemma validate_rule_ok ops rule :
  validate_rule ops rule = Ok tt <-> valid_rule ops rule.
Proof.
  split.
  - unfold validate_rule.
    destruct rule as [| | | |s|l|kv]; cbn; try discriminate.
    + destruct (contains "operators" s); cbn; discriminate.
    + destruct (existsb (is_str "operators") l); cbn; discriminate.
    + case_bool_decide as Hin; cbn; [|discriminate].
      destruct (assoc "operators" kv) as [operators|] eqn:Hops; cbn; [|discriminate].
      destruct operators as [| | | | |entries|]; try discriminate.
      intros Hv. exists kv, entries. rewrite <- validate_entries_ok. auto.
  - intros (kv & entries & -> & Hops & Hall). unfold validate_rule. cbn.
    rewrite Hops. rewrite bool_decide_eq_true_2 by eauto. cbn.
    apply validate_entries_ok. exact Hall.
Qed.

Lemma validate_rules_ok ops rs :
  validate_rules ops rs = Ok tt <-> Forall (valid_rule ops) rs.
Proof.
  induction rs as [|rule rest IH]; cbn.
  - split; [constructor|reflexivity].
  - rewrite Forall_cons, <- IH, <- validate_rule_ok.
    destruct (validate_rule ops rule) as [[]|x]; cbn; intuition discriminate.
Qed.

(** [_load_strategy] returns exactly when the document is a dict whose
    ['rules'] (the empty list when absent) can be iterated and holds valid
    rules only. A valid rule may have an empty list of operators. *)
Lemma load_strategy_ok ops data rules :
  _load_strategy ops (Some data) = Ok rules <->
  exists kv rs,
    data = JObj kv /\ rules = default (JList []) (assoc "rules" kv) /\
    py_iter rules = Ok rs /\ Forall (valid_rule ops) rs.
Proof.
  unfold _load_strategy, py_get. split.
  - destruct data as [| | | | | |kv]; cbn; try discriminate.
    destruct (py_iter (default (JList []) (assoc "rules" kv))) as [rs|x] eqn:Hrs;
      cbn; [|discriminate].
    destruct (validate_rules ops rs) as [[]|x] eqn:Hv; cbn; [|discriminate].
    intros [= <-]. exists kv, rs. rewrite <- validate_rules_ok. auto.
  - intros (kv & rs & -> & -> & Hrs & Hall). cbn. rewrite Hrs. cbn.
    apply validate_rules_ok in Hall. rewrite Hall. reflexivity.
Qed.

Lemma first_match_find rs ctx :
  Forall (fun rule => exists kv, rule = JObj kv) rs ->
  first_match rs ctx = Ok (List.find (rule_matches ctx) rs).
Proof.
  induction 1 as [|rule rest [kv ->] _ IH]; cbn; [reflexivity|].
  destruct (assoc "condition" kv) as [c|]; [|reflexivity].
  destruct c; try reflexivity;
    destruct (eval_predicate_expression _ ctx); auto.
Qed.

(** Rules after the first match are not looked at. *)
Lemma first_match_app rs1 rs2 ctx rule :
  first_match rs1 ctx = Ok (Some rule) ->
  first_match (rs1 ++ rs2) ctx = Ok (Some rule).
Proof.
  induction rs1 as [|r rest IH]; cbn; [discriminate|].
  destruct (py_get "condition" r) as [condition|x]; cbn; [|discriminate].
  destruct condition as [c|]; [|auto].
  destruct c; auto; destruct (eval_predicate_expression _ ctx); auto.
Qed.

Lemma mutate_loop_no_rule n e data ctx w acc :
  select_rule e ctx = Ok None ->
  mutate_loop (S n) e data ctx w acc
  = (Raise (ValueError "No matching rule for mutation context"), e, w).
Proof. intros Hsel. cbn [mutate_loop]. unfold mutate_once. rewrite Hsel. reflexivity. Qed.

(** C5, as the code has it. On an engine that [__init__] built,
    [select_rule] returns the first rule, in the order of the document,
    whose condition is absent, null or true over the context, and [None]
    when there is none; a [mutate] call that asks for at least one
    mutation, on an engine with operators and rules, then raises the
    no-matching-rule error; a [mutate] call that asks for no mutation, or
    for a negative number of them, on such an engine returns the empty
    list and leaves the engine and the interpreter as they were, whatever
    the rules hold: no rule is selected; and when the first matching rule
    lies in a prefix of the rules, inserting a rule after that prefix
    leaves the selection as it is. *)
Theorem select_rule_first_match :
  (forall operators_file strategy_file e ctx,
      new_engine operators_file strategy_file = Ok e ->
      exists rs, py_iter (rules e) = Ok rs /\
                 select_rule e ctx = Ok (List.find (rule_matches ctx) rs)) /\
  (forall e data ctx n w,
      select_rule e ctx = Ok None ->
      size (operators e) <> 0%nat -> truthy (rules e) = true -> 0 < n ->
      mutate e data ctx n w
      = (Raise (ValueError "No matching rule for mutation context"), e, w)) /\
  (forall e data ctx n w,
      size (operators e) <> 0%nat -> truthy (rules e) = true -> n <= 0 ->
      mutate e data ctx n w = (Ok [], e, w)) /\
  (forall e e' rs1 rs2 new ctx rule,
      rules e = JList (rs1 ++ rs2) -> rules e' = JList (rs1 ++ new :: rs2) ->
      first_match rs1 ctx = Ok (Some rule) ->
      select_rule e ctx = Ok (Some rule) /\ select_rule e' ctx = Ok (Some rule)).
Proof.
  split; [|split; [|split]].
  - intros operators_file strategy_file e ctx Hnew.
    apply new_engine_inv in Hnew. destruct Hnew as (_ & _ & _ & _ & Hload).
    destruct strategy_file as [data|]; [|discriminate].
    apply load_strategy_ok in Hload. destruct Hload as (kv & rs & _ & _ & Hrs & Hall).
    exists rs. split; [exact Hrs|]. unfold select_rule. rewrite Hrs. cbn.
    apply first_match_find. eapply Forall_impl; [exact Hall|].
    intros rule (kv' & entries & -> & _). eauto.
  - intros e data ctx n w Hsel Hops Hrules Hn. unfold mutate.
    apply Nat.eqb_neq in Hops. rewrite Hops, Hrules. cbn [negb].
    destruct (Z.to_nat n) as [|k] eqn:Hk; [lia|].
    apply mutate_loop_no_rule. exact Hsel.
  - intros e data ctx n w Hops Hrules Hn. unfold mutate.
    apply Nat.eqb_neq in Hops. rewrite Hops, Hrules. cbn [negb].
    replace (Z.to_nat n) with 0%nat by lia. reflexivity.
  - intros e e' rs1 rs2 new ctx rule He He' Hfirst. unfold select_rule.
    rewrite He, He'. cbn. split; apply first_match_app; exact Hfirst.
Qed.

(** C4, on the code. A strategy whose only rule has an empty list of
    operators is loaded without an error, whatever the operators module
    holds. *)
Theorem load_accepts_empty_operators (attrs : list (string * module_attr W)) :
  exists e,
    new_engine (Some attrs) (Some (JObj [("rules", JList [JObj [("operators", JList [])]])]))
    = Ok e /\
    rules e = JList [JObj [("operators", JList [])]].
Proof. eexists. split; reflexivity. Qed.

End StrategyFacts.

(** *** The engine on the scenarios *)

Section EngineScenarios.
Import Scenario.

Lemma same_engine_built :
  new_engine (Some [("always_same", Callable 2 always_same)])%string
    (Some (strategy [rule JNull [("always_same", 1)]]))%string = Ok same_engine.
Proof. vm_compute. reflexivity. Qed.

Lemma unchanged_engine_built :
  new_engine (Some [("unchanged", Callable 2 unchanged)])%string
    (Some (strategy [rule JNull [("unchanged", 1)]]))%string = Ok unchanged_engine.
Proof. vm_compute. reflexivity. Qed.


Lemma same_engine_used_after : after_mutates same_engine same_engine_used.
Proof.
  apply (after_call _ same_engine b_x ∅ 1 start
           (mutate same_engine b_x ∅ 1 start).1.1 same_engine_used
           (mutate same_engine b_x ∅ 1 start).2); [apply after_none|].
  unfold same_engine_used, b_x.
  destruct (mutate same_engine [x78] ∅ 1 start) as [[r e] w]. reflexivity.
Qed.

Lemma history_bounded_by_max_size_witness :
  max_mutation_history_size same_engine_used = 1000%nat /\
  (List.length (mutation_history same_engine_used)
   <= max_mutation_history_size same_engine_used)%nat /\
  Forall (digest_entry same_engine_used) (mutation_history same_engine_used).
Proof.
  exact (history_bounded_by_max_size _ _ _ _ same_engine_built same_engine_used_after).
Defined.




Lemma unchanged_engine_operators :
  forall name f, operators unchanged_engine !! name = Some f ->
  forall s c w0, (f s c w0).1 = OpReturn s.
Proof.
  intros name f Hf s c w0.
  assert (Hops : operators unchanged_engine = {["unchanged"%string := unchanged]})
    by (vm_compute; reflexivity).
  rewrite Hops in Hf. apply lookup_singleton_Some in Hf. destruct Hf as [_ <-].
  reflexivity.
Qed.

Lemma latin1_round_trip_through_mutate_witness :
  (mutate unchanged_engine [x00; xff; x80] ∅ 1 start).1.1
  = Ok [([x00; xff; x80], "unchanged"%string)] /\
  [x00; xff; x80] = [x00; xff; x80].
Proof.
  split; [vm_compute; reflexivity|].
  refine (proj2 (proj2 latin1_round_trip_through_mutate)
            unchanged_engine [x00; xff; x80] ∅ 1 start
            [([x00; xff; x80], "unchanged"%string)] _ _
            unchanged_engine_operators _ [x00; xff; x80] "unchanged"%string _).
  - vm_compute. reflexivity.
  - apply list_elem_of_here.
Defined.

(** operators.py under the engine: [_load_operators] keeps
    [insert_random_bytes] and, for its three parameters, [wraps]; three
    mutations of [b"x"] with the draws 3, 3, 258 and 0 for the random
    bytes give three distinct outputs. *)
Example operators_py_engine :
  let e := engine_of operators_py (strategy [rule JNull [("insert_random_bytes", 1)]])%string in
  List.map (fun name => bool_decide (is_Some (operators e !! name)))
    ["insert_random_bytes"; "wraps"; "ensure_unique"; "MUTATION_HISTORY"]%string
  = [true; true; false; false] /\
  (mutate e b_x ∅ 3 (Script [0; 3; 0; 3; 258; 0; 0]%N [])).1.1
  = Ok [([x78; x03; x00], "insert_random_bytes"%string);
        ([x78; x02; x01], "insert_random_bytes"%string);
        ([x78; x00; x00], "insert_random_bytes"%string)].
Proof. split; vm_compute; reflexivity. Qed.

(** Weights 1 and 3: a draw below a quarter of the range selects the first
    name, any other the second. *)
Example weighted_choice :
  let names := [JStr "A"; JStr "B"] in
  let weights := [JInt 1; JInt 3] in
  (script_choices names weights (Script [2 ^ 51 - 1]%N [])).1 = Ok (JStr "A") /\
  (script_choices names weights (Script [2 ^ 51]%N [])).1 = Ok (JStr "B") /\
  (script_choices names weights (Script [2 ^ 53 - 1]%N [])).1 = Ok (JStr "B") /\
  (script_choices [] [] start).1 = Raise IndexError /\
  (script_choices names [JInt 0; JInt 0] start).1
  = Raise (ValueError "Total of weights must be greater than zero").
Proof. repeat split; vm_compute; reflexivity. Qed.

(** Weights whose sum is beyond the floats, and an int weight that has no
    float. *)
Example weights_beyond_the_floats :
  let names := [JStr "A"; JStr "B"] in
  let huge := JFloat (S754_finite false 5010420900022432 971) in
  (script_choices names [huge; huge] start).1
  = Raise (ValueError "Total of weights must be finite") /\
  (script_choices names [JInt (10 ^ 400); JFloat (S754_zero false)] start).1
  = Raise OverflowError /\
  (script_choices names [JStr "1"; JStr "3"] start).1 = Raise TypeError.
Proof. repeat split; vm_compute; reflexivity. Qed.

(** The condition of scenario 4 as the spec writes it, without blanks. *)
Example condition_without_blanks :
  scenario_eval (JStr "n==0") {["n"%string := VInt 0]} = true /\
  scenario_eval (JStr "n==0") {["n"%string := VInt 1]} = false /\
  scenario_eval (JStr "n == 0") {["n"%string := VInt 0]} = true.
Proof. repeat split; vm_compute; reflexivity. Qed.

(** Scenario 4 of the spec. *)
Example select_rule_scenario :
  select_rule two_rule_engine {["n"%string := VInt 0]} = Ok (Some rule_A) /\
  select_rule two_rule_engine {["n"%string := VInt 1]} = Ok (Some rule_B).
Proof. split; vm_compute; reflexivity. Qed.

(** No rule of the engine matches the context [{n: 1}], and
    [mutate(b"x", {n: 1}, 0)] returns the empty list without an error. *)
Lemma mutate_zero_ignores_missing_rule :
  select_rule guarded_engine {["n"%string := VInt 1]} = Ok None /\
  mutate guarded_engine b_x {["n"%string := VInt 1]} 0 start = (Ok [], guarded_engine, start).
Proof. split; vm_compute; reflexivity. Qed.

Lemma select_rule_first_match_witness :
  select_rule guarded_engine {["n"%string := VInt 1]} = Ok None /\
  mutate guarded_engine b_x {["n"%string := VInt 1]} 1 start
  = (Raise (ValueError "No matching rule for mutation context"), guarded_engine, start).
Proof.
  split; [vm_compute; reflexivity|].
  apply (proj1 (proj2 select_rule_first_match)).
  - vm_compute. reflexivity.
  - vm_compute. discriminate.
  - vm_compute. reflexivity.
  - lia.
Defined.

(** The engine that was loaded with a rule without operators cannot
    mutate: [random.choices] raises on the empty population. *)
Example mutate_on_empty_rule :
  new_engine (Some scenario_operators)
    (Some (JObj [("rules", JList [JObj [("operators", JList [])]])]))%string
  = Ok empty_rule_engine /\
  (mutate empty_rule_engine b_x ∅ 1 start).1.1 = Raise IndexError.
Proof. split; vm_compute; reflexivity. Qed.

End EngineScenarios.

(** ** The state projector *)

Section ProjectorFacts.
Context `{!Utils} `{!Builtins}.

Implicit Types (samples : gmap string (list pyval)) (latest result : gmap string pyval).

(** *** The state tuple *)

Lemma state_tuple_concat (spec : list spec_item) (state_dict : gmap string pyval) :
  _dict_to_state_tuple spec state_dict = List.concat (List.map (tuple_item state_dict) spec).
Proof.
  unfold _dict_to_state_tuple.
  enough (Hgen : forall acc,
             List.fold_left (fun computed item => computed ++ tuple_item state_dict item) spec acc
             = acc ++ List.concat (List.map (tuple_item state_dict) spec))
    by apply (Hgen []).
  induction spec as [|item rest IH]; intros acc; cbn.
  - now rewrite app_nil_r.
  - rewrite IH, app_assoc. reflexivity.
Qed.

(** An item whose display key is not in the dict adds nothing. *)
Lemma tuple_item_absent (state_dict : gmap string pyval) (item : spec_item) key :
  display_key item = Some key -> state_dict !! key = None ->
  tuple_item state_dict item = [].
Proof.
  destruct item; cbn; intros [= ->] Hkey; unfold labelled; now rewrite Hkey.
Qed.

(** The label of each kind of item whose display key is in the dict: the
    key with the suffix of its kind, and the bare expression for a
    predicate. *)
Lemma tuple_item_present (state_dict : gmap string pyval) (item : spec_item) key v :
  display_key item = Some key -> state_dict !! key = Some v ->
  tuple_item state_dict item =
  [VStr match item with
        | ItemValue _ => key +:+ " (value)"
        | ItemSum _ => key +:+ " (sum)"
        | ItemPredicate _ => key
        | ItemCounter _ => key +:+ " (count)"
        | ItemSet _ => key +:+ " (set)"
        | ItemOther _ => key
        end; v].
Proof.
  destruct item; cbn; intros [= ->] Hkey; unfold labelled; now rewrite Hkey.
Qed.

(** *** The state dict *)

Lemma compute_item_other samples latest result item d key :
  compute_item samples latest result item = Ok d ->
  display_key item <> Some key -> d !! key = result !! key.
Proof.
  destruct item as [name|name|expr|expr|name|ty]; cbn.
  - destruct (latest !! name); intros [= <-] Hk; [|reflexivity].
    apply lookup_insert_ne. congruence.
  - destruct (sum_values 0 _); cbn; [|discriminate].
    intros [= <-] Hk. apply lookup_insert_ne. congruence.
  - intros [= <-] Hk. apply lookup_insert_ne. congruence.
  - intros [= <-] Hk. apply lookup_insert_ne. congruence.
  - destruct (unique_canonical _) as [u|]; cbn; [|discriminate].
    destruct (py_sorted u); cbn; [|discriminate].
    intros [= <-] Hk. apply lookup_insert_ne. congruence.
  - intros [= <-] _. reflexivity.
Qed.

Lemma compute_item_value_absent samples latest result name :
  latest !! name = None ->
  compute_item samples latest result (ItemValue name) = Ok result.
Proof. intros Hl. cbn. now rewrite Hl. Qed.

Lemma compute_item_sum_absent samples latest result name :
  samples !! name = None ->
  compute_item samples latest result (ItemSum name) = Ok (<[name := VInt 0]> result).
Proof. intros Hs. cbn. now rewrite Hs. Qed.

Lemma compute_items_value_only samples latest result spec d name :
  (forall item, item ∈ spec -> display_key item = Some name -> item = ItemValue name) ->
  latest !! name = None ->
  compute_items samples latest result spec = Ok d ->
  d !! name = result !! name.
Proof.
  revert result. induction spec as [|item rest IH]; intros result Hspec Hl; cbn.
  - intros [= <-]. reflexivity.
  - destruct (compute_item samples latest result item) as [r1|x] eqn:Hitem; cbn; [|discriminate].
    intros Hrest. rewrite (IH r1); [|intros; apply Hspec; [right|]; assumption|assumption..].
    destruct (decide (display_key item = Some name)) as [Hk|Hk].
    + rewrite (Hspec item (list_elem_of_here _ _) Hk) in Hitem.
      rewrite compute_item_value_absent in Hitem by exact Hl. congruence.
    + eapply compute_item_other; eassumption.
Qed.

Lemma compute_items_sum_zero samples latest result spec d name :
  (forall item, item ∈ spec -> display_key item = Some name ->
                item = ItemValue name \/ item = ItemSum name) ->
  latest !! name = None -> samples !! name = None ->
  result !! name = Some (VInt 0) \/ ItemSum name ∈ spec ->
  compute_items samples latest result spec = Ok d ->
  d !! name = Some (VInt 0).
Proof.
  revert result. induction spec as [|item rest IH]; intros result Hspec Hl Hs Hin; cbn.
  - intros [= <-]. destruct Hin as [Hr|Hin]; [exact Hr|]. inversion Hin.
  - destruct (compute_item samples latest result item) as [r1|x] eqn:Hitem; cbn; [|discriminate].
    apply IH; [intros; apply Hspec; [right|]; assumption|assumption..|].
    destruct (decide (display_key item = Some name)) as [Hk|Hk].
    + destruct (Hspec item (list_elem_of_here _ _) Hk) as [-> | ->].
      * rewrite compute_item_value_absent in Hitem by exact Hl.
        injection Hitem as <-. destruct Hin as [Hr|Hin]; [auto|].
        apply elem_of_cons in Hin. destruct Hin as [Heq|Hin]; [discriminate|auto].
      * rewrite compute_item_sum_absent in Hitem by exact Hs.
        injection Hitem as <-. left. apply lookup_insert_eq.
    + destruct Hin as [Hr|Hin].
      * left. rewrite <- Hr. eapply compute_item_other; eassumption.
      * apply elem_of_cons in Hin. destruct Hin as [<-|Hin]; [|auto].
        cbn in Hk. congruence.
Qed.

(** C3, as the code has it. A value item whose name is absent from the
    latest values writes nothing, and the key stays out of the state dict
    when only value items carry it. A sum item whose name is absent from
    the samples writes its key with the value 0, the sum of no values, and
    the key is in the state dict with that value when only value and sum
    items carry it. *)
Theorem value_omitted_and_sum_zero_when_absent :
  (forall samples latest result name,
      latest !! name = None ->
      compute_item samples latest result (ItemValue name) = Ok result) /\
  (forall samples latest result name,
      samples !! name = None ->
      compute_item samples latest result (ItemSum name) = Ok (<[name := VInt 0]> result)) /\
  (forall spec samples latest verbose d name,
      (forall item, item ∈ spec -> display_key item = Some name -> item = ItemValue name) ->
      latest !! name = None ->
      _compute_state_dict spec samples latest verbose = Ok d ->
      d !! name = None) /\
  (forall spec samples latest verbose d name,
      (forall item, item ∈ spec -> display_key item = Some name ->
                    item = ItemValue name \/ item = ItemSum name) ->
      ItemSum name ∈ spec ->
      latest !! name = None -> samples !! name = None ->
      _compute_state_dict spec samples latest verbose = Ok d ->
      d !! name = Some (VInt 0)).
Proof.
  split; [exact compute_item_value_absent|]. split; [exact compute_item_sum_absent|].
  split.
  - intros spec samples latest verbose d name Hspec Hl Hd.
    unfold _compute_state_dict in Hd.
    erewrite compute_items_value_only by eassumption. apply lookup_empty.
  - intros spec samples latest verbose d name Hspec Hin Hl Hs Hd.
    unfold _compute_state_dict in Hd.
    eapply compute_items_sum_zero; eauto.
Qed.

(** *** The counter *)

Lemma step_values_lookup samples i name :
  step_values samples i !! name = samples !! name ≫= (fun values => values !! i).
Proof.
  unfold step_values.
  set (f := fun (sv : gmap string pyval) (nv : string * list pyval) =>
              match nv.2 !! i with Some v => <[nv.1 := v]> sv | None => sv end).
  assert (Hnone : forall l acc,
             (forall values, (name, values) ∈ l -> values !! i = None) ->
             List.fold_left f l acc !! name = acc !! name).
  { induction l as [|[n vs] l IH]; intros acc Hl; cbn; [reflexivity|].
    rewrite IH by (intros; apply Hl; right; assumption).
    unfold f at 1; cbn. destruct (vs !! i) as [v|] eqn:Hv; [|reflexivity].
    apply lookup_insert_ne. intros ->.
    rewrite (Hl vs) in Hv by left. discriminate. }
  assert (Hsome : forall l acc values,
             NoDup l.*1 -> (name, values) ∈ l ->
             List.fold_left f l acc !! name
             = match values !! i with Some v => Some v | None => acc !! name end).
  { induction l as [|[n vs] l IH]; intros acc values Hnd Hin; [inversion Hin|].
    cbn in Hnd. apply NoDup_cons in Hnd. destruct Hnd as [Hn Hnd].
    apply elem_of_cons in Hin. destruct Hin as [[= <- <-]|Hin]; cbn.
    - rewrite Hnone.
      + unfold f; cbn. destruct (values !! i); [apply lookup_insert_eq|reflexivity].
      + intros values' Hin'. exfalso. apply Hn.
        apply list_elem_of_fmap. exists (name, values'). auto.
    - rewrite (IH _ values) by assumption.
      destruct (values !! i); [reflexivity|].
      unfold f; cbn. destruct (vs !! i); [|reflexivity].
      apply lookup_insert_ne. intros ->. apply Hn.
      apply list_elem_of_fmap. exists (name, values). auto. }
  destruct (samples !! name) as [values|] eqn:Hs; cbn.
  - rewrite (Hsome _ _ values); [|apply NoDup_fst_map_to_list|].
    + destruct (values !! i); [reflexivity|apply lookup_empty].
    + apply elem_of_map_to_list. exact Hs.
  - rewrite Hnone; [apply lookup_empty|].
    intros values Hin. apply elem_of_map_to_list in Hin. congruence.
Qed.

Lemma max_length_fold (l : list (string * list pyval)) (m : nat) :
  let r := List.fold_left (fun m nv => Nat.max m (List.length nv.2)) l m in
  (m <= r)%nat /\
  (forall nv, nv ∈ l -> (List.length nv.2 <= r)%nat) /\
  (r = m \/ exists nv, nv ∈ l /\ r = List.length nv.2).
Proof.
  revert m. induction l as [|nv0 l IH]; intros m; cbn.
  - split; [lia|]. split; [intros nv Hin; inversion Hin|auto].
  - destruct (IH (Nat.max m (List.length nv0.2))) as (Hle & Hall & Hex).
    split; [lia|]. split.
    + intros nv Hin. apply elem_of_cons in Hin.
      destruct Hin as [->|Hin]; [lia|auto].
    + destruct Hex as [Heq|(nv & Hin & Heq)].
      * destruct (Nat.max_spec m (List.length nv0.2)) as [[_ Hm]|[_ Hm]].
        -- right. exists nv0. split; [left|]. cbn in Heq |- *. lia.
        -- left. cbn in Heq |- *. lia.
      * right. exists nv. split; [right; exact Hin|exact Heq].
Qed.

(** [max_length] is the largest length of a sample list, 0 without any. *)
Lemma max_length_spec samples :
  (forall name values, samples !! name = Some values ->
                       (List.length values <= max_length samples)%nat) /\
  (max_length samples = 0%nat \/
   exists name values, samples !! name = Some values /\
                       max_length samples = List.length values).
Proof.
  unfold max_length.
  destruct (max_length_fold (map_to_list samples) 0) as (_ & Hall & Hex). split.
  - intros name values Hs.
    apply (Hall (name, values)). apply elem_of_map_to_list. exact Hs.
  - destruct Hex as [Heq|([name values] & Hin & Heq)]; [left; exact Heq|].
    right. exists name, values. split; [|exact Heq].
    apply elem_of_map_to_list. exact Hin.
Qed.

Lemma count_steps_filter expr samples steps :
  count_steps expr samples steps
  = Z.of_nat (List.length
      (List.filter (fun i => eval_predicate_expression (JStr expr) (step_values samples i))
         steps)).
Proof.
  unfold count_steps.
  enough (Hgen : forall acc,
             List.fold_left
               (fun count i =>
                  if eval_predicate_expression (JStr expr) (step_values samples i)
                  then count + 1 else count) steps acc
             = acc + Z.of_nat (List.length
                 (List.filter
                    (fun i => eval_predicate_expression (JStr expr) (step_values samples i))
                    steps)))
    by (rewrite Hgen; lia).
  induction steps as [|i rest IH]; intros acc; cbn; [lia|].
  rewrite IH. destruct (eval_predicate_expression _ _); cbn [List.length]; lia.
Qed.

Lemma compute_items_app samples latest result spec1 spec2 :
  compute_items samples latest result (spec1 ++ spec2)
  = compute_items samples latest result spec1 ≫= fun r =>
    compute_items samples latest r spec2.
Proof.
  revert result. induction spec1 as [|item rest IH]; intros result; cbn; [reflexivity|].
  destruct (compute_item samples latest result item) as [r1|x]; cbn; [apply IH|reflexivity].
Qed.

Lemma compute_item_counter expr samples latest result :
  compute_item samples latest result (ItemCounter expr)
  = Ok (<[expr := VInt (true_steps expr samples)]> result).
Proof. cbn. rewrite count_steps_filter. reflexivity. Qed.

Lemma compute_items_keep_counter samples latest result spec d expr :
  (forall item, item ∈ spec -> display_key item <> Some expr \/ item = ItemCounter expr) ->
  result !! expr = Some (VInt (true_steps expr samples)) ->
  compute_items samples latest result spec = Ok d ->
  d !! expr = Some (VInt (true_steps expr samples)).
Proof.
  intros Hspec. revert result.
  induction spec as [|item rest IH]; intros result Hr; cbn [compute_items].
  - intros [= <-]. exact Hr.
  - destruct (compute_item samples latest result item) as [r1|x] eqn:Hitem;
      cbn [mbind result_bind Py.bind]; [|discriminate].
    apply IH; [intros; apply Hspec; right; assumption|].
    destruct (Hspec item (list_elem_of_here _ _)) as [Hk| ->].
    + rewrite <- Hr. eapply compute_item_other; eassumption.
    + rewrite compute_item_counter in Hitem. injection Hitem as <-.
      apply lookup_insert_eq.
Qed.

(** C8. The value the counter branch writes for [expr] is the number of
    step indices [i] below the largest sample-list length at which [expr]
    is true over the step environment; the step environment at [i] maps
    exactly the names whose sample list has more than [i] elements, each to
    its element at [i]; and that value is what the state dict holds for
    [expr] when no later item of another kind writes the same key. *)
Theorem counter_counts_true_steps :
  (forall expr samples latest result,
      compute_item samples latest result (ItemCounter expr)
      = Ok (<[expr := VInt (true_steps expr samples)]> result)) /\
  (forall expr samples,
      true_steps expr samples
      = Z.of_nat (List.length
          (List.filter
             (fun i => eval_predicate_expression (JStr expr) (step_values samples i))
             (List.seq 0 (max_length samples))))) /\
  (forall samples i name,
      step_values samples i !! name = samples !! name ≫= (fun values => values !! i)) /\
  (forall samples,
      (forall name values, samples !! name = Some values ->
                           (List.length values <= max_length samples)%nat) /\
      (max_length samples = 0%nat \/
       exists name values, samples !! name = Some values /\
                           max_length samples = List.length values)) /\
  (forall spec1 spec2 samples latest verbose d expr,
      (forall item, item ∈ spec2 ->
                    display_key item <> Some expr \/ item = ItemCounter expr) ->
      _compute_state_dict (spec1 ++ ItemCounter expr :: spec2) samples latest verbose = Ok d ->
      d !! expr = Some (VInt (true_steps expr samples))).
Proof.
  split; [exact compute_item_counter|]. split; [reflexivity|].
  split; [exact step_values_lookup|]. split; [exact max_length_spec|].
  intros spec1 spec2 samples latest verbose d expr Hspec.
  unfold _compute_state_dict. rewrite compute_items_app.
  destruct (compute_items samples latest ∅ spec1) as [r1|x]; cbn [mbind result_bind Py.bind];
    [|discriminate].
  cbn [compute_items]. rewrite compute_item_counter. cbn [mbind result_bind Py.bind].
  apply compute_items_keep_counter; [exact Hspec|apply lookup_insert_eq].
Qed.

End ProjectorFacts.

(** *** The projector on the scenarios *)

Section ProjectorScenarios.
Import Scenario.
Import (hints) CPython.

(** C2, on the code. For a predicate item whose expression is in the state
    dict, the label appended to the tuple is the bare expression, without
    the [" (<kind>)"] suffix that the counter branch (like the value, sum
    and set branches) appends. *)
Theorem predicate_label_has_no_kind :
  _dict_to_state_tuple [ItemPredicate "x > 3"] {["x > 3"%string := VInt 1]}
  = [VStr "x > 3"; VInt 1] /\
  _dict_to_state_tuple [ItemCounter "x > 3"] {["x > 3"%string := VInt 1]}
  = [VStr "x > 3 (count)"; VInt 1].
Proof. split; vm_compute; reflexivity. Qed.

(** A sum item whose name has no samples: the key is in the state dict,
    with the value 0. The mutation context of a run that printed nothing
    holds it. *)
Lemma sum_of_absent_name_is_present :
  _compute_state_dict [ItemSum "x"] ∅ ∅ false = Ok {["x"%string := VInt 0]} /\
  Harness.observe [("x", Some "int")]%string [] [ItemSum "x"] []
  = Ok ([], {["x"%string := VInt 0]}).
Proof. split; vm_compute; reflexivity. Qed.

Lemma value_omitted_and_sum_zero_when_absent_witness :
  _compute_state_dict [ItemValue "x"; ItemSum "y"] ∅ ∅ false = Ok {["y"%string := VInt 0]} /\
  ({["y"%string := VInt 0]} : gmap string pyval) !! "x"%string = None /\
  ({["y"%string := VInt 0]} : gmap string pyval) !! "y"%string = Some (VInt 0).
Proof.
  assert (Hrun : _compute_state_dict [ItemValue "x"; ItemSum "y"] ∅ ∅ false
                 = Ok {["y"%string := VInt 0]}) by (vm_compute; reflexivity).
  split; [exact Hrun|]. split.
  - refine (proj1 (proj2 (proj2 value_omitted_and_sum_zero_when_absent))
              _ ∅ ∅ false _ "x"%string _ _ Hrun); [|apply lookup_empty].
    intros item Hin Hk.
    apply elem_of_cons in Hin. destruct Hin as [->|Hin]; [reflexivity|].
    apply elem_of_cons in Hin. destruct Hin as [->|Hin]; [discriminate|].
    inversion Hin.
  - refine (proj2 (proj2 (proj2 value_omitted_and_sum_zero_when_absent))
              _ ∅ ∅ false _ "y"%string _ _ _ _ Hrun);
      [|right; left|apply lookup_empty..].
    intros item Hin Hk.
    apply elem_of_cons in Hin. destruct Hin as [->|Hin]; [discriminate|].
    apply elem_of_cons in Hin. destruct Hin as [->|Hin]; [right; reflexivity|].
    inversion Hin.
Defined.

(** Scenario 2 of the spec: ["a and b"] holds at the last of the three
    steps only. *)
Lemma counter_counts_true_steps_witness :
  List.map (step_values samples_ab) (List.seq 0 (max_length samples_ab))
  = [ {["a" := VInt 1; "b" := VInt 0]}; {["a" := VInt 0; "b" := VInt 0]};
      {["a" := VInt 1; "b" := VInt 1]} ]%string /\
  compute_item samples_ab (Harness.latest_of samples_ab) ∅ (ItemCounter "a and b")
  = Ok {["a and b"%string := VInt 1]} /\
  (List.length [VInt 1; VInt 0; VInt 1] <= max_length samples_ab)%nat.
Proof.
  split; [vm_compute; reflexivity|]. split.
  - rewrite (proj1 counter_counts_true_steps). vm_compute. reflexivity.
  - apply (proj1 (proj1 (proj2 (proj2 (proj2 counter_counts_true_steps))) samples_ab)
             "a"%string).
    vm_compute. reflexivity.
Defined.

Example counter_scenario_tuple :
  Harness.observe [("a", Some "int"); ("b", Some "int")]%string
    [ItemCounter "a and b"] []
    (list_byte_of_string "a: 1 b: 0
a: 0 b: 0
a: 1 b: 1
")
  = Ok ([VStr "a and b (count)"; VInt 1], ∅).
Proof. vm_compute. reflexivity. Qed.

(** The round trip of section 8: ["x: 42"] declared [int]. *)
Example parse_project_canonicalize :
  Harness.parse_stdout [("x", Some "int")]%string (list_byte_of_string "x: 42")
  = Ok {["x"%string := [VInt 42]]} /\
  Harness.observe [("x", Some "int")]%string [ItemValue "x"] [ItemValue "x"]
    (list_byte_of_string "x: 42")
  = Ok ([VStr "x (value)"; VInt 42], {["x"%string := VInt 42]}).
Proof. split; vm_compute; reflexivity. Qed.

(** Observations declared [float]: parsed to the nearest binary64 number,
    and printed with the shortest digits in a set. *)
Example float_observations :
  Harness.observe [("t", Some "float")]%string [ItemSet "t"] [ItemValue "t"]
    (list_byte_of_string "t: 1e22
t: 0.1
t: .1")
  = Ok ([VStr "t (set)"; VTuple [VStr "0.1"; VStr "1e+22"]],
        {["t"%string := VFloat (S754_finite false 7205759403792794 (-56))]}).
Proof. vm_compute. reflexivity. Qed.

(** Scenario 1 of the spec: the set of [3, 1, 2, 1]. *)
Example set_scenario :
  _compute_state_dict [ItemSet "e"] {["e"%string := [VInt 3; VInt 1; VInt 2; VInt 1]]} ∅ false
  = Ok {["e"%string := VTuple [VInt 1; VInt 2; VInt 3]]}.
Proof. vm_compute. reflexivity. Qed.

End ProjectorScenarios.

(** ** Parsing the observations *)

Section HarnessFacts.
Context `{!Utils} `{!Builtins}.
Import Harness.

(** Case analysis on the range tests of a character code. *)
Ltac code_cases :=
  repeat match goal with
         | |- context [(?a <=? ?b)%N] => destruct (N.leb_spec a b)
         | |- context [(?a =? ?b)%N] => destruct (N.eqb_spec a b)
         end;
  cbn; try reflexivity; try discriminate; try lia.

Lemma decimal_is_digit c : isdecimal_char c = true -> isdigit_char c = true.
Proof. unfold isdecimal_char, isdigit_char. intros ->. reflexivity. Qed.

Lemma digit_not_space c : isdigit_char c = true -> isnumspace c = false.
Proof. unfold isdigit_char, isnumspace. generalize (code c). intros n. code_cases. Qed.

Lemma rstrip_id blank s :
  forall_chars (fun c => negb (blank c)) s = true -> rstrip blank s = s.
Proof.
  induction s as [|c s IH]; cbn; [reflexivity|].
  intros [Hc Hs]%andb_true_iff. rewrite IH by exact Hs.
  apply negb_true_iff in Hc. rewrite Hc. destruct s; reflexivity.
Qed.

Lemma forall_chars_impl (p q : ascii -> bool) s :
  (forall c, p c = true -> q c = true) ->
  forall_chars p s = true -> forall_chars q s = true.
Proof.
  intros Hpq. induction s as [|c s IH]; cbn; [reflexivity|].
  intros [Hc Hs]%andb_true_iff. rewrite (Hpq c Hc), IH by exact Hs. reflexivity.
Qed.

(** A string of [isdigit] characters has nothing to strip. *)
Lemma strip_digits s : forall_chars isdigit_char s = true -> strip_number s = s.
Proof.
  intros Hs. unfold strip_number.
  assert (Hl : lstrip isnumspace s = s).
  { destruct s as [|c s]; cbn; [reflexivity|].
    cbn in Hs. apply andb_true_iff in Hs. destruct Hs as [Hc _].
    now rewrite (digit_not_space c Hc). }
  rewrite Hl. apply rstrip_id.
  eapply forall_chars_impl; [|exact Hs].
  intros c Hc. now rewrite (digit_not_space c Hc).
Qed.

Lemma digits_value_decimal s acc prev :
  forall_chars isdecimal_char s = true -> s <> EmptyString \/ prev = true ->
  digits_value acc prev s = Some (decimal_fold acc s).
Proof.
  revert acc prev. induction s as [|c s IH]; intros acc prev Hs Hne; cbn.
  - destruct Hne as [Hne| ->]; [congruence|reflexivity].
  - cbn in Hs. apply andb_true_iff in Hs. destruct Hs as [Hc Hs].
    rewrite Hc. apply IH; auto.
Qed.

Lemma digits_value_superscript s acc prev :
  forall_chars isdigit_char s = true -> forall_chars isdecimal_char s = false ->
  digits_value acc prev s = None.
Proof.
  revert acc prev. induction s as [|c s IH]; intros acc prev Hs Hnd; cbn in *.
  - discriminate.
  - apply andb_true_iff in Hs. destruct Hs as [Hc Hs].
    destruct (isdecimal_char c) eqn:Hd; cbn in Hnd.
    + apply IH; assumption.
    + assert (H95 : (code c =? 95)%N = false).
      { revert Hc. unfold isdigit_char. generalize (code c). intros n. code_cases. }
      rewrite H95. reflexivity.
Qed.

Lemma count_decimal s :
  forall_chars isdecimal_char s = true -> count_chars isdecimal_char s = String.length s.
Proof.
  induction s as [|c s IH]; cbn; [reflexivity|].
  intros [Hc Hs]%andb_true_iff. rewrite Hc, IH by exact Hs. reflexivity.
Qed.

(** The sign test of [int] on a string that starts with a digit. *)
Lemma digit_head_unsigned c :
  isdigit_char c = true -> (code c =? 45)%N = false /\ (code c =? 43)%N = false.
Proof. unfold isdigit_char. generalize (code c). intros n. code_cases. Qed.

Lemma py_int_decimal s :
  isdigit s = true -> forall_chars isdecimal_char s = true ->
  (int_max_str_digits = 0 \/ String.length s <= int_max_str_digits)%nat ->
  py_int s = Ok (decimal_value s).
Proof.
  unfold isdigit. intros [Hne Hdig]%andb_true_iff Hdec Hlim.
  unfold py_int. rewrite (strip_digits s Hdig).
  destruct s as [|c s]; [discriminate|].
  cbn in Hdig. apply andb_true_iff in Hdig. destruct Hdig as [Hc _].
  destruct (digit_head_unsigned c Hc) as [-> ->].
  rewrite digits_value_decimal by (auto; left; discriminate).
  rewrite count_decimal by exact Hdec.
  replace (negb (int_max_str_digits =? 0)%nat
           && (int_max_str_digits <? String.length (String c s))%nat) with false.
  - reflexivity.
  - symmetry. apply andb_false_iff.
    destruct Hlim as [Hlim|Hlim].
    + left. rewrite Hlim. reflexivity.
    + right. apply Nat.ltb_ge. exact Hlim.
Qed.

Lemma py_int_over_limit s :
  isdigit s = true -> forall_chars isdecimal_char s = true ->
  (int_max_str_digits <> 0 /\ int_max_str_digits < String.length s)%nat ->
  py_int s = Raise (ValueError "Exceeds the limit for integer string conversion").
Proof.
  unfold isdigit. intros [Hne Hdig]%andb_true_iff Hdec [Hz Hlim].
  unfold py_int. rewrite (strip_digits s Hdig).
  destruct s as [|c s]; [discriminate|].
  cbn in Hdig. apply andb_true_iff in Hdig. destruct Hdig as [Hc _].
  destruct (digit_head_unsigned c Hc) as [-> ->].
  rewrite digits_value_decimal by (auto; left; discriminate).
  rewrite count_decimal by exact Hdec.
  apply Nat.eqb_neq in Hz. apply Nat.ltb_lt in Hlim. rewrite Hz, Hlim. reflexivity.
Qed.

Lemma py_int_superscript s :
  isdigit s = true -> forall_chars isdecimal_char s = false ->
  py_int s = Raise (ValueError "invalid literal for int()").
Proof.
  unfold isdigit. intros [Hne Hdig]%andb_true_iff Hnd.
  unfold py_int. rewrite (strip_digits s Hdig).
  destruct s as [|c s]; [discriminate|].
  pose proof Hdig as Hdig'.
  cbn in Hdig'. apply andb_true_iff in Hdig'. destruct Hdig' as [Hc _].
  destruct (digit_head_unsigned c Hc) as [-> ->].
  rewrite digits_value_superscript by assumption. reflexivity.
Qed.

Lemma lower_char_one c : lower_char c = "1"%char -> c = "1"%char.
Proof.
  destruct c as [[] [] [] [] [] [] [] []]; vm_compute; intros Hc;
    solve [reflexivity | discriminate Hc].
Qed.

Lemma lower_one_is_digit s : lower s = "1"%string -> isdigit s = true.
Proof.
  destruct s as [|c [|d s]]; cbn; try discriminate.
  intros [= Hc]. apply lower_char_one in Hc. subst c. reflexivity.
Qed.

Lemma truthy_word s :
  isdigit s = false ->
  bool_decide (lower s ∈ ["true"; "yes"; "1"]%string)
  = String.eqb (lower s) "true" || String.eqb (lower s) "yes".
Proof.
  intros Hd.
  destruct (String.eqb_spec (lower s) "true") as [Ht|Ht];
    destruct (String.eqb_spec (lower s) "yes") as [Hy|Hy]; cbn;
    case_bool_decide as Hin; try reflexivity; exfalso.
  all: rewrite !elem_of_cons, elem_of_nil in Hin.
  1-3: apply Hin; auto.
  destruct Hin as [?|[?|[H1|[]]]]; [congruence..|].
  apply lower_one_is_digit in H1. congruence.
Qed.

(** C9, as the code has it. A token that is not made of digits is always
    accepted: it is coerced to 1 when it is [true] or [yes] in any case,
    and to 0 otherwise, whatever it is. A token of decimal digits is
    coerced to the number it denotes. Only a token of digits that [int]
    refuses (one that is not all decimal, or longer than the limit on
    digits) makes the coercion fail, and then nothing is recorded. *)
Theorem bool_token_coercion :
  (forall s, isdigit s = false ->
     coerce "bool" s
     = Ok (VInt (if String.eqb (lower s) "true" || String.eqb (lower s) "yes"
                 then 1 else 0))) /\
  (forall s, isdigit s = true -> forall_chars isdecimal_char s = true ->
     (int_max_str_digits = 0 \/ String.length s <= int_max_str_digits)%nat ->
     coerce "bool" s = Ok (VInt (decimal_value s))) /\
  (forall s, isdigit s = true -> forall_chars isdecimal_char s = false ->
     coerce "bool" s = Raise (ValueError "invalid literal for int()")) /\
  (forall s, isdigit s = true -> forall_chars isdecimal_char s = true ->
     (int_max_str_digits <> 0 /\ int_max_str_digits < String.length s)%nat ->
     coerce "bool" s = Raise (ValueError "Exceeds the limit for integer string conversion")) /\
  (forall line samples name rest,
     after_first (name +:+ ":") line = Some rest ->
     isdigit (first_token rest) = false ->
     scan_name line samples (name, "bool"%string)
     = Ok (append_sample name
             (VInt (if String.eqb (lower (first_token rest)) "true"
                       || String.eqb (lower (first_token rest)) "yes"
                    then 1 else 0)) samples)) /\
  (forall line samples name rest,
     after_first (name +:+ ":") line = Some rest ->
     isdigit (first_token rest) = true ->
     forall_chars isdecimal_char (first_token rest) = false ->
     scan_name line samples (name, "bool"%string) = Ok samples).
Proof.
  assert (Hword : forall s, isdigit s = false ->
             coerce "bool" s
             = Ok (VInt (if String.eqb (lower s) "true" || String.eqb (lower s) "yes"
                         then 1 else 0))).
  { intros s Hd. unfold coerce. cbn [String.eqb Ascii.eqb Bool.eqb]. rewrite Hd.
    rewrite truthy_word by exact Hd. reflexivity. }
  assert (Hsup : forall s, isdigit s = true -> forall_chars isdecimal_char s = false ->
             coerce "bool" s = Raise (ValueError "invalid literal for int()")).
  { intros s Hd Hnd. unfold coerce. cbn [String.eqb Ascii.eqb Bool.eqb]. rewrite Hd.
    rewrite py_int_superscript by assumption. reflexivity. }
  split; [exact Hword|]. split; [|split; [exact Hsup|split; [|split]]].
  - intros s Hd Hdec Hlim. unfold coerce. cbn [String.eqb Ascii.eqb Bool.eqb]. rewrite Hd.
    rewrite py_int_decimal by assumption. reflexivity.
  - intros s Hd Hdec Hlim. unfold coerce. cbn [String.eqb Ascii.eqb Bool.eqb]. rewrite Hd.
    rewrite py_int_over_limit by assumption. reflexivity.
  - intros line samples name rest Hafter Hd. unfold scan_name.
    rewrite Hafter, (Hword _ Hd). reflexivity.
  - intros line samples name rest Hafter Hd Hnd. unfold scan_name.
    rewrite Hafter, (Hsup _ Hd Hnd). reflexivity.
Qed.

End HarnessFacts.

(** *** The harness on concrete tokens *)

Section HarnessScenarios.
Import Scenario Harness.
Import (hints) CPython.

(** [float] and [repr] of CPython on some literals. *)
Example float_literals :
  List.map (fun s => CPython.float_repr <$> CPython.float_of_str s)
    ["0.1"; "1e22"; "1e16"; "1_000.5"; "-.5e-5"; "9007199254740993"; "1e400"; " nan "; "1__0"]%string
  = [Ok "0.1"; Ok "1e+22"; Ok "1e+16"; Ok "1000.5"; Ok "-5e-06"; Ok "9007199254740992.0";
     Ok "inf"; Ok "nan"; Raise (ValueError "could not convert string to float")]%string.
Proof. vm_compute. reflexivity. Qed.

(** The tokens the spec names. *)
Example bool_tokens_of_the_spec :
  List.map (coerce "bool") ["0"; "1"; "true"; "false"; "yes"; "no"; "TRUE"; "Yes"; "nO"]%string
  = List.map (fun z => Ok (VInt z)) [0; 1; 1; 0; 1; 0; 1; 1; 0].
Proof. vm_compute. reflexivity. Qed.

(** Tokens outside the six of the spec are accepted too: ["maybe"] and the
    empty token are recorded as 0, and ["42"] as 42. A line
    ["flag: maybe"] yields the sample 0 for [flag]. *)
Lemma bool_token_outside_the_six_is_recorded :
  coerce "bool" "maybe" = Ok (VInt 0) /\
  coerce "bool" "42" = Ok (VInt 42) /\
  parse_stdout [("flag", Some "bool")]%string (list_byte_of_string "flag: maybe")
  = Ok {["flag"%string := [VInt 0]]}.
Proof. repeat split; vm_compute; reflexivity. Qed.

Lemma bool_token_coercion_witness :
  isdigit "maybe" = false /\
  coerce "bool" "maybe" = Ok (VInt 0) /\
  coerce "bool" "007" = Ok (VInt 7) /\
  coerce "bool" (String (ascii_of_N 178) EmptyString)
  = Raise (ValueError "invalid literal for int()").
Proof.
  split; [reflexivity|]. split; [|split].
  - apply (proj1 bool_token_coercion "maybe"%string). reflexivity.
  - apply (proj1 (proj2 bool_token_coercion) "007"%string); [reflexivity..|].
    right. vm_compute. lia.
  - apply (proj1 (proj2 (proj2 bool_token_coercion))); reflexivity.
Defined.

End HarnessScenarios.

(** ** The corpus stat tracker *)

Section TrackerFacts.
Import CorpusStatTracker.

Lemma grows_refl gb : grows gb gb.
Proof. apply Forall2_same_length_lookup. split; [reflexivity|]. intros; congruence. Qed.

Lemma grows_trans gb1 gb2 gb3 : grows gb1 gb2 -> grows gb2 gb3 -> grows gb1 gb3.
Proof.
  unfold grows. apply Forall2_trans.
  intros a b c Hab Hbc Ha. specialize (Hab Ha). subst b. exact (Hbc Ha).
Qed.

(** Writing 1 at a position that holds 0. *)
Lemma grows_insert gb i :
  nonzero (default 0 (gb !! i)) = false -> grows gb (<[i := 1]> gb).
Proof.
  revert i. induction gb as [|a gb IH]; intros i Hz; [constructor|].
  destruct i as [|i]; cbn in *.
  - constructor; [congruence|apply grows_refl].
  - constructor; [reflexivity|apply IH; exact Hz].
Qed.

Lemma merge_cov_grows rb idx gb new_edge r gb' new_edge' :
  merge_cov rb idx gb new_edge = (r, gb', new_edge') -> grows gb gb'.
Proof.
  revert gb new_edge. induction idx as [|i rest IH]; intros gb new_edge; cbn.
  - intros [= <- <- <-]. apply grows_refl.
  - destruct (rb !! i) as [x|]; [|intros [= <- <- <-]; apply grows_refl].
    destruct (nonzero x && negb (nonzero (default 0 (gb !! i)))) eqn:Hnew.
    + intros Hrest. apply IH in Hrest.
      eapply grows_trans; [|exact Hrest]. apply grows_insert.
      apply andb_true_iff in Hnew. destruct Hnew as [_ Hz].
      now apply negb_true_iff in Hz.
    + apply IH.
Qed.




Lemma grows_count gb gb' : grows gb gb' -> (count_edges gb <= count_edges gb')%nat.
Proof.
  unfold count_edges.
  induction 1 as [|a b gb gb' Hab _ IH]; cbn; [lia|].
  destruct (nonzero a) eqn:Ha.
  - rewrite (Hab eq_refl), Ha. cbn. lia.
  - destruct (nonzero b); cbn; lia.
Qed.

Lemma add_samples_app t calls more :
  add_samples t (calls ++ more) = add_samples (add_samples t calls) more.
Proof. unfold add_samples. apply fold_left_app. Qed.



End TrackerFacts.

(** *** The tracker on a run *)

Section TrackerScenarios.
Import CorpusStatTracker Scenario.

Example tracker_run :
  cov_bitmap (add_samples tracker4 first_calls) = [1; 1; 0; 0] /\
  (add_sample (add_samples tracker4 [(sample_of [0; 1; 0; 0], S754_zero false)])
     (sample_of [7; 0]) (S754_zero false)).1 = Raise IndexError /\
  cov_bitmap (add_samples tracker4 (first_calls ++ later_calls)) = [1; 1; 0; 1] /\
  total_edges <$> get_result (add_samples tracker4 first_calls) = Ok 2%nat /\
  total_edges <$> get_result (add_samples tracker4 (first_calls ++ later_calls)) = Ok 3%nat.
Proof. repeat split; vm_compute; reflexivity. Qed.


End TrackerScenarios.

(** ** Loading, reloading and the history of the engine *)

Section EngineLoading.
Context {W : Type} `{!World W} `{!Utils}.

Implicit Types (e : engine W) (f : operator W) (w : W) (history : list bytes).

(** *** What [_load_operators] keeps *)

Lemma register_attr_other (ops : gmap string (operator W)) name' a name :
  name <> name' -> register_attr ops (name', a) !! name = ops !! name.
Proof.
  intros Hne. unfold register_attr.
  destruct (String.prefix "_" name'); [reflexivity|].
  destruct a as [params f|]; [|reflexivity].
  destruct (2 <=? params)%nat; [|reflexivity].
  apply lookup_insert_ne. congruence.
Qed.

Lemma fold_register_absent attrs (ops : gmap string (operator W)) name :
  name ∉ (List.map fst attrs) ->
  List.fold_left register_attr attrs ops !! name = ops !! name.
Proof.
  revert ops. induction attrs as [|[name' a] attrs IH]; intros ops Hnot; [reflexivity|].
  cbn [List.fold_left]. cbn in Hnot. apply not_elem_of_cons in Hnot. destruct Hnot as [Hne Hnot].
  rewrite IH by exact Hnot. apply register_attr_other. exact Hne.
Qed.

Lemma registers_snoc_other attrs name' a name f :
  name <> name' -> registers (attrs ++ [(name', a)]) name f <-> registers attrs name f.
Proof.
  intros Hne. unfold registers. split; intros (p & Hin & Hp); exists p; (split; [|exact Hp]).
  - apply elem_of_app in Hin. destruct Hin as [Hin|Hin]; [exact Hin|].
    apply list_elem_of_singleton in Hin. congruence.
  - apply elem_of_app. left. exact Hin.
Qed.

Lemma register_attr_same (ops : gmap string (operator W)) name a :
  register_attr ops (name, a) !! name
  = if String.prefix "_" name then ops !! name
    else match a with
         | Callable params f => if (2 <=? params)%nat then Some f else ops !! name
         | NotCallable => ops !! name
         end.
Proof.
  unfold register_attr. destruct (String.prefix "_" name); [reflexivity|].
  destruct a as [params f|]; [|reflexivity].
  destruct (2 <=? params)%nat; [apply lookup_insert_eq|reflexivity].
Qed.

Lemma attr_name_listed (attrs : list (string * module_attr W)) name a :
  (name, a) ∈ attrs -> name ∈ (List.map fst attrs).
Proof. intros Hin. apply list_elem_of_fmap. exists (name, a). auto. Qed.

Lemma load_operators_lookup attrs name f :
  NoDup (List.map fst attrs) ->
  List.fold_left register_attr attrs (∅ : gmap string (operator W)) !! name = Some f <->
  registers attrs name f.
Proof.
  revert name f. induction attrs as [|[name' a] attrs IH] using rev_ind; intros name f Hnd.
  - cbn. rewrite lookup_empty. split; [discriminate|].
    intros (p & Hin & _). inversion Hin.
  - rewrite List.map_app in Hnd. cbn in Hnd.
    apply NoDup_app in Hnd. destruct Hnd as (Hnd & Hfresh & _).
    rewrite List.fold_left_app. cbn [List.fold_left].
    destruct (decide (name = name')) as [->|Hne].
    2: { rewrite register_attr_other by exact Hne.
         rewrite registers_snoc_other by exact Hne. apply IH. exact Hnd. }
    assert (Hnot : name' ∉ (List.map fst attrs)).
    { intros Hin. apply (Hfresh _ Hin). apply list_elem_of_here. }
    assert (Hlast : forall p g, (name', Callable p g) ∈ (attrs ++ [(name', a)]) ->
                                a = Callable p g).
    { intros p g Hin. apply elem_of_app in Hin. destruct Hin as [Hin|Hin].
      - exfalso. eapply Hnot, attr_name_listed, Hin.
      - apply list_elem_of_singleton in Hin. congruence. }
    assert (Hnone : List.fold_left register_attr attrs (∅ : gmap string (operator W)) !! name'
                    = None).
    { rewrite fold_register_absent by exact Hnot. apply lookup_empty. }
    rewrite register_attr_same. unfold registers.
    destruct (String.prefix "_" name') eqn:Hpre.
    { rewrite Hnone. split; [discriminate|]. intros (p & _ & _ & Hp). congruence. }
    destruct a as [params g|].
    2: { rewrite Hnone. split; [discriminate|]. intros (p & Hin & _).
         apply Hlast in Hin. discriminate. }
    destruct (2 <=? params)%nat eqn:Hp.
    + split.
      * intros [= <-]. exists params. split; [|split; [apply Nat.leb_le, Hp|reflexivity]].
        apply elem_of_app. right. apply list_elem_of_here.
      * intros (p & Hin & _). apply Hlast in Hin. congruence.
    + rewrite Hnone. split; [discriminate|]. intros (p & Hin & Hle & _).
      apply Hlast in Hin. injection Hin as <- <-. apply Nat.leb_gt in Hp. lia.
Qed.

(** X1. [_load_operators] on a module whose attribute names are distinct,
    as [dir] lists them, returns and keeps under [name] exactly the
    attributes that are public (no leading underscore) and callable with a
    signature of two parameters or more, each with its callable. *)
Theorem load_operators_registers (attrs : list (string * module_attr W)) :
  NoDup (List.map fst attrs) ->
  exists ops,
    _load_operators (Some attrs) = Ok ops /\
    forall name f, ops !! name = Some f <-> registers attrs name f.
Proof.
  intros Hnd. eexists. split; [reflexivity|].
  intros name f. apply load_operators_lookup. exact Hnd.
Qed.

(** *** [reload] *)

Lemma reload_keeps_history e operators_file strategy_file r e' :
  reload e operators_file strategy_file = (r, e') ->
  mutation_history e' = mutation_history e /\
  max_mutation_history_size e' = max_mutation_history_size e /\
  max_retries e' = max_retries e.
Proof.
  unfold reload.
  destruct (_load_operators operators_file) as [ops|x]; [|intros [= <- <-]; auto].
  destruct strategy_file as [data|]; [|intros [= <- <-]; auto].
  destruct (py_get "rules" data) as [found|x]; intros [= <- <-]; auto.
Qed.

Lemma reload_returns e operators_file strategy_file e' :
  reload e operators_file strategy_file = (Ok tt, e') <->
  exists e0, new_engine operators_file strategy_file = Ok e0 /\
             e' = Engine (operators e0) (rules e0) (mutation_history e)
                    (max_mutation_history_size e) (max_retries e).
Proof.
  unfold reload, new_engine, _load_strategy.
  destruct (_load_operators operators_file) as [ops|x]; cbn.
  2: { split; [discriminate|]. intros (e0 & [=] & _). }
  destruct strategy_file as [data|]; cbn.
  2: { split; [discriminate|]. intros (e0 & [=] & _). }
  destruct (py_get "rules" data) as [found|x]; cbn.
  2: { split; [discriminate|]. intros (e0 & [=] & _). }
  destruct (py_iter (default (JList []) found)) as [rs|x]; cbn.
  2: { split; [discriminate|]. intros (e0 & [=] & _). }
  destruct (validate_rules ops rs) as [[]|x]; cbn.
  2: { split; [discriminate|]. intros (e0 & [=] & _). }
  split.
  - intros [= <-]. eexists. split; reflexivity.
  - intros (e0 & [= <-] & ->). reflexivity.
Qed.

Lemma reload_raises e operators_file strategy_file x e' :
  reload e operators_file strategy_file = (Raise x, e') ->
  match _load_operators operators_file with
  | Raise y => x = y /\ e' = e
  | Ok ops =>
      operators e' = ops /\ _load_strategy ops strategy_file = Raise x /\
      match strategy_file with
      | Some (JObj kv) => rules e' = default (JList []) (assoc "rules" kv)
      | _ => rules e' = rules e
      end
  end.
Proof.
  unfold reload, _load_strategy.
  destruct (_load_operators operators_file) as [ops|y]; [|intros [= <- <-]; auto].
  destruct strategy_file as [data|]; [|intros [= <- <-]; auto].
  destruct data as [| | | | | |kv]; cbn; try (intros [= <- <-]; auto).
  destruct (py_iter (default (JList []) (assoc "rules" kv))) as [rs|y]; cbn.
  2: { intros [= <- <-]. auto. }
  destruct (validate_rules ops rs) as [[]|y]; cbn; [discriminate|].
  intros [= <- <-]. auto.
Qed.

(** X2. [reload] returns exactly when [__init__] on the same two files
    would build an engine, and it leaves the operators and the rules of
    that engine with the mutation history the engine had; whether it
    returns or raises, the history and the two bounds are untouched. *)
Theorem reload_matches_init e operators_file strategy_file :
  (forall e',
      reload e operators_file strategy_file = (Ok tt, e') <->
      exists e0, new_engine operators_file strategy_file = Ok e0 /\
                 e' = Engine (operators e0) (rules e0) (mutation_history e)
                        (max_mutation_history_size e) (max_retries e)) /\
  (forall r e',
      reload e operators_file strategy_file = (r, e') ->
      mutation_history e' = mutation_history e /\
      max_mutation_history_size e' = max_mutation_history_size e /\
      max_retries e' = max_retries e).
Proof.
  split.
  - intros e'. apply reload_returns.
  - intros r e'. apply reload_keeps_history.
Qed.




(** *** The history under [mutate] and [reload] *)

Lemma mutate_once_history e data ctx w r e' w' :
  mutate_once e data ctx w = (r, e', w') ->
  match r with
  | Raise _ => mutation_history e' = mutation_history e
  | Ok emitted =>
      let pre := option_list ((fun p => Md5.digest p.1) <$> emitted) ++ mutation_history e in
      (forall p, emitted = Some p -> Md5.digest p.1 ∉ mutation_history e) /\
      if (max_mutation_history_size e <=? List.length pre)%nat
      then exists i, (i < List.length pre)%nat /\ mutation_history e' = delete i pre
      else mutation_history e' = pre
  end.
Proof.
  unfold mutate_once.
  destruct (select_rule e ctx) as [[rule|]|x].
  2,3: intros [= <- <- <-]; reflexivity.
  destruct (select_operator rule w) as [chosen w1].
  destruct (op_name ← chosen; lookup_operator e op_name) as [[name f]|x] eqn:Hlook.
  2: intros [= <- <- <-]; reflexivity.
  destruct (attempts (max_retries e) f data ctx (mutation_history e) w1)
    as [[ra history] w2] eqn:Hatt.
  apply attempts_inv in Hatt.
  destruct ra as [emitted|x].
  2: { intros [= <- <- <-]. destruct Hatt as [-> _]. reflexivity. }
  assert (Hpre : history = option_list ((fun p : bytes * string => Md5.digest p.1) <$>
                             ((fun m => (m, name)) <$> emitted)) ++ mutation_history e).
  { destruct emitted as [m|]; cbn; [apply Hatt|exact Hatt]. }
  assert (Hnew : forall p, (fun m => (m, name)) <$> emitted = Some p ->
                           Md5.digest p.1 ∉ mutation_history e).
  { intros p Hp. destruct emitted as [m|]; cbn in Hp; [|discriminate].
    injection Hp as <-. apply Hatt. }
  destruct (max_mutation_history_size e <=? List.length history)%nat eqn:Hfull.
  - destruct (set_pop history w2) as [popped w3] eqn:Hpop.
    apply set_pop_inv in Hpop.
    destruct popped as [history'|x].
    + intros [= <- <- <-]. cbv zeta. rewrite <- Hpre, Hfull. split; [exact Hnew|].
      destruct Hpop as (i & Hi & ->). exists i. split; [exact Hi|reflexivity].
    + intros [= <- <- <-]. destruct Hpop as [-> _]. cbn.
      destruct emitted; cbn in Hpre; [discriminate|]. rewrite <- Hpre. reflexivity.
  - intros [= <- <- <-]. cbv zeta. rewrite <- Hpre, Hfull. split; [exact Hnew|reflexivity].
Qed.

Lemma mutate_once_small e data ctx w r e' w' :
  mutate_once e data ctx w = (r, e', w') -> history_small e -> history_small e'.
Proof.
  intros Hone (Hlen & Hall).
  pose proof (mutate_once_inv _ _ _ _ _ _ _ Hone) as ((_ & _ & Hmax & _) & _).
  apply mutate_once_history in Hone. unfold history_small. rewrite Hmax.
  destruct r as [emitted|x]; [|rewrite Hone; auto].
  cbv zeta in Hone. destruct Hone as [_ Hone].
  set (pre := option_list ((fun p : bytes * string => Md5.digest p.1) <$> emitted)
              ++ mutation_history e) in *.
  assert (Hpre : (List.length pre <= S (List.length (mutation_history e)))%nat /\
                 Forall (fun h => List.length h = 16%nat) pre).
  { subst pre. destruct emitted as [p|]; cbn; split; try lia; try assumption.
    constructor; [apply digest_length|assumption]. }
  destruct Hpre as [Hl Hf].
  destruct (max_mutation_history_size e <=? List.length pre)%nat eqn:Hfull.
  - destruct Hone as (i & Hi & ->). split.
    + rewrite length_delete_lt by exact Hi. lia.
    + apply Forall_delete. exact Hf.
  - apply Nat.leb_gt in Hfull. rewrite Hone. auto.
Qed.

Lemma mutate_loop_small n e data ctx w acc r e' w' :
  mutate_loop n e data ctx w acc = (r, e', w') -> history_small e -> history_small e'.
Proof.
  revert e w acc. induction n as [|n IH]; intros e w acc; cbn [mutate_loop].
  - intros [= <- <- <-]. auto.
  - destruct (mutate_once e data ctx w) as [[r1 e1] w1] eqn:Hone.
    pose proof (mutate_once_small _ _ _ _ _ _ _ Hone) as Hs.
    destruct r1 as [emitted|x].
    + intros Hloop Hsmall. eapply IH; eauto.
    + intros [= <- <- <-]. exact Hs.
Qed.

Lemma mutate_small e data ctx n w r e' w' :
  mutate e data ctx n w = (r, e', w') -> history_small e -> history_small e'.
Proof.
  unfold mutate.
  destruct (size (operators e) =? 0)%nat; [intros [= <- <- <-]; auto|].
  destruct (negb (truthy (rules e))); [intros [= <- <- <-]; auto|].
  apply mutate_loop_small.
Qed.

Lemma after_calls_small e0 e :
  after_calls e0 e -> history_small e0 -> history_small e.
Proof.
  induction 1 as [|e data ctx n w r e' w' _ IH Hcall|e ofile sfile r e' _ IH Hcall];
    intros Hsmall.
  - exact Hsmall.
  - eapply mutate_small; eauto.
  - apply reload_keeps_history in Hcall. destruct Hcall as (Hh & Hmax & _).
    specialize (IH Hsmall). unfold history_small in *. rewrite Hh, Hmax. exact IH.
Qed.

Lemma after_calls_bounds e0 e :
  after_calls e0 e ->
  max_mutation_history_size e = max_mutation_history_size e0 /\
  max_retries e = max_retries e0.
Proof.
  induction 1 as [|e data ctx n w r e' w' _ [IH1 IH2] Hcall|e ofile sfile r e' _ [IH1 IH2] Hcall].
  - auto.
  - apply mutate_inv in Hcall. destruct Hcall as ((_ & _ & Hmax & Hret) & _).
    split; congruence.
  - apply reload_keeps_history in Hcall. destruct Hcall as (_ & Hmax & Hret).
    split; congruence.
Qed.

(** X4. After any run of [mutate] and [reload] calls on an engine that
    [__init__] built, whether the calls returned or raised, the mutation
    history holds fewer than 1000 entries, each of 16 octets, and the two
    bounds are still 1000 and 5. *)
Theorem history_bounded_across_reloads operators_file strategy_file e0 e :
  new_engine operators_file strategy_file = Ok e0 ->
  after_calls e0 e ->
  (List.length (mutation_history e) < 1000)%nat /\
  Forall (fun h => List.length h = 16%nat) (mutation_history e) /\
  max_mutation_history_size e = 1000%nat /\ max_retries e = 5%nat.
Proof.
  intros Hnew Hrun.
  apply new_engine_inv in Hnew. destruct Hnew as (Hh & Hmax & Hret & _).
  destruct (after_calls_bounds _ _ Hrun) as [Hmax' Hret'].
  destruct (after_calls_small _ _ Hrun) as [Hlen Hall].
  { split; [rewrite Hh, Hmax; cbn; lia|rewrite Hh; constructor]. }
  split; [lia|]. split; [exact Hall|]. split; congruence.
Qed.

(** *** Fresh outputs *)

Lemma mutate_loop_fresh n e data ctx w acc out e' w' :
  mutate_loop n e data ctx w acc = (Ok out, e', w') ->
  (List.length (mutation_history e) + n < max_mutation_history_size e)%nat ->
  exists new,
    out = acc ++ new /\
    mutation_history e' = List.rev (List.map digest_of new) ++ mutation_history e /\
    NoDup (List.map digest_of new) /\
    Forall (fun p => digest_of p ∉ mutation_history e) new.
Proof.
  revert e w acc. induction n as [|n IH]; intros e w acc; cbn [mutate_loop].
  - intros [= <- <- <-] _. exists []. rewrite app_nil_r. cbn.
    repeat split; constructor.
  - destruct (mutate_once e data ctx w) as [[r1 e1] w1] eqn:Hone.
    pose proof (mutate_once_inv _ _ _ _ _ _ _ Hone) as ((_ & _ & Hmax & _) & _).
    apply mutate_once_history in Hone.
    destruct r1 as [emitted|x]; [|discriminate].
    cbv zeta in Hone. destruct Hone as [Hnew Hone].
    intros Hloop Hroom.
    assert (Hh1 : mutation_history e1
                  = option_list (digest_of <$> emitted) ++ mutation_history e).
    { destruct (max_mutation_history_size e <=? _)%nat eqn:Hfull; [|exact Hone].
      apply Nat.leb_le in Hfull. rewrite List.length_app in Hfull.
      destruct emitted; cbn in Hfull; lia. }
    apply IH in Hloop.
    2: { rewrite Hh1, Hmax, List.length_app. destruct emitted; cbn; lia. }
    destruct Hloop as (new & -> & Hhist & Hnd & Hfresh).
    exists (option_list emitted ++ new). rewrite app_assoc. split; [reflexivity|].
    rewrite Hh1 in Hhist, Hfresh.
    destruct emitted as [p|]; cbn in *.
    + split; [rewrite Hhist, <- app_assoc; reflexivity|]. split.
      * constructor; [|exact Hnd]. intros Hin.
        apply list_elem_of_fmap in Hin. destruct Hin as (q & Hq & Hin).
        rewrite Forall_forall in Hfresh. apply (Hfresh q Hin).
        rewrite <- Hq. apply list_elem_of_here.
      * constructor; [apply Hnew; reflexivity|].
        eapply Forall_impl; [exact Hfresh|]. intros q Hq Hin. apply Hq.
        apply list_elem_of_further. exact Hin.
    + auto.
Qed.

Lemma elem_of_rev {A} (x : A) (l : list A) : x ∈ List.rev l <-> x ∈ l.
Proof. rewrite !list_elem_of_In. symmetry. apply List.in_rev. Qed.

(** X5. While the history has room for the requested mutations (its size
    plus [num_mutations] is below the bound, so that nothing is evicted), the
    octet strings that one [mutate] call returns are pairwise distinct, none
    of their digests was in the history before the call, and the history
    after the call is the history before it with exactly the digests of the
    returned strings added. *)
Theorem mutate_emits_fresh_distinct e data ctx n w out e' w' :
  mutate e data ctx n w = (Ok out, e', w') ->
  (List.length (mutation_history e) + Z.to_nat n < max_mutation_history_size e)%nat ->
  NoDup (List.map fst out) /\
  (forall p, p ∈ out -> Md5.digest p.1 ∉ mutation_history e) /\
  (forall h, h ∈ mutation_history e' <->
             h ∈ mutation_history e \/ exists p, p ∈ out /\ h = Md5.digest p.1) /\
  List.length (mutation_history e') = (List.length (mutation_history e) + List.length out)%nat.
Proof.
  unfold mutate.
  destruct (size (operators e) =? 0)%nat; [discriminate|].
  destruct (negb (truthy (rules e))); [discriminate|].
  intros Hloop Hroom. apply mutate_loop_fresh in Hloop; [|exact Hroom].
  destruct Hloop as (new & -> & Hhist & Hnd & Hfresh). cbn [app].
  split; [|split; [|split]].
  - apply (NoDup_fmap_1 Md5.digest). rewrite <- list_fmap_compose. exact Hnd.
  - intros p Hp. rewrite Forall_forall in Hfresh. apply (Hfresh p Hp).
  - intros h. rewrite Hhist, elem_of_app, elem_of_rev, list_elem_of_fmap.
    unfold digest_of. split.
    + intros [(p & -> & Hp)|Hh]; [right; eauto|left; exact Hh].
    + intros [Hh|(p & Hp & ->)]; [right; exact Hh|left; eauto].
  - rewrite Hhist, List.length_app, List.length_rev, List.length_map. lia.
Qed.

(** *** The operator of a selected rule *)




(** *** A strategy without rules *)

(** X7. A strategy document that has no [rules] member loads, to an
    engine with no rules. An engine that [__init__] built with rules that
    are empty (an empty list, object or string) cannot mutate: every
    [mutate] call on it, with zero mutations requested too, raises the
    [ValueError] of the missing operators when no operator is loaded, and
    of the missing rules otherwise, and leaves the engine as it was. *)
Theorem load_without_rules :
  (forall (attrs : list (string * module_attr W)) kv,
      assoc "rules" kv = None ->
      exists e, new_engine (Some attrs) (Some (JObj kv)) = Ok e /\ rules e = JList []) /\
  (forall operators_file strategy_file e,
      new_engine operators_file strategy_file = Ok e ->
      truthy (rules e) = false ->
      (rules e = JList [] \/ rules e = JObj [] \/ rules e = JStr "") /\
      forall data ctx n w,
        mutate e data ctx n w
        = (Raise (ValueError (if (size (operators e) =? 0)%nat then "No operators loaded"
                              else "No rules defined in strategy")), e, w)).
Proof.
  split.
  - intros attrs kv Hkv. unfold new_engine, _load_strategy. cbn. rewrite Hkv. cbn.
    eexists. split; reflexivity.
  - intros operators_file strategy_file e Hnew Hfalse. split.
    + apply new_engine_inv in Hnew. destruct Hnew as (_ & _ & _ & _ & Hload).
      destruct strategy_file as [data|]; [|discriminate].
      apply load_strategy_ok in Hload. destruct Hload as (kv & rs & _ & _ & Hiter & _).
      destruct (rules e) as [| | | |s|l|members]; cbn in Hiter, Hfalse; try discriminate.
      * right. right. apply negb_false_iff, String.eqb_eq in Hfalse. congruence.
      * left. apply negb_false_iff in Hfalse. apply bool_decide_eq_true in Hfalse. congruence.
      * right. left. apply negb_false_iff in Hfalse. apply bool_decide_eq_true in Hfalse.
        congruence.
    + intros data ctx n w. unfold mutate.
      destruct (size (operators e) =? 0)%nat; [reflexivity|].
      rewrite Hfalse. reflexivity.
Qed.

End EngineLoading.

(** ** operators.py *)

Section OperatorsModule.
Import Scenario.
Import (hints) CPython.

Lemma draw_history w : MUTATION_HISTORY (draw w).2 = MUTATION_HISTORY w.
Proof. unfold draw. destruct (tape w); reflexivity. Qed.

Lemma randbytes2_spec w :
  exists r, (randbytes2 w).1 = Latin1.decode r /\ List.length r = 2%nat /\
            MUTATION_HISTORY (randbytes2 w).2 = MUTATION_HISTORY w.
Proof.
  unfold randbytes2. pose proof (draw_history w) as Hh.
  destruct (draw w) as [k w']. cbn in *.
  exists (Md5.le_bytes 2 (Z.of_N k)). split; [reflexivity|]. split; [apply le_bytes_length|exact Hh].
Qed.



(** The history of operators.py after a call of the wrapper: unchanged, or
    one digest added after at most one entry was dropped. *)
Lemma wrapper_history retries func input ctx last w :
  (forall s c w0, MUTATION_HISTORY (func s c w0).2 = MUTATION_HISTORY w0) ->
  let w' := (ensure_unique_loop retries func input ctx last w).2 in
  MUTATION_HISTORY w' = MUTATION_HISTORY w \/
  exists h, (h ∉ MUTATION_HISTORY w) /\
    ((List.length (MUTATION_HISTORY w) <= MAX_HISTORY_SIZE)%nat /\
     MUTATION_HISTORY w' = h :: MUTATION_HISTORY w \/
     (MAX_HISTORY_SIZE < List.length (MUTATION_HISTORY w))%nat /\
     exists i, (i < List.length (MUTATION_HISTORY w))%nat /\
               MUTATION_HISTORY w' = h :: delete i (MUTATION_HISTORY w)).
Proof.
  intros Hfunc. revert last w. induction retries as [|k IH]; intros last w; cbn [ensure_unique_loop].
  - destruct last as [mutated|]; [|left; reflexivity].
    destruct (randbytes2_spec w) as (r & _ & _ & Hh).
    destruct (randbytes2 w) as [s w1]. cbn in *. left. exact Hh.
  - pose proof (Hfunc input ctx w) as Hh1.
    destruct (func input ctx w) as [mutated w1]. cbn in Hh1.
    destruct (Latin1.encode mutated) as [encoded|e]; [|left; exact Hh1].
    case_bool_decide as Hin.
    + specialize (IH (Some mutated) w1). cbv zeta in IH. rewrite Hh1 in IH. exact IH.
    + right. exists (Md5.digest encoded). rewrite Hh1 in Hin. split; [exact Hin|].
      destruct (MAX_HISTORY_SIZE <? List.length (MUTATION_HISTORY w1))%nat eqn:Hfull.
      * apply Nat.ltb_lt in Hfull. right. rewrite Hh1 in Hfull. split; [exact Hfull|].
        pose proof (draw_history w1) as Hd. destruct (draw w1) as [j w2]. cbn in Hd |- *.
        rewrite Hd, Hh1.
        exists (N.to_nat (j mod N.of_nat (List.length (MUTATION_HISTORY w)))).
        split; [|reflexivity].
        pose proof (N.mod_upper_bound j (N.of_nat (List.length (MUTATION_HISTORY w)))) as Hk.
        unfold MAX_HISTORY_SIZE in Hfull. lia.
      * apply Nat.ltb_ge in Hfull. left. rewrite Hh1 in Hfull. split; [exact Hfull|].
        cbn. rewrite Hh1. reflexivity.
Qed.

(** X8. The wrapper of [ensure_unique] around a function that leaves
    [MUTATION_HISTORY] alone never shrinks the history and keeps it at
    1001 entries or fewer once it is there; a call that changes a history
    of 1000 entries leaves 1001: the cap is one above [MAX_HISTORY_SIZE]. *)
Theorem wrapper_history_cap retries func input ctx w :
  (forall s c w0, MUTATION_HISTORY (func s c w0).2 = MUTATION_HISTORY w0) ->
  let w' := (ensure_unique retries func input ctx w).2 in
  (List.length (MUTATION_HISTORY w) <= List.length (MUTATION_HISTORY w'))%nat /\
  ((List.length (MUTATION_HISTORY w) <= 1001)%nat ->
   (List.length (MUTATION_HISTORY w') <= 1001)%nat) /\
  (List.length (MUTATION_HISTORY w) = 1000%nat ->
   MUTATION_HISTORY w' <> MUTATION_HISTORY w ->
   List.length (MUTATION_HISTORY w') = 1001%nat).
Proof.
  intros Hfunc. cbv zeta. unfold ensure_unique.
  destruct (wrapper_history retries func input ctx None w Hfunc)
    as [->|(h & _ & [[Hle ->]|(Hgt & i & Hi & ->)])];
    unfold MAX_HISTORY_SIZE in *; cbn [List.length];
    try rewrite length_delete_lt by exact Hi.
  - repeat split; try lia. congruence.
  - repeat split; lia.
  - repeat split; lia.
Qed.





Lemma insert_func_history s c w0 :
  MUTATION_HISTORY (insert_random_bytes_func s c w0).2 = MUTATION_HISTORY w0.
Proof.
  unfold insert_random_bytes_func. destruct (randbytes2_spec w0) as (r & _ & _ & Hh).
  destruct (randbytes2 w0) as [t w1]. exact Hh.
Qed.

Lemma wrapper_history_cap_witness :
  (List.length (MUTATION_HISTORY full_script)
   <= List.length (MUTATION_HISTORY
        (ensure_unique 5 insert_random_bytes_func [] ∅ full_script).2))%nat /\
  ((List.length (MUTATION_HISTORY full_script) <= 1001)%nat ->
   (List.length (MUTATION_HISTORY
      (ensure_unique 5 insert_random_bytes_func [] ∅ full_script).2) <= 1001)%nat) /\
  (List.length (MUTATION_HISTORY full_script) = 1000%nat ->
   MUTATION_HISTORY (ensure_unique 5 insert_random_bytes_func [] ∅ full_script).2
   <> MUTATION_HISTORY full_script ->
   List.length (MUTATION_HISTORY
     (ensure_unique 5 insert_random_bytes_func [] ∅ full_script).2) = 1001%nat).
Proof.
  exact (wrapper_history_cap 5 insert_random_bytes_func [] ∅ full_script insert_func_history).
Defined.

(** On a history of [MAX_HISTORY_SIZE] digests a fresh output is recorded
    with nothing dropped. *)
Example history_of_operators_py_reaches_1001 :
  List.length (MUTATION_HISTORY full_script) = 1000%nat /\
  List.length (MUTATION_HISTORY (insert_random_bytes [] ∅ full_script).2) = 1001%nat.
Proof. split; vm_compute; reflexivity. Qed.

(** Five attempts that all meet the recorded digest: the wrapper returns
    the input followed by four octets and leaves the history alone. *)
Example five_collisions_append_four_octets :
  List.find (fun mutated => negb (recorded (MUTATION_HISTORY colliding_script) mutated))
    (outputs_of 5 insert_random_bytes_func (Latin1.decode b_x) ∅ colliding_script) = None /\
  insert_random_bytes (Latin1.decode b_x) ∅ colliding_script
  = (OpReturn (Latin1.decode [x78; x00; x00; x07; x00]),
     Script [] (MUTATION_HISTORY colliding_script)).
Proof. split; vm_compute; reflexivity. Qed.

End OperatorsModule.

(** ** The keys and the values of the state dict *)

Section ProjectorKeys.
Context `{!Utils} `{!Builtins}.

Lemma compute_item_keys samples latest result item d key :
  compute_item samples latest result item = Ok d ->
  is_Some (d !! key) <-> is_Some (result !! key) \/ writes latest item key.
Proof.
  intros Hitem.
  destruct (decide (display_key item = Some key)) as [Hk|Hk].
  2: { rewrite (compute_item_other _ _ _ _ _ _ Hitem Hk). unfold writes. tauto. }
  unfold writes.
  destruct item as [name|name|expr|expr|name|ty]; cbn in Hk, Hitem; try discriminate;
    injection Hk as ->.
  - destruct (latest !! key) as [v|] eqn:Hl; injection Hitem as <-.
    + rewrite lookup_insert_eq. split; [intros _; right; split; [reflexivity|eauto]|eauto].
    + split; [auto|]. intros [Hr|[_ Hv]]; [exact Hr|].
      destruct (Hv eq_refl) as [? [=]].
  - destruct (sum_values 0 _); cbn in Hitem; [|discriminate]. injection Hitem as <-.
    rewrite lookup_insert_eq. split; [intros _; right; split; [reflexivity|discriminate]|eauto].
  - injection Hitem as <-.
    rewrite lookup_insert_eq. split; [intros _; right; split; [reflexivity|discriminate]|eauto].
  - injection Hitem as <-.
    rewrite lookup_insert_eq. split; [intros _; right; split; [reflexivity|discriminate]|eauto].
  - destruct (unique_canonical _) as [u|]; cbn in Hitem; [|discriminate].
    destruct (py_sorted u); cbn in Hitem; [|discriminate]. injection Hitem as <-.
    rewrite lookup_insert_eq. split; [intros _; right; split; [reflexivity|discriminate]|eauto].
Qed.

Lemma compute_items_keys samples latest result spec d key :
  compute_items samples latest result spec = Ok d ->
  is_Some (d !! key) <->
  is_Some (result !! key) \/ exists item, item ∈ spec /\ writes latest item key.
Proof.
  revert result. induction spec as [|item rest IH]; intros result; cbn [compute_items].
  - intros [= <-]. split; [auto|]. intros [Hr|(item & Hin & _)]; [exact Hr|inversion Hin].
  - destruct (compute_item samples latest result item) as [r1|x] eqn:Hitem;
      cbn [mbind result_bind Py.bind]; [|discriminate].
    intros Hrest. rewrite (IH _ Hrest), (compute_item_keys _ _ _ _ _ key Hitem).
    split.
    + intros [[Hr|Hw]|(it & Hin & Hw)]; [left; exact Hr|right..].
      * exists item. split; [apply list_elem_of_here|exact Hw].
      * exists it. split; [apply list_elem_of_further, Hin|exact Hw].
    + intros [Hr|(it & Hin & Hw)]; [left; left; exact Hr|].
      apply elem_of_cons in Hin. destruct Hin as [->|Hin]; [left; right; exact Hw|].
      right. exists it. auto.
Qed.

(** X10. The keys of the dict that [_compute_state_dict] returns are
    exactly the display keys of the spec items that write: every sum,
    predicate, counter and set item, and the value items whose name has a
    latest value. No other key is ever in the dict. *)
Theorem state_dict_keys spec samples latest verbose d key :
  _compute_state_dict spec samples latest verbose = Ok d ->
  is_Some (d !! key) <-> exists item, item ∈ spec /\ writes latest item key.
Proof.
  intros Hd. unfold _compute_state_dict in Hd.
  rewrite (compute_items_keys _ _ _ _ _ key Hd), lookup_empty.
  split; [intros [[? [=]]|Hw]; exact Hw|auto].
Qed.

(** *** Items that share a key *)

Lemma compute_item_written samples latest result item r key :
  compute_item samples latest result item = Ok r -> writes latest item key ->
  exists d0, compute_item samples latest ∅ item = Ok d0 /\ r !! key = d0 !! key.
Proof.
  intros Hitem [Hk Hv].
  destruct item as [name|name|expr|expr|name|ty]; cbn in Hk, Hitem |- *; try discriminate;
    injection Hk as ->.
  - destruct (Hv eq_refl) as [v Hl]. rewrite Hl in Hitem |- *. injection Hitem as <-.
    eexists. split; [reflexivity|]. now rewrite !lookup_insert_eq.
  - destruct (sum_values 0 _); cbn in Hitem |- *; [|discriminate]. injection Hitem as <-.
    eexists. split; [reflexivity|]. now rewrite !lookup_insert_eq.
  - injection Hitem as <-. eexists. split; [reflexivity|]. now rewrite !lookup_insert_eq.
  - injection Hitem as <-. eexists. split; [reflexivity|]. now rewrite !lookup_insert_eq.
  - destruct (unique_canonical _) as [u|]; cbn in Hitem |- *; [|discriminate].
    destruct (py_sorted u); cbn in Hitem |- *; [|discriminate]. injection Hitem as <-.
    eexists. split; [reflexivity|]. now rewrite !lookup_insert_eq.
Qed.

Lemma compute_items_unwritten samples latest result spec d key :
  (forall item, item ∈ spec -> ~ writes latest item key) ->
  compute_items samples latest result spec = Ok d ->
  d !! key = result !! key.
Proof.
  revert result. induction spec as [|item rest IH]; intros result Hspec; cbn [compute_items].
  - intros [= <-]. reflexivity.
  - destruct (compute_item samples latest result item) as [r1|x] eqn:Hitem;
      cbn [mbind result_bind Py.bind]; [|discriminate].
    intros Hrest. rewrite (IH r1); [|intros; apply Hspec; right; assumption|assumption].
    destruct (decide (display_key item = Some key)) as [Hk|Hk].
    2: { eapply compute_item_other; eassumption. }
    assert (Hv : item = ItemValue key /\ latest !! key = None).
    { pose proof (Hspec item (list_elem_of_here _ _)) as Hnot. unfold writes in Hnot.
      destruct item as [name|name|expr|expr|name|ty]; cbn in Hk; try discriminate;
        injection Hk as ->.
      2-5: exfalso; apply Hnot; split; [reflexivity|discriminate].
      split; [reflexivity|]. destruct (latest !! key) eqn:Hl; [|reflexivity].
      exfalso. apply Hnot. split; [reflexivity|eauto]. }
    destruct Hv as [-> Hl]. rewrite compute_item_value_absent in Hitem by exact Hl.
    congruence.
Qed.

(** X11. Items of different kinds that carry the same name or expression
    share one key of the state dict, and the last of them that writes
    wins: the dict holds under the key what that item computes on its own,
    and [_dict_to_state_tuple] pairs that one value with the label of
    every item of the spec that has the key. *)
Theorem last_writer_wins spec1 item spec2 samples latest verbose d key :
  writes latest item key ->
  (forall later, later ∈ spec2 -> ~ writes latest later key) ->
  _compute_state_dict (spec1 ++ item :: spec2) samples latest verbose = Ok d ->
  exists d0 v,
    _compute_state_dict [item] samples latest verbose = Ok d0 /\
    d0 !! key = Some v /\ d !! key = Some v /\
    forall other, other ∈ (spec1 ++ item :: spec2) -> display_key other = Some key ->
      exists label, tuple_item d other = [VStr label; v].
Proof.
  intros Hw Hlater Hd. unfold _compute_state_dict in *.
  rewrite compute_items_app in Hd.
  destruct (compute_items samples latest ∅ spec1) as [r1|x]; cbn in Hd; [|discriminate].
  destruct (compute_item samples latest r1 item) as [r2|x] eqn:Hitem; cbn in Hd; [|discriminate].
  destruct (compute_item_written _ _ _ _ _ _ Hitem Hw) as (d0 & Hd0 & Heq).
  pose proof (compute_items_unwritten _ _ _ _ _ _ Hlater Hd) as Hkeep.
  assert (Hsome : is_Some (r2 !! key)).
  { apply (compute_item_keys _ _ _ _ _ key Hitem). right. exact Hw. }
  destruct Hsome as [v Hv]. exists d0, v.
  split; [cbn; rewrite Hd0; reflexivity|].
  split; [congruence|]. split; [congruence|].
  intros other _ Hk. eexists. eapply tuple_item_present; [exact Hk|congruence].
Qed.

(** *** The set branch *)

Lemma flat_hashable v : flat v -> hashable v = true.
Proof. destruct v; cbn; tauto. Qed.

Lemma canonical_flat v : is_bytearray v = false -> flat (canonical v).
Proof. destruct v; cbn; (discriminate || intros _; exact I). Qed.


Lemma pyval_eqb_flat a b : flat a -> flat b -> pyval_eqb a b = true <-> a = b.
Proof.
  destruct a as [x|f|x|x|x|l]; cbn; try tauto; intros _;
    destruct b as [y|g|y|y|y|k]; cbn; try tauto; intros _;
    try (split; [discriminate|congruence]).
  - rewrite Z.eqb_eq. split; congruence.
  - rewrite String.eqb_eq. split; congruence.
  - rewrite bool_decide_eq_true. split; congruence.
Qed.

Lemma existsb_eqb_flat v u :
  flat v -> Forall flat u -> List.existsb (pyval_eqb v) u = true <-> v ∈ u.
Proof.
  intros Hv Hu. rewrite List.existsb_exists. split.
  - intros (y & Hin & Heq). apply list_elem_of_In in Hin.
    apply pyval_eqb_flat in Heq; [|exact Hv|].
    + subst y. exact Hin.
    + rewrite Forall_forall in Hu. apply Hu, Hin.
  - intros Hin. exists v. split; [apply list_elem_of_In, Hin|].
    apply pyval_eqb_flat; [exact Hv..|reflexivity].
Qed.

Lemma set_add_flat v u :
  flat v -> Forall flat u -> NoDup u ->
  exists u', set_add v u = Ok u' /\ Forall flat u' /\ NoDup u' /\
             forall x, x ∈ u' <-> x ∈ u \/ x = v.
Proof.
  intros Hv Hu Hnd. unfold set_add. rewrite (flat_hashable v Hv).
  destruct (List.existsb (pyval_eqb v) u) eqn:Hex; eexists; (split; [reflexivity|]).
  - apply existsb_eqb_flat in Hex; [|assumption..].
    split; [exact Hu|]. split; [exact Hnd|].
    intros x. split; [auto|]. intros [Hin| ->]; assumption.
  - split; [apply Forall_app; split; [exact Hu|repeat constructor; exact Hv]|]. split.
    + apply NoDup_app. split; [exact Hnd|]. split; [|apply NoDup_singleton].
      intros x Hin Hx. apply list_elem_of_singleton in Hx. subst x.
      apply (existsb_eqb_flat v u Hv Hu) in Hin. congruence.
    + intros x. rewrite elem_of_app, list_elem_of_singleton. reflexivity.
Qed.

Lemma add_canonical_returns values acc :
  Forall flat acc -> NoDup acc ->
  (forall v, v ∈ values -> is_bytearray v = false) ->
  exists u, add_canonical acc values = Ok u /\ Forall flat u /\ NoDup u /\
            forall x, x ∈ u <-> x ∈ acc \/ exists v, v ∈ values /\ x = canonical v.
Proof.
  revert acc. induction values as [|v values IH]; intros acc Hflat Hnd Hno; cbn [add_canonical].
  - exists acc. split; [reflexivity|]. split; [exact Hflat|]. split; [exact Hnd|].
    intros x. split; [auto|]. intros [Hin|(v & Hin & _)]; [exact Hin|inversion Hin].
  - destruct (set_add_flat (canonical v) acc) as (u1 & -> & Hflat1 & Hnd1 & Hmem1);
      [apply canonical_flat, Hno, list_elem_of_here|assumption..|].
    cbn [mbind result_bind Py.bind].
    destruct (IH u1 Hflat1 Hnd1) as (u & Hu & Hflat' & Hnd' & Hmem);
      [intros; apply Hno; right; assumption|].
    exists u. split; [exact Hu|]. split; [exact Hflat'|]. split; [exact Hnd'|].
    intros x. rewrite Hmem, Hmem1. split.
    + intros [[Hin| ->]|(v' & Hin & ->)]; [left; exact Hin|right..].
      * exists v. split; [apply list_elem_of_here|reflexivity].
      * exists v'. split; [apply list_elem_of_further, Hin|reflexivity].
    + intros [Hin|(v' & Hin & ->)]; [left; left; exact Hin|].
      apply elem_of_cons in Hin. destruct Hin as [->|Hin]; [left; right; reflexivity|].
      right. exists v'. auto.
Qed.


Lemma unique_canonical_returns values :
  (forall v, v ∈ values -> is_bytearray v = false) ->
  exists u, unique_canonical values = Ok u /\ Forall flat u /\ NoDup u /\
            forall x, x ∈ u <-> exists v, v ∈ values /\ x = canonical v.
Proof.
  intros Hno.
  destruct (add_canonical_returns values [] (Forall_nil_2 _) (NoDup_nil_2) Hno)
    as (u & Hu & Hflat & Hnd & Hmem).
  exists u. split; [exact Hu|]. split; [exact Hflat|]. split; [exact Hnd|].
  intros x. rewrite Hmem. split; [intros [Hin|Hv]; [inversion Hin|exact Hv]|auto].
Qed.


Lemma bytes_leb_total a b : bytes_leb a b = false -> bytes_leb b a = true.
Proof.
  revert b. induction a as [|x a IH]; intros [|y b]; cbn; try discriminate; try reflexivity.
  rewrite (N.compare_antisym (Byte.to_N x) (Byte.to_N y)).
  destruct (N.compare (Byte.to_N x) (Byte.to_N y)); cbn; try discriminate; auto.
Qed.

Lemma py_leb_total a b : py_leb a b = Some false -> py_le b a.
Proof.
  unfold py_le. destruct a as [x|f|x|x|x|l], b as [y|g|y|y|y|k]; cbn; try discriminate;
    intros [= Hle].
  - f_equal. apply Z.leb_le. apply Z.leb_gt in Hle. lia.
  - f_equal. destruct (String.leb_total x y) as [H1|H1]; congruence.
  - f_equal. apply bytes_leb_total, Hle.
  - f_equal. apply bytes_leb_total, Hle.
  - f_equal. apply bytes_leb_total, Hle.
  - f_equal. apply bytes_leb_total, Hle.
Qed.




Lemma sorted_insert_spec x l r :
  sorted_insert x l = Ok r ->
  r ≡ₚ x :: l /\ (Sorted py_le l -> Sorted py_le r) /\
  (forall y, HdRel py_le y l -> py_le y x -> HdRel py_le y r).
Proof.
  revert r. induction l as [|y l IH]; intros r; cbn [sorted_insert].
  - intros [= <-]. split; [reflexivity|]. split; [repeat constructor|].
    intros z _ Hz. constructor. exact Hz.
  - destruct (py_leb x y) as [[|]|] eqn:Hxy; [| |discriminate].
    + intros [= <-]. split; [reflexivity|]. split.
      * intros Hs. constructor; [exact Hs|]. constructor. exact Hxy.
      * intros z _ Hz. constructor. exact Hz.
    + destruct (sorted_insert x l) as [r'|e] eqn:Hins; cbn; [|discriminate].
      intros [= <-]. destruct (IH r' eq_refl) as (Hperm & Hs & Hhd).
      split; [rewrite Hperm; apply Permutation_swap|]. split.
      * intros Hsl. inversion Hsl as [|? ? Hs' Hh']; subst.
        constructor; [apply Hs, Hs'|]. apply Hhd; [exact Hh'|].
        apply py_leb_total, Hxy.
      * intros z Hz _. inversion Hz; subst. constructor. assumption.
Qed.

Lemma py_sorted_spec l s :
  py_sorted l = Ok s -> s ≡ₚ l /\ Sorted py_le s.
Proof.
  revert s. induction l as [|x l IH]; intros s; cbn [py_sorted].
  - intros [= <-]. split; [reflexivity|constructor].
  - destruct (py_sorted l) as [r|e]; cbn; [|discriminate].
    intros Hins. apply sorted_insert_spec in Hins. destruct Hins as (Hperm & Hs & _).
    destruct (IH r eq_refl) as [Hp Hsr].
    split; [rewrite Hperm, Hp; reflexivity|auto].
Qed.

Lemma sorted_insert_returns x l :
  (forall y, y ∈ l -> is_Some (py_leb x y)) -> exists r, sorted_insert x l = Ok r.
Proof.
  induction l as [|y l IH]; intros Hcmp; cbn [sorted_insert]; [eauto|].
  destruct (Hcmp y (list_elem_of_here _ _)) as [[|] ->]; [eauto|].
  destruct IH as [r ->]; [intros; apply Hcmp; right; assumption|]. cbn. eauto.
Qed.

Lemma py_sorted_returns l :
  (forall a b, a ∈ l -> b ∈ l -> is_Some (py_leb a b)) -> exists s, py_sorted l = Ok s.
Proof.
  induction l as [|x l IH]; intros Hcmp; cbn [py_sorted]; [eauto|].
  destruct IH as [r Hr]; [intros; apply Hcmp; right; assumption|].
  rewrite Hr. cbn. apply sorted_insert_returns.
  intros y Hy. apply Hcmp; [left|right].
  apply py_sorted_spec in Hr. destruct Hr as [Hp _]. rewrite <- Hp. exact Hy.
Qed.





End ProjectorKeys.

(** ** The samples parsed from the output *)

Section ParsingFacts.
Context `{!Utils} `{!Builtins}.
Import Harness.

Lemma coerce_kind value_type s v : coerce value_type s = Ok v -> value_kind value_type v = true.
Proof.
  unfold coerce, value_kind.
  destruct (String.eqb value_type "int").
  { destruct (py_int s); cbn; [|discriminate]. intros [= <-]. reflexivity. }
  destruct (String.eqb value_type "float").
  { destruct (float_of_str s); cbn; [|discriminate]. intros [= <-]. reflexivity. }
  destruct (String.eqb value_type "bool").
  { destruct (isdigit s); [|intros [= <-]; reflexivity].
    destruct (py_int s); cbn; [|discriminate]. intros [= <-]. reflexivity. }
  intros [= <-]. reflexivity.
Qed.

Lemma line_sample_kind name ty line v :
  line_sample name ty line = Some v -> value_kind ty v = true.
Proof.
  unfold line_sample. destruct (after_first _ line) as [rest|]; [|discriminate].
  destruct (coerce ty (first_token rest)) as [value|x] eqn:Hc; [|discriminate].
  intros [= <-]. eapply coerce_kind, Hc.
Qed.

Lemma collected_kind name ty lines : Forall (fun v => value_kind ty v = true) (collected name ty lines).
Proof.
  unfold collected. induction lines as [|line lines IH]; cbn; [constructor|].
  destruct (line_sample name ty (strip line)) eqn:Hs; [|exact IH].
  constructor; [eapply line_sample_kind, Hs|exact IH].
Qed.

Lemma collected_length name ty lines :
  (List.length (collected name ty lines) <= List.length lines)%nat.
Proof.
  unfold collected. induction lines as [|line lines IH]; cbn; [lia|].
  destruct (line_sample name ty (strip line)); cbn; lia.
Qed.

(** *** The dict of the declarations *)

Lemma assoc_dict_set {A} (x k : string) (v : A) d :
  assoc x (dict_set k v d) = if String.eqb x k then Some v else assoc x d.
Proof.
  induction d as [|[k' v'] d IH]; cbn.
  - reflexivity.
  - destruct (String.eqb k k') eqn:Hk; cbn.
    + apply String.eqb_eq in Hk. subst k'. destruct (String.eqb x k); reflexivity.
    + destruct (String.eqb x k') eqn:Hx.
      * apply String.eqb_eq in Hx. subst k'.
        rewrite String.eqb_sym, Hk. reflexivity.
      * exact IH.
Qed.

Lemma dict_set_keys {A} (x k : string) (v : A) d :
  x ∈ (dict_set k v d).*1 <-> x = k \/ x ∈ d.*1.
Proof.
  induction d as [|[k' v'] d IH]; cbn.
  - rewrite list_elem_of_singleton. rewrite elem_of_nil. tauto.
  - destruct (String.eqb k k') eqn:Hk; cbn.
    + apply String.eqb_eq in Hk. subst k'. rewrite !elem_of_cons. tauto.
    + rewrite !elem_of_cons, IH. tauto.
Qed.

Lemma dict_set_NoDup {A} (k : string) (v : A) d : NoDup d.*1 -> NoDup (dict_set k v d).*1.
Proof.
  induction d as [|[k' v'] d IH]; cbn.
  - intros _. apply NoDup_singleton.
  - intros Hnd. apply NoDup_cons in Hnd. destruct Hnd as [Hfresh Hnd].
    destruct (String.eqb k k') eqn:Hk; cbn.
    + apply String.eqb_eq in Hk. subst k'. apply NoDup_cons. auto.
    + apply NoDup_cons. split; [|auto]. rewrite dict_set_keys.
      intros [->|Hin]; [|contradiction]. rewrite String.eqb_refl in Hk. discriminate.
Qed.

Lemma execution_values_dict_NoDup l : NoDup (execution_values_dict l).*1.
Proof.
  unfold execution_values_dict.
  assert (Hgen : forall d, NoDup d.*1 ->
            NoDup (List.fold_left
                     (fun d item => dict_set item.1 (default "string"%string item.2) d) l d).*1).
  { induction l as [|item l IH]; intros d Hd; cbn; [exact Hd|].
    apply IH, dict_set_NoDup, Hd. }
  apply Hgen. constructor.
Qed.

Lemma assoc_absent {A} (x : string) (d : list (string * A)) : x ∉ d.*1 -> assoc x d = None.
Proof.
  induction d as [|[k v] d IH]; cbn; [reflexivity|].
  intros Hnot. apply not_elem_of_cons in Hnot. destruct Hnot as [Hne Hnot].
  destruct (String.eqb x k) eqn:Hx; [apply String.eqb_eq in Hx; contradiction|auto].
Qed.

Lemma execution_values_dict_snoc l item :
  execution_values_dict (l ++ [item])
  = dict_set item.1 (default "string"%string item.2) (execution_values_dict l).
Proof. unfold execution_values_dict. rewrite List.fold_left_app. reflexivity. Qed.

(** X13. The dict of the declarations has one entry per declared name,
    and the type it holds for a name is the type of the last declaration
    of that name, [string] when that declaration gives none. *)
Theorem declared_type_is_last execution_values_list :
  NoDup (List.map fst (execution_values_dict execution_values_list)) /\
  forall name,
    assoc name (execution_values_dict execution_values_list)
    = (fun item => default "string"%string item.2)
        <$> last (List.filter (fun item => String.eqb name item.1) execution_values_list).
Proof.
  split; [apply execution_values_dict_NoDup|].
  intros name. induction execution_values_list as [|item l IH] using rev_ind; [reflexivity|].
  rewrite execution_values_dict_snoc, assoc_dict_set, List.filter_app. cbn [List.filter].
  destruct (String.eqb name item.1).
  - rewrite last_snoc. reflexivity.
  - rewrite app_nil_r. exact IH.
Qed.

(** *** The scan of the lines *)

Lemma scan_name_sample line samples name ty samples' :
  scan_name line samples (name, ty) = Ok samples' ->
  samples' = match line_sample name ty line with
             | Some v => append_sample name v samples
             | None => samples
             end.
Proof.
  unfold scan_name, line_sample.
  destruct (after_first (name +:+ ":") line) as [rest|]; [|congruence].
  destruct (coerce ty (first_token rest)) as [v|[]]; congruence.
Qed.

Lemma scan_names_lookup line samples defs samples' name :
  NoDup defs.*1 ->
  scan_names line samples defs = Ok samples' ->
  samples' !! name =
  match assoc name defs with
  | None => samples !! name
  | Some ty => extend (samples !! name) (option_list (line_sample name ty line))
  end.
Proof.
  revert samples. induction defs as [|[n ty] defs IH]; intros samples Hnd; cbn [scan_names].
  - intros [= <-]. reflexivity.
  - cbn in Hnd. apply NoDup_cons in Hnd. destruct Hnd as [Hfresh Hnd].
    destruct (scan_name line samples (n, ty)) as [s1|x] eqn:H1;
      cbn [mbind result_bind Py.bind]; [|discriminate].
    apply scan_name_sample in H1. intros Hrest. rewrite (IH _ Hnd Hrest). cbn [assoc].
    destruct (String.eqb name n) eqn:Hn.
    + apply String.eqb_eq in Hn. subst n. rewrite (assoc_absent _ _ Hfresh), H1.
      destruct (line_sample name ty line) as [v|]; cbn; [|reflexivity].
      unfold append_sample. apply lookup_insert_eq.
    + assert (Hkeep : s1 !! name = samples !! name).
      { rewrite H1. destruct (line_sample n ty line); [|reflexivity].
        unfold append_sample. apply lookup_insert_ne. intros ->.
        rewrite String.eqb_refl in Hn. discriminate. }
      rewrite Hkeep. reflexivity.
Qed.

Lemma extend_extend old vs ws : extend (extend old vs) ws = extend old (vs ++ ws).
Proof.
  destruct vs as [|v vs]; [reflexivity|]. destruct ws as [|w ws].
  - rewrite app_nil_r. reflexivity.
  - cbn. rewrite <- app_assoc. reflexivity.
Qed.

Lemma scan_lines_lookup defs samples lines samples' name :
  NoDup defs.*1 ->
  scan_lines defs samples lines = Ok samples' ->
  samples' !! name =
  match assoc name defs with
  | None => samples !! name
  | Some ty => extend (samples !! name) (collected name ty lines)
  end.
Proof.
  intros Hnd. revert samples. induction lines as [|line lines IH]; intros samples; cbn [scan_lines].
  - intros [= <-]. destruct (assoc name defs); reflexivity.
  - destruct (scan_names (strip line) samples defs) as [s1|x] eqn:H1;
      cbn [mbind result_bind Py.bind]; [|discriminate].
    intros Hrest. rewrite (IH _ Hrest), (scan_names_lookup _ _ _ _ name Hnd H1).
    destruct (assoc name defs) as [ty|]; [|reflexivity].
    rewrite extend_extend. unfold collected. cbn [omap list_omap].
    destruct (line_sample name ty (strip line)); reflexivity.
Qed.

(** X14. The samples that [execute_binary] collects for a name are
    independent of the other declared names: they are, in line order, the
    coerced first tokens after the first occurrence of the name's pattern
    in each stripped line of the output, with the lines left out where the
    pattern is absent or the coercion is passed over, under the type that
    the dict of the declarations holds for the name. A name with no sample,
    and a name that is not declared, have no entry. *)
Theorem parsed_samples_per_name execution_values_list stdout samples name :
  parse_stdout execution_values_list stdout = Ok samples ->
  samples !! name =
  match assoc name (execution_values_dict execution_values_list) with
  | None => None
  | Some value_type =>
      match collected name value_type (splitlines (string_of_list_byte stdout)) with
      | [] => None
      | values => Some values
      end
  end.
Proof.
  unfold parse_stdout. intros Hscan.
  rewrite (scan_lines_lookup _ _ _ _ name (execution_values_dict_NoDup _) Hscan).
  rewrite lookup_empty. destruct (assoc name _) as [ty|]; [|reflexivity].
  unfold extend. destruct (collected _ _ _); reflexivity.
Qed.

(** X15. Every list of samples that [execute_binary] collects is not
    empty, holds at most one value per line of the output, all of the
    Python type that the declared type of its name yields, and its last
    element is the latest value of the name: the latest values have the
    same keys as the samples. *)
Theorem parsed_samples_typed execution_values_list stdout samples name values :
  parse_stdout execution_values_list stdout = Ok samples ->
  samples !! name = Some values ->
  values <> [] /\
  (List.length values <= List.length (splitlines (string_of_list_byte stdout)))%nat /\
  (exists value_type,
      assoc name (execution_values_dict execution_values_list) = Some value_type /\
      Forall (fun v => value_kind value_type v = true) values) /\
  latest_of samples !! name = last values /\ is_Some (latest_of samples !! name).
Proof.
  unfold parse_stdout. intros Hscan Hname.
  assert (Hlatest : latest_of samples !! name = last values).
  { unfold latest_of. rewrite lookup_omap, Hname. reflexivity. }
  rewrite (scan_lines_lookup _ _ _ _ name (execution_values_dict_NoDup _) Hscan) in Hname.
  rewrite lookup_empty in Hname.
  destruct (assoc name _) as [ty|] eqn:Hty; [|discriminate].
  pose proof (collected_kind name ty (splitlines (string_of_list_byte stdout))) as Hkind.
  pose proof (collected_length name ty (splitlines (string_of_list_byte stdout))) as Hlen.
  unfold extend in Hname.
  destruct (collected name ty _) as [|v vs] eqn:Hc; [discriminate|].
  cbn [default app] in Hname. injection Hname as <-.
  split; [discriminate|]. split; [exact Hlen|]. split; [eauto|].
  split; [exact Hlatest|]. rewrite Hlatest.
  destruct (last_is_Some (v :: vs)) as [_ Hs]. apply Hs. discriminate.
Qed.

(** *** The projection of parsed samples *)

Lemma scanned_well_kinded defs lines samples :
  NoDup defs.*1 -> scan_lines defs ∅ lines = Ok samples -> well_kinded samples.
Proof.
  intros Hnd Hscan name values Hname.
  rewrite (scan_lines_lookup _ _ _ _ name Hnd Hscan), lookup_empty in Hname.
  destruct (assoc name defs) as [ty|]; [|discriminate]. exists ty.
  pose proof (collected_kind name ty lines) as Hkind.
  unfold extend in Hname. destruct (collected name ty lines); [discriminate|].
  cbn [default app] in Hname. injection Hname as <-. exact Hkind.
Qed.

Lemma kinded_comparable value_type values a b :
  Forall (fun v => value_kind value_type v = true) values ->
  a ∈ values -> b ∈ values -> is_Some (py_leb (canonical a) (canonical b)).
Proof.
  rewrite Forall_forall. intros Hall Ha Hb.
  pose proof (Hall a Ha) as Ka. pose proof (Hall b Hb) as Kb.
  unfold value_kind in Ka, Kb.
  destruct (String.eqb value_type "int");
    [|destruct (String.eqb value_type "float"); [|destruct (String.eqb value_type "bool")]];
    destruct a, b; try discriminate; cbn; eauto.
Qed.

Lemma kinded_hashable value_type values v :
  Forall (fun v => value_kind value_type v = true) values ->
  v ∈ values -> is_bytearray v = false.
Proof.
  rewrite Forall_forall. intros Hall Hv. specialize (Hall v Hv).
  unfold value_kind in Hall. destruct v; try reflexivity.
  destruct (String.eqb value_type "int");
    [|destruct (String.eqb value_type "float"); [|destruct (String.eqb value_type "bool")]];
    discriminate.
Qed.

Lemma sum_values_raises total values e :
  sum_values total values = Raise e ->
  exists v, v ∈ values /\ coerce_value_to_int v = Raise e.
Proof.
  revert total. induction values as [|v values IH]; intros total; cbn [sum_values]; [discriminate|].
  destruct (coerce_value_to_int v) as [n|x] eqn:Hv; cbn.
  - intros Hrest. destruct (IH _ Hrest) as (u & Hu & He). exists u. split; [right; exact Hu|exact He].
  - intros [= <-]. exists v. split; [left|exact Hv].
Qed.

Lemma compute_items_raises samples latest result spec e :
  well_kinded samples ->
  compute_items samples latest result spec = Raise e -> sum_failure samples spec e.
Proof.
  intros Hk. revert result. induction spec as [|item rest IH]; intros result;
    cbn [compute_items]; [discriminate|].
  destruct (compute_item samples latest result item) as [r1|x] eqn:Hitem; cbn.
  - intros Hrest. destruct (IH _ Hrest) as (name & values & v & Hin & Hrest').
    exists name, values, v. split; [right; exact Hin|exact Hrest'].
  - intros [= <-]. destruct item as [name|name|expr|expr|name|ty]; cbn in Hitem.
    + destruct (latest !! name); discriminate.
    + destruct (samples !! name) as [values|] eqn:Hs; cbn in Hitem; [|discriminate].
      destruct (sum_values 0 values) as [z|y] eqn:Hsum; cbn in Hitem; [discriminate|].
      injection Hitem as ->. apply sum_values_raises in Hsum. destruct Hsum as (v & Hv & He).
      exists name, values, v. split; [left|auto].
    + discriminate.
    + discriminate.
    + exfalso.
      assert (Hty : exists ty, Forall (fun v => value_kind ty v = true)
                                 (default [] (samples !! name))).
      { destruct (samples !! name) as [values|] eqn:Hv; [exact (Hk _ _ Hv)|].
        exists EmptyString. constructor. }
      destruct Hty as [ty Hty].
      destruct (unique_canonical_returns (default [] (samples !! name)))
        as (u & Hu & _ & _ & Hmem).
      { intros v Hv. eapply kinded_hashable; eassumption. }
      rewrite Hu in Hitem. cbn in Hitem.
      destruct (py_sorted_returns u) as [s Hs].
      * intros a b Ha Hb. apply Hmem in Ha, Hb.
        destruct Ha as (va & Ha & ->), Hb as (vb & Hb & ->).
        eapply kinded_comparable; eassumption.
      * rewrite Hs in Hitem. discriminate.
    + discriminate.
Qed.

Lemma coerce_raises value_type s e :
  (forall t x, float_of_str t = Raise x -> exists msg, x = ValueError msg) ->
  coerce value_type s = Raise e -> exists msg, e = ValueError msg.
Proof.
  intros Hfloat. unfold coerce.
  assert (Hint : forall x, py_int s = Raise x -> exists msg, x = ValueError msg).
  { unfold py_int. intros x.
    destruct (match strip_number s with
              | String c r => _
              | EmptyString => _
              end) as [negative body].
    destruct (digits_value 0 false body); [|intros [= <-]; eauto].
    destruct (_ && _); [intros [= <-]; eauto|discriminate]. }
  destruct (String.eqb value_type "int").
  { destruct (py_int s) eqn:Hp; cbn; [discriminate|]. intros [= <-]. eauto. }
  destruct (String.eqb value_type "float").
  { destruct (float_of_str s) eqn:Hp; cbn; [discriminate|]. intros [= <-]. eauto. }
  destruct (String.eqb value_type "bool"); [|discriminate].
  destruct (isdigit s); [|discriminate].
  destruct (py_int s) eqn:Hp; cbn; [discriminate|]. intros [= <-]. eauto.
Qed.

Lemma scan_lines_returns defs samples lines :
  (forall t x, float_of_str t = Raise x -> exists msg, x = ValueError msg) ->
  exists samples', scan_lines defs samples lines = Ok samples'.
Proof.
  intros Hfloat.
  assert (Hname : forall line samples def, exists s1, scan_name line samples def = Ok s1).
  { intros line s0 [name ty]. unfold scan_name.
    destruct (after_first _ line) as [rest|]; [|eauto].
    destruct (coerce ty (first_token rest)) as [v|e] eqn:Hc; [eauto|].
    destruct (coerce_raises _ _ _ Hfloat Hc) as [msg ->]. eauto. }
  assert (Hnames : forall line defs samples, exists s1, scan_names line samples defs = Ok s1).
  { intros line ds. induction ds as [|def ds IH]; intros s0; cbn [scan_names]; [eauto|].
    destruct (Hname line s0 def) as [s1 ->]. cbn. apply IH. }
  revert samples. induction lines as [|line lines IH]; intros samples; cbn [scan_lines]; [eauto|].
  destruct (Hnames (strip line) defs samples) as [s1 ->]. cbn. apply IH.
Qed.

(** X16. When [float] raises nothing but [ValueError], the parsing of
    the output returns for every output. When moreover the two specs hold
    no predicate and no counter item, the items whose branch calls the
    predicate evaluator, the projection that [execute_binary] computes from
    the parsed samples either returns the state tuple and the mutation
    context of the two specs, or raises what [coerce_value_to_int] raised
    on a sample of a name that a sum item of one of the specs names: the
    set branch does not raise on parsed samples, since the samples of a
    name are ints, floats or strs of one type. *)
Theorem observe_raises_only_in_sum execution_values_list state_spec context_spec stdout :
  (forall t x, float_of_str t = Raise x -> exists msg, x = ValueError msg) ->
  exists samples,
    parse_stdout execution_values_list stdout = Ok samples /\
    ((forall item, item ∈ state_spec ++ context_spec -> evaluates item = false) ->
     match observe execution_values_list state_spec context_spec stdout with
     | Ok (state, context) =>
         exists d,
           _compute_state_dict state_spec samples (latest_of samples) false = Ok d /\
           state = _dict_to_state_tuple state_spec d /\
           _compute_state_dict context_spec samples (latest_of samples) false = Ok context
     | Raise e => sum_failure samples (state_spec ++ context_spec) e
     end).
Proof.
  intros Hfloat. unfold observe, parse_stdout.
  destruct (scan_lines_returns (execution_values_dict execution_values_list) ∅
              (splitlines (string_of_list_byte stdout)) Hfloat) as [samples Hscan].
  exists samples. split; [exact Hscan|]. intros _.
  rewrite Hscan. cbn [mbind result_bind Py.bind].
  pose proof (scanned_well_kinded _ _ _ (execution_values_dict_NoDup _) Hscan) as Hk.
  unfold _compute_state_dict.
  destruct (compute_items samples (latest_of samples) ∅ state_spec) as [d1|e] eqn:H1;
    cbn [mbind result_bind Py.bind].
  2: { apply compute_items_raises in H1; [|exact Hk].
       destruct H1 as (name & values & v & Hin & Hrest).
       exists name, values, v. split; [apply elem_of_app; left; exact Hin|exact Hrest]. }
  destruct (compute_items samples (latest_of samples) ∅ context_spec) as [d2|e] eqn:H2;
    cbn [mbind result_bind Py.bind].
  2: { apply compute_items_raises in H2; [|exact Hk].
       destruct H2 as (name & values & v & Hin & Hrest).
       exists name, values, v. split; [apply elem_of_app; right; exact Hin|exact Hrest]. }
  exists d1. auto.
Qed.

(** *** The first token *)

Lemma forall_chars_rev_app p a b :
  forall_chars p (String.rev_app a b) = forall_chars p a && forall_chars p b.
Proof.
  revert b. induction a as [|c a IH]; intros b; cbn; [reflexivity|].
  rewrite IH. cbn. destruct (p c), (forall_chars p a), (forall_chars p b); reflexivity.
Qed.

Lemma forall_chars_rev p a : forall_chars p (String.rev a) = forall_chars p a.
Proof. unfold String.rev. rewrite forall_chars_rev_app. cbn. apply andb_true_r. Qed.

Lemma rev_app_nonempty a b : b <> EmptyString -> String.rev_app a b <> EmptyString.
Proof. revert b. induction a as [|c a IH]; intros b Hb; cbn; [exact Hb|]. apply IH. discriminate. Qed.

Lemma rev_nonempty a : a <> EmptyString -> String.rev a <> EmptyString.
Proof.
  destruct a as [|c a]; [congruence|]. intros _. unfold String.rev. cbn.
  apply rev_app_nonempty. discriminate.
Qed.

Lemma split_go_tokens s cur :
  (forall acc, cur = Some acc -> token acc) -> Forall token (split_go cur s).
Proof.
  revert cur. induction s as [|c s IH]; intros cur Hcur; cbn [split_go].
  - destruct cur as [acc|]; cbn; [|constructor].
    destruct (Hcur acc eq_refl) as [Hne Hall]. constructor; [|constructor].
    split; [apply rev_nonempty, Hne|rewrite forall_chars_rev; exact Hall].
  - destruct (isspace c) eqn:Hc.
    + apply Forall_app. split.
      * destruct cur as [acc|]; cbn; [|constructor].
        destruct (Hcur acc eq_refl) as [Hne Hall]. constructor; [|constructor].
        split; [apply rev_nonempty, Hne|rewrite forall_chars_rev; exact Hall].
      * apply IH. discriminate.
    + apply IH. intros acc [= <-]. split; [discriminate|].
      cbn. unfold notspace at 1. rewrite Hc. cbn.
      destruct cur as [acc|]; cbn; [apply (Hcur acc eq_refl)|reflexivity].
Qed.

Lemma split_go_some_nonempty s acc : split_go (Some acc) s <> [].
Proof.
  revert acc. induction s as [|c s IH]; intros acc; cbn [split_go]; [discriminate|].
  destruct (isspace c); [discriminate|apply IH].
Qed.

Lemma split_nil_blank s : split s = [] -> forall_chars isspace s = true.
Proof.
  unfold split. induction s as [|c s IH]; cbn [split_go forall_chars]; [reflexivity|].
  destruct (isspace c); cbn.
  - exact IH.
  - intros Hs. exfalso. eapply split_go_some_nonempty, Hs.
Qed.

Lemma lstrip_blank blank s : forall_chars blank s = true <-> lstrip blank s = EmptyString.
Proof.
  induction s as [|c s IH]; cbn; [tauto|].
  destruct (blank c); cbn; [exact IH|]. split; discriminate.
Qed.

Lemma rstrip_blank blank s : forall_chars blank s = true <-> rstrip blank s = EmptyString.
Proof.
  induction s as [|c s IH]; cbn; [tauto|].
  destruct (rstrip blank s) as [|d r] eqn:Hr.
  - destruct (blank c); cbn; [|split; discriminate].
    split; [reflexivity|]. intros _. apply IH. reflexivity.
  - split; [|discriminate]. intros Hall. apply andb_true_iff in Hall.
    destruct Hall as [_ Hall]. apply IH in Hall. discriminate.
Qed.

Lemma rstrip_empty_or_not_blank blank s :
  rstrip blank s = EmptyString \/ forall_chars blank (rstrip blank s) = false.
Proof.
  induction s as [|c s IH]; cbn; [auto|].
  destruct (rstrip blank s) as [|d r] eqn:Hr.
  - destruct (blank c) eqn:Hc; [auto|]. right. cbn. rewrite Hc. reflexivity.
  - right. destruct IH as [IH|IH]; [discriminate|].
    change (forall_chars blank (String c (String d r)))
      with (blank c && forall_chars blank (String d r)).
    rewrite IH. apply andb_false_r.
Qed.

Lemma lstrip_empty_or_not_blank blank s :
  lstrip blank s = EmptyString \/ forall_chars blank (lstrip blank s) = false.
Proof.
  induction s as [|c s IH]; cbn; [auto|].
  destruct (blank c) eqn:Hc; [exact IH|]. right. cbn. rewrite Hc. reflexivity.
Qed.

Lemma strip_blank s : forall_chars isspace s = true <-> strip s = EmptyString.
Proof.
  unfold strip. rewrite <- rstrip_blank. split.
  - intros Hs. apply lstrip_blank in Hs. rewrite Hs. reflexivity.
  - intros Hl. destruct (lstrip_empty_or_not_blank isspace s) as [He|Hn]; [|congruence].
    apply lstrip_blank, He.
Qed.

Lemma strip_blank_empty s : forall_chars isspace (strip s) = true -> strip s = EmptyString.
Proof.
  unfold strip. intros Hall.
  destruct (rstrip_empty_or_not_blank isspace (lstrip isspace s)) as [He|Hn]; [exact He|congruence].
Qed.

Lemma first_token_cases rest :
  (first_token rest = EmptyString /\ forall_chars isspace rest = true) \/
  (token (first_token rest) /\ forall_chars isspace rest = false).
Proof.
  unfold first_token. cbv zeta.
  destruct (split (strip rest)) as [|tok toks] eqn:Hsplit.
  - left. apply split_nil_blank, strip_blank_empty in Hsplit.
    split; [exact Hsplit|]. apply strip_blank, Hsplit.
  - right. pose proof (split_go_tokens (strip rest) None) as Htok.
    unfold split in Hsplit. rewrite Hsplit in Htok.
    assert (Ht : token tok).
    { eapply Forall_inv, Htok. discriminate. }
    split; [exact Ht|].
    destruct (forall_chars isspace rest) eqn:Hb; [|reflexivity].
    apply strip_blank in Hb. rewrite Hb in Hsplit. discriminate.
Qed.

(** X17. The token that [execute_binary] coerces holds no whitespace,
    and it is empty exactly when nothing but whitespace follows the
    pattern. In that case an [int] declaration records nothing, a [bool]
    declaration records 0, and a declaration of any type other than
    [int], [float] and [bool] records the empty string. *)
Theorem first_token_has_no_blank :
  (forall rest,
      forall_chars (fun c => negb (isspace c)) (first_token rest) = true /\
      (first_token rest = EmptyString <-> forall_chars isspace rest = true)) /\
  (forall line samples name rest,
      after_first (name +:+ ":") line = Some rest ->
      forall_chars isspace rest = true ->
      scan_name line samples (name, "int"%string) = Ok samples /\
      scan_name line samples (name, "bool"%string) = Ok (append_sample name (VInt 0) samples) /\
      forall value_type,
        String.eqb value_type "int" = false -> String.eqb value_type "float" = false ->
        String.eqb value_type "bool" = false ->
        scan_name line samples (name, value_type)
        = Ok (append_sample name (VStr "") samples)).
Proof.
  split.
  - intros rest. destruct (first_token_cases rest) as [[He Hb]|[[Hne Hall] Hb]].
    + rewrite He, Hb. split; [reflexivity|tauto].
    + split; [exact Hall|]. rewrite Hb. split; [contradiction|discriminate].
  - intros line samples name rest Hafter Hblank. unfold scan_name. rewrite Hafter.
    destruct (first_token_cases rest) as [[He _]|[_ Hb]]; [|congruence].
    rewrite He. split; [reflexivity|]. split; [reflexivity|].
    intros value_type H1 H2 H3. unfold coerce. rewrite H1, H2, H3. reflexivity.
Qed.

(** *** The first occurrence of the pattern *)

Lemma substring_all s : String.substring 0 (String.length s) s = s.
Proof. induction s as [|c s IH]; cbn; [reflexivity|]. now rewrite IH. Qed.

Lemma prefix_split p line :
  String.prefix p line = true ->
  line = p +:+ String.substring (String.length p) (String.length line - String.length p) line.
Proof.
  revert line. induction p as [|a p IH]; intros line.
  - intros _. cbn. rewrite Nat.sub_0_r, substring_all. reflexivity.
  - destruct line as [|b line]; cbn; [discriminate|].
    destruct (ascii_dec a b) as [->|]; [|discriminate].
    intros Hp. exact (f_equal (String b) (IH line Hp)).
Qed.

Lemma prefix_app p rest : String.prefix p (p +:+ rest) = true.
Proof.
  induction p as [|a p IH]; [destruct rest; reflexivity|].
  change (String a p +:+ rest) with (String a (p +:+ rest)). cbn [String.prefix].
  destruct (ascii_dec a a); [exact IH|congruence].
Qed.

Lemma prefix_of_app p line rest : line = p +:+ rest -> String.prefix p line = true.
Proof. intros ->. apply prefix_app. Qed.

Lemma prefix_nil line : String.prefix "" line = true.
Proof. destruct line; reflexivity. Qed.

Lemma after_first_unfold p line :
  after_first p line =
  if String.prefix p line
  then Some (String.substring (String.length p) (String.length line - String.length p) line)
  else match line with
       | EmptyString => None
       | String _ line' => after_first p line'
       end.
Proof. destruct line; reflexivity. Qed.

(** X18. The text that is read for a name starts after the first
    occurrence of its pattern in the line, wherever that occurrence
    stands, inside a longer word too; a line is passed over for the name
    only when the pattern occurs nowhere in it. *)
Theorem after_first_is_first_occurrence pattern line :
  match after_first pattern line with
  | Some rest =>
      exists pre, line = pre +:+ pattern +:+ rest /\
        forall pre' rest', line = pre' +:+ pattern +:+ rest' ->
                           (String.length pre <= String.length pre')%nat
  | None => forall pre rest, line <> pre +:+ pattern +:+ rest
  end.
Proof.
  induction line as [|c line IH]; rewrite after_first_unfold.
  - destruct (String.prefix pattern "") eqn:Hp.
    + exists EmptyString. split; [apply (prefix_split _ _ Hp)|]. intros; cbn; lia.
    + intros pre rest Heq. destruct pre; cbn in Heq; [|discriminate].
      apply (prefix_of_app pattern) in Heq. congruence.
  - destruct (String.prefix pattern (String c line)) eqn:Hp.
    + exists EmptyString. split; [apply (prefix_split _ _ Hp)|]. intros; cbn; lia.
    + destruct (after_first pattern line) as [rest|].
      * destruct IH as (pre & -> & Hmin). exists (String c pre). split; [reflexivity|].
        intros pre' rest' Heq. destruct pre' as [|c' pre']; cbn in Heq.
        { apply (prefix_of_app pattern) in Heq. congruence. }
        injection Heq as _ Heq. cbn. apply le_n_S. eapply Hmin, Heq.
      * intros pre rest Heq. destruct pre as [|c' pre]; cbn in Heq.
        { apply (prefix_of_app pattern) in Heq. congruence. }
        injection Heq as _ Heq. eapply IH, Heq.
Qed.

End ParsingFacts.

(** ** The statistics of the tracker *)

Section TrackerStatistics.
Import CorpusStatTracker.

Lemma stays_set_refl gb : stays_set gb gb.
Proof. apply Forall2_same_length_lookup. split; [reflexivity|]. intros; congruence. Qed.

Lemma stays_set_trans gb1 gb2 gb3 : stays_set gb1 gb2 -> stays_set gb2 gb3 -> stays_set gb1 gb3.
Proof. unfold stays_set. apply Forall2_trans. auto. Qed.

Lemma stays_set_insert gb i : stays_set gb (<[i := 1]> gb).
Proof.
  revert i. induction gb as [|a gb IH]; intros i; [constructor|].
  destruct i as [|i]; cbn.
  - constructor; [reflexivity|apply stays_set_refl].
  - constructor; [auto|apply IH].
Qed.

Lemma grows_stays_set gb gb' : grows gb gb' -> stays_set gb gb'.
Proof.
  unfold grows, stays_set. intros Hg. eapply Forall2_impl; [exact Hg|].
  intros a b Hab Ha. now rewrite (Hab Ha).
Qed.

Lemma mark_inv bitmap i target r :
  mark bitmap i target = r ->
  match r with
  | Ok target' => stays_set target target'
  | Raise x => x = IndexError
  end.
Proof.
  unfold mark. intros <-. destruct (bitmap !! i) as [b|]; [|reflexivity].
  destruct (nonzero b); [|apply stays_set_refl].
  destruct (i <? List.length target)%nat; [apply stays_set_insert|reflexivity].
Qed.

Lemma merge_branches_inv bt bf idx taken fall r taken' fall' :
  merge_branches bt bf idx taken fall = (r, taken', fall') ->
  stays_set taken taken' /\ stays_set fall fall' /\
  match r with Ok _ => True | Raise x => x = IndexError end.
Proof.
  revert taken fall. induction idx as [|i rest IH]; intros taken fall; cbn [merge_branches].
  - intros [= <- <- <-]. split; [apply stays_set_refl|]. split; [apply stays_set_refl|exact I].
  - pose proof (mark_inv bt i taken _ eq_refl) as H1.
    destruct (mark bt i taken) as [taken1|x].
    2: { intros [= <- <- <-]. split; [apply stays_set_refl|]. split; [apply stays_set_refl|exact H1]. }
    pose proof (mark_inv bf i fall _ eq_refl) as H2.
    destruct (mark bf i fall) as [fall1|x].
    2: { intros [= <- <- <-]. split; [exact H1|]. split; [apply stays_set_refl|exact H2]. }
    intros Hrest. apply IH in Hrest. destruct Hrest as (Ht & Hf & Hr).
    split; [eapply stays_set_trans; eassumption|]. split; [eapply stays_set_trans; eassumption|exact Hr].
Qed.

Lemma count_insert gb i z :
  gb !! i = Some z -> nonzero z = false ->
  count_edges (<[i := 1]> gb) = S (count_edges gb).
Proof.
  unfold count_edges. revert i. induction gb as [|a gb IH]; intros i; [discriminate|].
  destruct i as [|i]; intros Hi Hz.
  - cbn in Hi. injection Hi as ->. cbn. rewrite Hz. reflexivity.
  - cbn in Hi. specialize (IH i Hi Hz).
    change (<[S i := 1]> (a :: gb)) with (a :: <[i := 1]> gb).
    cbn [List.filter]. destruct (nonzero a); cbn [List.length]; rewrite IH; reflexivity.
Qed.

Lemma merge_cov_flag rb idx gb new_edge r gb' new_edge' :
  merge_cov rb idx gb new_edge = (r, gb', new_edge') ->
  Forall (fun i => (i < List.length gb)%nat) idx ->
  match r with Ok _ => True | Raise x => x = IndexError end /\
  (new_edge = true -> new_edge' = true) /\
  (new_edge' = false -> gb' = gb) /\
  (new_edge = false -> new_edge' = true -> (count_edges gb < count_edges gb')%nat).
Proof.
  revert gb new_edge. induction idx as [|i rest IH]; intros gb new_edge; cbn [merge_cov].
  - intros [= <- <- <-] _. repeat split; congruence.
  - intros Hrun Hidx. apply Forall_cons in Hidx. destruct Hidx as [Hi Hidx].
    destruct (rb !! i) as [x|]; [|injection Hrun as <- <- <-; repeat split; congruence].
    destruct (lookup_lt_is_Some_2 gb i Hi) as [z Hz]. rewrite Hz in Hrun.
    change (default 0 (Some z)) with z in Hrun.
    destruct (nonzero x && negb (nonzero z)) eqn:Hnew.
    + apply andb_true_iff in Hnew. destruct Hnew as [_ Hzero]. apply negb_true_iff in Hzero.
      pose proof (merge_cov_grows _ _ _ _ _ _ _ Hrun) as Hg. apply grows_count in Hg.
      apply IH in Hrun; [|rewrite length_insert; exact Hidx].
      destruct Hrun as (Hr & Hkeep & _ & _). specialize (Hkeep eq_refl).
      rewrite (count_insert _ _ _ Hz Hzero) in Hg.
      split; [exact Hr|]. split; [auto|]. split; [congruence|]. intros _ _. lia.
    + apply IH; assumption.
Qed.

(** What a call of [add_sample] does to the tracker. *)
Lemma add_sample_cases t sample now r t' :
  add_sample t sample now = (r, t') ->
  exists gb new_edge taken fall,
    grows (cov_bitmap t) gb /\
    (new_edge = false -> gb = cov_bitmap t) /\
    (new_edge = true -> (count_edges (cov_bitmap t) < count_edges gb)%nat) /\
    stays_set (branch_taken t) taken /\ stays_set (branch_fallthrough t) fall /\
    ((Sample.branch_taken_bitmap sample = None \/ Sample.branch_fallthrough_bitmap sample = None) ->
     taken = branch_taken t /\ fall = branch_fallthrough t) /\
    match r with
    | Ok _ => t' = absorb (set_branches (set_cov t gb) taken fall) sample new_edge now
    | Raise x => x = IndexError /\ t' = set_branches (set_cov t gb) taken fall
    end.
Proof.
  unfold add_sample.
  destruct (match Sample.cov_bitmap sample with
            | Some rb => _ | None => _ end) as [[r1 gb] new_edge] eqn:Hcov.
  assert (Hc : grows (cov_bitmap t) gb /\
               match r1 with Ok _ => True | Raise x => x = IndexError end /\
               (new_edge = false -> gb = cov_bitmap t) /\
               (new_edge = true -> (count_edges (cov_bitmap t) < count_edges gb)%nat)).
  { destruct (Sample.cov_bitmap sample) as [rb|].
    - pose proof (merge_cov_grows _ _ _ _ _ _ _ Hcov) as Hg.
      apply merge_cov_flag in Hcov.
      2: { apply Forall_forall. intros i Hi. apply elem_of_seq in Hi. lia. }
      destruct Hcov as (Hr & _ & Hsame & Hmore). auto.
    - injection Hcov as <- <- <-. split; [apply grows_refl|]. repeat split; congruence. }
  destruct Hc as (Hg & Hr1 & Hsame & Hmore).
  destruct r1 as [[]|x].
  2: { intros [= <- <-]. exists gb, new_edge, (branch_taken t), (branch_fallthrough t).
       split; [exact Hg|]. split; [exact Hsame|]. split; [exact Hmore|].
       split; [apply stays_set_refl|]. split; [apply stays_set_refl|]. split; [auto|].
       split; [exact Hr1|reflexivity]. }
  destruct (match Sample.branch_taken_bitmap sample, Sample.branch_fallthrough_bitmap sample with
            | Some bt, Some bf => _ | _, _ => _ end) as [[r2 taken] fall] eqn:Hbr.
  assert (Hb : stays_set (branch_taken t) taken /\ stays_set (branch_fallthrough t) fall /\
               match r2 with Ok _ => True | Raise x => x = IndexError end /\
               ((Sample.branch_taken_bitmap sample = None \/
                 Sample.branch_fallthrough_bitmap sample = None) ->
                taken = branch_taken t /\ fall = branch_fallthrough t)).
  { destruct (Sample.branch_taken_bitmap sample) as [bt|],
             (Sample.branch_fallthrough_bitmap sample) as [bf|].
    1: { apply merge_branches_inv in Hbr. destruct Hbr as (H1 & H2 & H3).
         split; [exact H1|]. split; [exact H2|]. split; [exact H3|]. intros [[=]|[=]]. }
    all: injection Hbr as <- <- <-; repeat split; auto using stays_set_refl. }
  destruct Hb as (Ht & Hf & Hr2 & Hnone).
  destruct r2 as [[]|x]; intros [= <- <-]; exists gb, new_edge, taken, fall;
    (split; [exact Hg|]); (split; [exact Hsame|]); (split; [exact Hmore|]);
    (split; [exact Ht|]); (split; [exact Hf|]); (split; [exact Hnone|]); auto.
Qed.

Lemma add_samples_cons t c calls :
  add_samples t (c :: calls) = add_samples (add_sample t c.1 c.2).2 calls.
Proof. reflexivity. Qed.

Lemma largest_le f start samples : start <= largest f start samples.
Proof.
  unfold largest. revert start. induction samples as [|s samples IH]; intros start; cbn; [lia|].
  specialize (IH (Z.max start (f s))). lia.
Qed.

Lemma add_samples_counts t calls :
  let t' := add_samples t calls in
  let rs := returned t calls in
  num_samples t' = num_samples t + Z.of_nat (List.length rs) /\
  total_instructions t' = total_instructions t + total Sample.total_instructions rs /\
  pathlen_blocks_sum t' = pathlen_blocks_sum t + total Sample.pathlen_blocks rs /\
  calldepth_inside_sum t' = calldepth_inside_sum t + total Sample.call_depth rs /\
  pathlen_blocks_max t' = largest Sample.pathlen_blocks (pathlen_blocks_max t) rs /\
  calldepth_inside_max t' = largest Sample.call_depth (calldepth_inside_max t) rs.
Proof.
  cbv zeta. revert t. induction calls as [|c calls IH]; intros t.
  - cbn. repeat split; lia.
  - rewrite add_samples_cons. cbn [returned].
    destruct (add_sample t c.1 c.2) as [r t1] eqn:Hcall. cbn [snd].
    apply add_sample_cases in Hcall.
    destruct Hcall as (gb & ne & taken & fall & _ & _ & _ & _ & _ & _ & Hres).
    specialize (IH t1). destruct IH as (H1 & H2 & H3 & H4 & H5 & H6).
    rewrite H1, H2, H3, H4, H5, H6. clear H1 H2 H3 H4 H5 H6.
    destruct r as [[]|x].
    + subst t1. cbn. unfold total, largest. cbn. repeat split; lia.
    + destruct Hres as [_ ->]. cbn. repeat split; lia.
Qed.

(** X19. On a tracker that [__init__] built, over any run of
    [add_sample] calls, the counters account for exactly the calls that
    returned: [num_samples] is their number, the three sums are the sums
    of their samples' fields, the two maxima are the largest of 0 and their
    samples' fields. A call that raised counts for nothing. The division
    by [num_samples] in [get_result] raises [ZeroDivisionError] exactly
    when no call returned. *)
Theorem statistics_count_returned_calls map_size plateau_timeout now calls :
  let t := add_samples (new_tracker map_size plateau_timeout now) calls in
  let rs := returned (new_tracker map_size plateau_timeout now) calls in
  num_samples t = Z.of_nat (List.length rs) /\
  total_instructions t = total Sample.total_instructions rs /\
  pathlen_blocks_sum t = total Sample.pathlen_blocks rs /\
  calldepth_inside_sum t = total Sample.call_depth rs /\
  pathlen_blocks_max t = largest Sample.pathlen_blocks 0 rs /\
  calldepth_inside_max t = largest Sample.call_depth 0 rs /\
  (get_result t = Raise ZeroDivisionError <-> rs = []).
Proof.
  cbv zeta.
  destruct (add_samples_counts (new_tracker map_size plateau_timeout now) calls)
    as (H1 & H2 & H3 & H4 & H5 & H6).
  cbn in H1, H2, H3, H4, H5, H6.
  split; [exact H1|]. split; [exact H2|]. split; [exact H3|]. split; [exact H4|].
  split; [exact H5|]. split; [exact H6|].
  unfold get_result. rewrite H1.
  destruct (returned _ calls) as [|s rs]; cbn [List.length].
  - cbn. tauto.
  - destruct (Z.of_nat (S (List.length rs)) =? 0) eqn:Hz; [apply Z.eqb_eq in Hz; lia|].
    split; discriminate.
Qed.

Lemma add_sample_averaged t sample now : averaged t -> averaged (add_sample t sample now).2.
Proof.
  intros (Hn & Hp & Hc & Hps & Hcs).
  destruct (add_sample t sample now) as [r t1] eqn:Hcall. cbn [snd].
  apply add_sample_cases in Hcall.
  destruct Hcall as (gb & ne & taken & fall & _ & _ & _ & _ & _ & _ & Hres).
  destruct r as [[]|x].
  - subst t1. unfold averaged. cbn. repeat split; try lia; nia.
  - destruct Hres as [_ ->]. unfold averaged. cbn. auto.
Qed.

Lemma add_samples_averaged t calls : averaged t -> averaged (add_samples t calls).
Proof.
  revert t. induction calls as [|c calls IH]; intros t Ht; [exact Ht|].
  rewrite add_samples_cons. apply IH, add_sample_averaged, Ht.
Qed.

Lemma largest_start f start samples : start <= largest f start samples.
Proof.
  unfold largest. revert start. induction samples as [|s samples IH]; intros start; cbn; [lia|].
  specialize (IH (Z.max start (f s))). lia.
Qed.

Lemma largest_bounds f start samples s :
  s ∈ samples -> f s <= largest f start samples.
Proof.
  unfold largest. revert start. induction samples as [|s0 samples IH]; intros start Hin;
    [inversion Hin|].
  cbn. apply elem_of_cons in Hin. destruct Hin as [->|Hin]; [|apply IH, Hin].
  pose proof (largest_start f (Z.max start (f s0)) samples) as Hle. unfold largest in Hle. lia.
Qed.

(** X20. On a tracker that [__init__] built, after any run of
    [add_sample] calls and whatever the samples held, neither maximum is
    negative, no sample of a call that returned exceeds them, and the sum
    of the path lengths is at most [num_samples] times the maximal path
    length, the sum of the call depths at most [num_samples] times the
    maximal call depth: the quotients that [get_result] rounds to floats
    do not exceed the maxima before the rounding. *)
Theorem sums_at_most_count_times_maximum map_size plateau_timeout now calls :
  let t := add_samples (new_tracker map_size plateau_timeout now) calls in
  let rs := returned (new_tracker map_size plateau_timeout now) calls in
  0 <= pathlen_blocks_max t /\ 0 <= calldepth_inside_max t /\
  pathlen_blocks_sum t <= num_samples t * pathlen_blocks_max t /\
  calldepth_inside_sum t <= num_samples t * calldepth_inside_max t /\
  forall s, s ∈ rs ->
    Sample.pathlen_blocks s <= pathlen_blocks_max t /\
    Sample.call_depth s <= calldepth_inside_max t.
Proof.
  cbv zeta.
  assert (Hinv : averaged (add_samples (new_tracker map_size plateau_timeout now) calls)).
  { apply add_samples_averaged. unfold averaged. cbn. lia. }
  destruct Hinv as (Hn & Hp & Hc & Hps & Hcs).
  destruct (add_samples_counts (new_tracker map_size plateau_timeout now) calls)
    as (_ & _ & _ & _ & H5 & H6).
  cbn in H5, H6.
  split; [exact Hp|]. split; [exact Hc|]. split; [exact Hps|]. split; [exact Hcs|].
  intros s Hs. rewrite H5, H6. split; apply largest_bounds, Hs.
Qed.

Lemma add_sample_branches t sample now :
  stays_set (branch_taken t) (branch_taken (add_sample t sample now).2) /\
  stays_set (branch_fallthrough t) (branch_fallthrough (add_sample t sample now).2).
Proof.
  destruct (add_sample t sample now) as [r t1] eqn:Hcall. cbn [snd].
  apply add_sample_cases in Hcall.
  destruct Hcall as (gb & ne & taken & fall & _ & _ & _ & Ht & Hf & _ & Hres).
  destruct r as [[]|x]; [subst t1|destruct Hres as [_ ->]]; cbn; auto.
Qed.

Lemma add_samples_branches t calls :
  stays_set (branch_taken t) (branch_taken (add_samples t calls)) /\
  stays_set (branch_fallthrough t) (branch_fallthrough (add_samples t calls)).
Proof.
  revert t. induction calls as [|c calls IH]; intros t.
  - split; apply stays_set_refl.
  - rewrite add_samples_cons.
    destruct (add_sample_branches t c.1 c.2) as [H1 H2].
    destruct (IH (add_sample t c.1 c.2).2) as [H3 H4].
    split; eapply stays_set_trans; eassumption.
Qed.

Lemma stays_set_sites taken taken' fall fall' :
  stays_set taken taken' -> stays_set fall fall' ->
  (count_branch_sites taken fall <= count_branch_sites taken' fall')%nat.
Proof.
  unfold count_branch_sites. intros Ht. revert fall fall'.
  induction Ht as [|a a' taken taken' Ha _ IH]; intros fall fall' Hf; [cbn; lia|].
  destruct Hf as [|b b' fall fall' Hb Hf]; [cbn; lia|].
  specialize (IH _ _ Hf). cbn [List.combine List.filter fst snd].
  destruct (nonzero a) eqn:Ea; [rewrite (Ha eq_refl); cbn [orb List.length]; lia|].
  destruct (nonzero b) eqn:Eb; [rewrite (Hb eq_refl), !orb_true_r; cbn [orb List.length]; lia|].
  cbn [orb]. destruct (nonzero a' || nonzero b'); cbn [List.length]; lia.
Qed.

Lemma stays_set_lookup gb gb' i v :
  stays_set gb gb' -> gb !! i = Some v -> v <> 0 ->
  exists v', gb' !! i = Some v' /\ v' <> 0.
Proof.
  intros Hs Hi Hv. destruct (Forall2_lookup_l _ _ _ _ _ Hs Hi) as (b & Hb & Hab).
  exists b. split; [exact Hb|].
  assert (Hnz : nonzero v = true) by (unfold nonzero; apply negb_true_iff, Z.eqb_neq, Hv).
  specialize (Hab Hnz). unfold nonzero in Hab. apply negb_true_iff, Z.eqb_neq in Hab. exact Hab.
Qed.

(** X21. Over any run of [add_sample] calls, a position that is set in
    the taken or in the fall-through bitmap stays set, the
    [total_branch_sites] that [get_result] reports does not decrease, and
    a sample that lacks one of its two branch bitmaps leaves both bitmaps
    of the tracker as they were. *)
Theorem branch_sites_monotone :
  (forall t calls i v,
      branch_taken t !! i = Some v -> v <> 0 ->
      exists v', branch_taken (add_samples t calls) !! i = Some v' /\ v' <> 0) /\
  (forall t calls i v,
      branch_fallthrough t !! i = Some v -> v <> 0 ->
      exists v', branch_fallthrough (add_samples t calls) !! i = Some v' /\ v' <> 0) /\
  (forall t calls more r1 r2,
      get_result (add_samples t calls) = Ok r1 ->
      get_result (add_samples t (calls ++ more)) = Ok r2 ->
      (total_branch_sites r1 <= total_branch_sites r2)%nat) /\
  (forall t sample now,
      Sample.branch_taken_bitmap sample = None \/
      Sample.branch_fallthrough_bitmap sample = None ->
      branch_taken (add_sample t sample now).2 = branch_taken t /\
      branch_fallthrough (add_sample t sample now).2 = branch_fallthrough t).
Proof.
  split; [|split; [|split]].
  - intros t calls i v. apply stays_set_lookup, add_samples_branches.
  - intros t calls i v. apply stays_set_lookup, add_samples_branches.
  - intros t calls more r1 r2 H1 H2. rewrite add_samples_app in H2.
    unfold get_result in H1, H2.
    destruct (num_samples (add_samples t calls) =? 0); [discriminate|].
    destruct (num_samples (add_samples (add_samples t calls) more) =? 0); [discriminate|].
    injection H1 as <-. injection H2 as <-. cbn.
    destruct (add_samples_branches (add_samples t calls) more) as [Ht Hf].
    apply stays_set_sites; assumption.
  - intros t sample now Hnone.
    destruct (add_sample t sample now) as [r t1] eqn:Hcall. cbn [snd].
    apply add_sample_cases in Hcall.
    destruct Hcall as (gb & ne & taken & fall & _ & _ & _ & _ & _ & Hsame & Hres).
    destruct (Hsame Hnone) as [-> ->].
    destruct r as [[]|x]; [subst t1|destruct Hres as [_ ->]]; cbn; auto.
Qed.

(** X22. A call of [add_sample] that returns sets [last_coverage_time]
    to the clock reading exactly when it covered a new edge, and then the
    number of covered edges grew; otherwise the time and the edge bitmap
    are as before. A call that raises, which it does with [IndexError]
    only, leaves the time as it was, whatever it wrote to the bitmap. No
    call changes [last_coverage_edges], [start_time], the plateau timeout
    or [MAP_SIZE]. *)
Theorem plateau_clock_resets_on_new_edge t sample now r t' :
  add_sample t sample now = (r, t') ->
  match r with
  | Ok _ =>
      last_coverage_time t' = now /\
      (count_edges (cov_bitmap t) < count_edges (cov_bitmap t'))%nat \/
      last_coverage_time t' = last_coverage_time t /\ cov_bitmap t' = cov_bitmap t
  | Raise x => x = IndexError /\ last_coverage_time t' = last_coverage_time t
  end /\
  last_coverage_edges t' = last_coverage_edges t /\
  start_time t' = start_time t /\
  coverage_plateau_timeout t' = coverage_plateau_timeout t /\
  MAP_SIZE t' = MAP_SIZE t.
Proof.
  intros Hcall. apply add_sample_cases in Hcall.
  destruct Hcall as (gb & ne & taken & fall & _ & Hsame & Hmore & _ & _ & _ & Hres).
  destruct r as [[]|x].
  - subst t'. cbn. split; [|auto].
    destruct ne; [left; split; [reflexivity|auto]|right; split; [reflexivity|auto]].
  - destruct Hres as [-> ->]. cbn. auto.
Qed.

Lemma add_sample_addresses t sample now r t' :
  add_sample t sample now = (r, t') ->
  instruction_addresses t' =
  if is_ok r then instruction_addresses t ∪ addresses_of sample else instruction_addresses t.
Proof.
  intros Hcall. apply add_sample_cases in Hcall.
  destruct Hcall as (gb & ne & taken & fall & _ & _ & _ & _ & _ & _ & Hres).
  destruct r as [[]|x].
  - subst t'. cbn. unfold addresses_of.
    destruct (Sample.instr_address_set sample) as [addrs|]; cbn.
    + case_bool_decide as He; [subst addrs; symmetry; apply (right_id_L ∅ (∪))|reflexivity].
    + symmetry. apply (right_id_L ∅ (∪)).
  - destruct Hres as [_ ->]. reflexivity.
Qed.

(** X23. Over any run of [add_sample] calls, the instruction addresses
    of the tracker are those it had and those of the samples whose call
    returned, and their number does not decrease. *)
Theorem instruction_addresses_accumulate t calls :
  (forall a, a ∈ instruction_addresses (add_samples t calls) <->
             a ∈ instruction_addresses t \/
             exists sample, sample ∈ returned t calls /\ a ∈ addresses_of sample) /\
  (size (instruction_addresses t) <= size (instruction_addresses (add_samples t calls)))%nat.
Proof.
  assert (Hmem : forall a, a ∈ instruction_addresses (add_samples t calls) <->
             a ∈ instruction_addresses t \/
             exists sample, sample ∈ returned t calls /\ a ∈ addresses_of sample).
  { revert t. induction calls as [|c calls IH]; intros t a.
    - cbn. split; [auto|]. intros [Ha|(s & Hs & _)]; [exact Ha|inversion Hs].
    - rewrite add_samples_cons. cbn [returned].
      destruct (add_sample t c.1 c.2) as [r t1] eqn:Hcall. cbn [snd].
      rewrite IH, (add_sample_addresses _ _ _ _ _ Hcall).
      destruct r as [[]|x]; cbn [is_ok app].
      + rewrite elem_of_union. split.
        * intros [[Ha|Ha]|(s & Hs & Ha)]; [left; exact Ha|right..].
          -- exists c.1. split; [apply list_elem_of_here|exact Ha].
          -- exists s. split; [apply list_elem_of_further, Hs|exact Ha].
        * intros [Ha|(s & Hs & Ha)]; [left; left; exact Ha|].
          apply elem_of_cons in Hs. destruct Hs as [->|Hs]; [left; right; exact Ha|].
          right. exists s. auto.
      + reflexivity. }
  split; [exact Hmem|]. apply subseteq_size. intros a Ha. apply Hmem. left. exact Ha.
Qed.

End TrackerStatistics.

(** ** The properties on runs *)

Section EngineLoadingScenarios.
Import Scenario.

Lemma operators_py_names : NoDup (List.map fst operators_py).
Proof. apply (bool_decide_unpack _). vm_compute. exact I. Qed.

Lemma load_operators_registers_witness :
  exists ops,
    _load_operators (Some operators_py) = Ok ops /\
    forall name f, ops !! name = Some f <-> registers operators_py name f.
Proof. exact (load_operators_registers operators_py operators_py_names). Defined.

(** A reload with the files the engine was built from: the history of the
    call before it is kept. *)
Lemma reload_matches_init_witness :
  reload same_engine_used (Some same_module) (Some (strategy [rule JNull [("always_same", 1)]]))%string
  = (Ok tt, Engine (operators same_engine) (rules same_engine)
              (mutation_history same_engine_used)
              (max_mutation_history_size same_engine_used) (max_retries same_engine_used)).
Proof.
  apply (proj1 (reload_matches_init same_engine_used (Some same_module)
                  (Some (strategy [rule JNull [("always_same", 1)]]))%string)).
  exists same_engine. split; [exact same_engine_built|reflexivity].
Defined.

Lemma failed_reload_raises :
  reload same_engine_used (Some same_module) (Some unknown_strategy)
  = (Raise (ValueError "unknown operator"), failed_reload).
Proof. vm_compute. reflexivity. Qed.


(** A module whose second callable has no signature: the reload raises
    with the first callable alone in the table, beside rules that name an
    operator which is no longer there. *)
Example reload_without_signature_leaves_part :
  let r := reload_on same_engine
             (LoopRaises [("unchanged", Callable 2 unchanged)]%string TypeError)
             (Ok (strategy [])) in
  r.1 = Raise TypeError /\
  operators r.2 !! "always_same"%string = None /\
  operators same_engine !! "always_same"%string = Some always_same /\
  operators r.2 !! "unchanged"%string = Some unchanged /\
  rules r.2 = rules same_engine /\
  rules same_engine = JList [rule JNull [("always_same", 1)]]%string.
Proof. repeat split; vm_compute; reflexivity. Qed.

Lemma failed_reload_after : after_calls same_engine failed_reload.
Proof.
  eapply calls_reload; [|exact failed_reload_raises].
  eapply (calls_mutate _ same_engine b_x ∅ 1 start
            (mutate same_engine b_x ∅ 1 start).1.1 same_engine_used
            (mutate same_engine b_x ∅ 1 start).2); [apply calls_none|].
  unfold same_engine_used, b_x.
  destruct (mutate same_engine [x78] ∅ 1 start) as [[r e] w]. reflexivity.
Qed.

Lemma history_bounded_across_reloads_witness :
  (List.length (mutation_history failed_reload) < 1000)%nat /\
  Forall (fun h => List.length h = 16%nat) (mutation_history failed_reload) /\
  max_mutation_history_size failed_reload = 1000%nat /\ max_retries failed_reload = 5%nat.
Proof.
  exact (history_bounded_across_reloads _ _ _ _ same_engine_built failed_reload_after).
Defined.

Lemma random_bytes_run :
  mutate random_bytes_engine b_x ∅ 3 three_draws
  = (Ok three_outputs, (mutate random_bytes_engine b_x ∅ 3 three_draws).1.2,
     (mutate random_bytes_engine b_x ∅ 3 three_draws).2).
Proof.
  assert (Hout : (mutate random_bytes_engine b_x ∅ 3 three_draws).1.1 = Ok three_outputs)
    by (vm_compute; reflexivity).
  rewrite <- Hout. destruct (mutate random_bytes_engine b_x ∅ 3 three_draws) as [[r e] w].
  reflexivity.
Qed.

Lemma random_bytes_room :
  (List.length (mutation_history random_bytes_engine) + Z.to_nat 3
   < max_mutation_history_size random_bytes_engine)%nat.
Proof. vm_compute. lia. Qed.

Lemma mutate_emits_fresh_distinct_witness :
  NoDup (List.map fst three_outputs) /\
  (forall p, p ∈ three_outputs -> Md5.digest p.1 ∉ mutation_history random_bytes_engine) /\
  (forall h,
      h ∈ mutation_history (mutate random_bytes_engine b_x ∅ 3 three_draws).1.2 <->
      h ∈ mutation_history random_bytes_engine \/
      exists p, p ∈ three_outputs /\ h = Md5.digest p.1) /\
  List.length (mutation_history (mutate random_bytes_engine b_x ∅ 3 three_draws).1.2)
  = (List.length (mutation_history random_bytes_engine) + List.length three_outputs)%nat.
Proof.
  exact (mutate_emits_fresh_distinct _ _ _ _ _ _ _ _ random_bytes_run random_bytes_room).
Defined.




Lemma no_rules_engine_built :
  new_engine (Some scenario_operators) (Some (JObj [])) = Ok no_rules_engine.
Proof. vm_compute. reflexivity. Qed.

Lemma load_without_rules_witness :
  (rules no_rules_engine = JList [] \/ rules no_rules_engine = JObj [] \/
   rules no_rules_engine = JStr "") /\
  forall data ctx n w,
    mutate no_rules_engine data ctx n w
    = (Raise (ValueError (if (size (operators no_rules_engine) =? 0)%nat
                          then "No operators loaded"
                          else "No rules defined in strategy")), no_rules_engine, w).
Proof.
  apply (proj2 load_without_rules _ _ _ no_rules_engine_built). vm_compute. reflexivity.
Defined.



End EngineLoadingScenarios.

Section ProjectorKeysScenarios.
Import Scenario.
Import (hints) CPython.

Lemma value_and_sum_dict :
  _compute_state_dict [ItemValue "x"; ItemSum "y"] ∅ ∅ false = Ok {["y"%string := VInt 0]}.
Proof. vm_compute. reflexivity. Qed.

Lemma state_dict_keys_witness :
  is_Some (({["y"%string := VInt 0]} : gmap string pyval) !! "y"%string) <->
  exists item, item ∈ [ItemValue "x"; ItemSum "y"] /\ writes ∅ item "y".
Proof. exact (state_dict_keys _ _ _ _ _ "y"%string value_and_sum_dict). Defined.

Lemma value_writes_t : writes (Harness.latest_of samples_t) (ItemValue "t") "t".
Proof. split; [reflexivity|]. intros _. exists (VInt 1). vm_compute. reflexivity. Qed.

Lemma set_then_value_dict :
  _compute_state_dict ([ItemSet "t"] ++ ItemValue "t" :: []) samples_t
    (Harness.latest_of samples_t) false
  = Ok {["t"%string := VInt 1]}.
Proof. vm_compute. reflexivity. Qed.

(** A set item and a value item of one name: the tuple shows the latest
    value under the label of the set too. *)
Lemma last_writer_wins_witness :
  exists d0 v,
    _compute_state_dict [ItemValue "t"] samples_t (Harness.latest_of samples_t) false = Ok d0 /\
    d0 !! "t"%string = Some v /\
    ({["t"%string := VInt 1]} : gmap string pyval) !! "t"%string = Some v /\
    forall other, other ∈ ([ItemSet "t"] ++ ItemValue "t" :: []) ->
      display_key other = Some "t"%string ->
      exists label, tuple_item {["t"%string := VInt 1]} other = [VStr label; v].
Proof.
  refine (last_writer_wins [ItemSet "t"] (ItemValue "t") [] samples_t
            (Harness.latest_of samples_t) false _ "t"%string value_writes_t _
            set_then_value_dict).
  intros later Hin. inversion Hin.
Defined.


Example set_label_shows_latest_value :
  Harness.observe [("t", Some "int")]%string [ItemSet "t"; ItemValue "t"] []
    (list_byte_of_string "t: 3
t: 1")
  = Ok ([VStr "t (set)"; VInt 1; VStr "t (value)"; VInt 1], ∅).
Proof. vm_compute. reflexivity. Qed.

End ProjectorKeysScenarios.

Section ParsingScenarios.
Import Scenario Harness.
Import (hints) CPython.

Lemma one_int_parsed :
  parse_stdout [("x", Some "int")]%string (list_byte_of_string "x: 42")
  = Ok {["x"%string := [VInt 42]]}.
Proof. vm_compute. reflexivity. Qed.

Lemma parsed_samples_per_name_witness :
  ({["x"%string := [VInt 42]]} : gmap string (list pyval)) !! "x"%string =
  match assoc "x" (execution_values_dict [("x", Some "int")]%string) with
  | None => None
  | Some value_type =>
      match collected "x" value_type (splitlines (string_of_list_byte (list_byte_of_string "x: 42"))) with
      | [] => None
      | values => Some values
      end
  end.
Proof. exact (parsed_samples_per_name _ _ _ "x"%string one_int_parsed). Defined.

Lemma parsed_samples_typed_witness :
  [VInt 42] <> [] /\
  (List.length [VInt 42]
   <= List.length (splitlines (string_of_list_byte (list_byte_of_string "x: 42"))))%nat /\
  (exists value_type,
      assoc "x" (execution_values_dict [("x", Some "int")]%string) = Some value_type /\
      Forall (fun v => value_kind value_type v = true) [VInt 42]) /\
  latest_of {["x"%string := [VInt 42]]} !! "x"%string = last [VInt 42] /\
  is_Some (latest_of {["x"%string := [VInt 42]]} !! "x"%string).
Proof.
  refine (parsed_samples_typed _ _ _ "x"%string [VInt 42] one_int_parsed _).
  vm_compute. reflexivity.
Defined.

Lemma cpython_float_raises t x :
  CPython.float_of_str t = Raise x -> exists msg, x = ValueError msg.
Proof.
  unfold CPython.float_of_str.
  destruct (negb _); [intros [= <-]; eauto|].
  destruct (CPython.take_sign _) as [negative body].
  destruct (_ || _); [discriminate|].
  destruct (String.eqb _ "nan"); [discriminate|].
  destruct (CPython.parse_decimal body) as [[[m k] n]|]; [discriminate|].
  intros [= <-]. eauto.
Qed.

(** A sum over float samples, which the coercion of the scenarios
    refuses: the error of the projection is the error of the coercion. *)
Lemma observe_raises_only_in_sum_witness :
  exists samples,
    parse_stdout [("t", Some "float")]%string (list_byte_of_string "t: 0.5") = Ok samples /\
    match observe [("t", Some "float")]%string [ItemSum "t"] [] (list_byte_of_string "t: 0.5") with
    | Ok (state, context) =>
        exists d,
          _compute_state_dict [ItemSum "t"] samples (latest_of samples) false = Ok d /\
          state = _dict_to_state_tuple [ItemSum "t"] d /\
          _compute_state_dict [] samples (latest_of samples) false = Ok context
    | Raise e => sum_failure samples ([ItemSum "t"] ++ []) e
    end.
Proof.
  destruct (observe_raises_only_in_sum (H0 := CPython.cpython_builtins)
              [("t", Some "float")]%string [ItemSum "t"] []
              (list_byte_of_string "t: 0.5") cpython_float_raises)
    as (samples & Hparse & Hobserve).
  exists samples. split; [exact Hparse|]. apply Hobserve.
  intros item Hin. cbn in Hin. apply list_elem_of_singleton in Hin. subst item. reflexivity.
Defined.

Lemma first_token_has_no_blank_witness :
  scan_name "b:" ∅ ("b", "int")%string = Ok ∅ /\
  scan_name "b:" ∅ ("b", "bool")%string = Ok (append_sample "b" (VInt 0) ∅) /\
  forall value_type,
    String.eqb value_type "int" = false -> String.eqb value_type "float" = false ->
    String.eqb value_type "bool" = false ->
    scan_name "b:" ∅ ("b"%string, value_type) = Ok (append_sample "b" (VStr "") ∅).
Proof.
  apply (proj2 first_token_has_no_blank "b:"%string ∅ "b"%string ""%string); reflexivity.
Defined.

Example sum_of_floats_raises :
  observe [("t", Some "float")]%string [ItemSum "t"] [] (list_byte_of_string "t: 0.5")
  = Raise (ValueError "coerce_value_to_int").
Proof. vm_compute. reflexivity. Qed.

(** The name [x] is read out of a line that reports [max]; a line with
    nothing after the colon gives 0 for a [bool] and the empty string for a
    [string]. *)
Example pattern_inside_a_word :
  parse_stdout [("x", Some "int")]%string (list_byte_of_string "max: 3 x: 4")
  = Ok {["x"%string := [VInt 3]]} /\
  parse_stdout [("b", Some "bool"); ("s", None); ("i", Some "int")]%string
    (list_byte_of_string "b:
s:
i:")
  = Ok {["b"%string := [VInt 0]; "s"%string := [VStr ""]]}.
Proof. split; vm_compute; reflexivity. Qed.

End ParsingScenarios.

Section TrackerStatisticsScenarios.
Import CorpusStatTracker Scenario.

Lemma branch_sites_monotone_witness :
  branch_taken (add_sample tracker4 taken_only_sample one_second).2 = branch_taken tracker4 /\
  branch_fallthrough (add_sample tracker4 taken_only_sample one_second).2
  = branch_fallthrough tracker4.
Proof.
  apply (proj2 (proj2 (proj2 branch_sites_monotone))). right. reflexivity.
Defined.

Lemma new_edge_call :
  add_sample tracker4 edge_sample one_second
  = (Ok tt, (add_sample tracker4 edge_sample one_second).2).
Proof. vm_compute. reflexivity. Qed.

Lemma plateau_clock_resets_on_new_edge_witness :
  (last_coverage_time (add_sample tracker4 edge_sample one_second).2 = one_second /\
   (count_edges (cov_bitmap tracker4)
    < count_edges (cov_bitmap (add_sample tracker4 edge_sample one_second).2))%nat \/
   last_coverage_time (add_sample tracker4 edge_sample one_second).2
   = last_coverage_time tracker4 /\
   cov_bitmap (add_sample tracker4 edge_sample one_second).2 = cov_bitmap tracker4) /\
  last_coverage_edges (add_sample tracker4 edge_sample one_second).2
  = last_coverage_edges tracker4 /\
  start_time (add_sample tracker4 edge_sample one_second).2 = start_time tracker4 /\
  coverage_plateau_timeout (add_sample tracker4 edge_sample one_second).2
  = coverage_plateau_timeout tracker4 /\
  MAP_SIZE (add_sample tracker4 edge_sample one_second).2 = MAP_SIZE tracker4.
Proof. exact (plateau_clock_resets_on_new_edge _ _ _ _ _ new_edge_call). Defined.

(** A sample that is too short after a new edge: the call raises, the
    edge is covered, the clock is not reset. *)
Example raising_call_keeps_the_clock :
  let t := (add_sample tracker4 short_sample one_second).2 in
  (add_sample tracker4 short_sample one_second).1 = Raise IndexError /\
  cov_bitmap t = [1; 0; 0; 0] /\ last_coverage_time t = S754_zero false /\
  returned tracker4 first_calls = [edge_sample].
Proof. repeat split; vm_compute; reflexivity. Qed.

End TrackerStatisticsScenarios.
